(** * cc-devtools documentation indexer: chunking, storage and search

    A shallow embedding of the documentation indexer of cc-devtools
    (src/documentation-indexer): the parsers and the chunk assembler of
    services/parser.ts, the context generator of
    services/context-generator.ts, the index store of core/storage.ts, the
    search strategies of services/search.ts, the per-file pipeline and
    the reconciliation with the disk of services/scanner.ts, the file
    watcher of services/watcher.ts and the search tool of
    tools/search-docs.ts.

    Conventions of the embedding.
    - A JavaScript string is a [string]: a sequence of code units below 256
      (the Latin-1 range); [String.length] is the [.length] of the source.
    - A JavaScript [number] that holds a line number, a size or a token
      count is a [Z]; a score is a binary64 [float], as in the runtime,
      and so are the counters and the times of the search tool and every
      number read from a stored file ([JSMath.ofInteger] is the number
      an integer denotes).
    - A [Map] is an insertion-ordered association list ([JMap]).
    - What is read from a stored index is data of any shape
      ([Storage.Value]); the typed records describe the data the indexer
      builds itself.
    - Mutable loop state is passed explicitly: every [for]/[while] loop is a
      fold (or a structural recursion) over the state the loop updates.
    - What the sources import from outside the indexer is a parameter of
      the definitions that use it: the glob matcher, the embedding
      provider and the cosine similarity, the serializer and the lock of
      the index store, the content of the files, the text the runtime
      prints for a number.

    Part I holds the definitions, Part II the properties. *)

From Stdlib Require Import ZArith List String Ascii Bool Lia.
From Stdlib Require Import Floats.PrimFloat Floats.SpecFloat Floats.FloatOps.
From Stdlib Require Floats.FloatAxioms.
From Stdlib Require Import Numbers.DecimalString Numbers.DecimalZ.
From Stdlib Require Import Numbers.Cyclic.Int63.Uint63.
From Stdlib Require Import Sorting.Permutation.
Import ListNotations.

Local Open Scope string_scope.
Local Open Scope list_scope.
Local Open Scope Z_scope.

#[local] Set Warnings "-inexact-float,-register-all".

(* ================================================================== *)
(** * Part I. Definitions                                               *)
(* ================================================================== *)

(** ** The string primitives of the runtime used by the sources *)

Module JS.

(** Line feed, the ['\n'] of the sources. *)
Definition LF : ascii := ascii_of_nat 10.

(** The blank-line separator ["\n\n"] used when contents are glued. *)
Definition LFLF : string := String LF (String LF EmptyString).

(** [\s] of a regular expression and the characters [trim] removes,
    restricted to code units below 256: TAB, LF, VT, FF, CR, SP, NBSP. *)
Definition isWhiteSpace (c : ascii) : bool :=
  let n := nat_of_ascii c in
  ((9 <=? n)%nat && (n <=? 13)%nat) || (n =? 32)%nat || (n =? 160)%nat.

(** A string is truthy exactly when it is not empty. *)
Definition truthy (s : string) : bool :=
  match s with
  | EmptyString => false
  | String _ _ => true
  end.

Definition lengthZ (s : string) : Z := Z.of_nat (String.length s).

Fixpoint trimStart (s : string) : string :=
  match s with
  | EmptyString => EmptyString
  | String c s' => if isWhiteSpace c then trimStart s' else s
  end.

Fixpoint trimEnd (s : string) : string :=
  match s with
  | EmptyString => EmptyString
  | String c s' =>
      let t := trimEnd s' in
      if isWhiteSpace c && negb (truthy t) then EmptyString else String c t
  end.

(** [s.trim()] *)
Definition trim (s : string) : string := trimEnd (trimStart s).

(** [s.split(sep)] for a one-character separator. *)
Fixpoint split (sep : ascii) (s : string) : list string :=
  match s with
  | EmptyString => [EmptyString]
  | String c s' =>
      if Ascii.eqb c sep then EmptyString :: split sep s'
      else match split sep s' with
           | [] => [String c EmptyString]
           | h :: t => String c h :: t
           end
  end.

(** [parts.join(sep)] *)
Definition join (sep : string) (parts : list string) : string :=
  String.concat sep parts.

(** [s.startsWith(p)] *)
Definition startsWith (s p : string) : bool := String.prefix p s.

(** [s.includes(sub)]: [sub] occurs in [s] at some position. *)
Fixpoint includes (s sub : string) : bool :=
  String.prefix sub s ||
  match s with
  | EmptyString => false
  | String _ s' => includes s' sub
  end.

(** [toLowerCase] on code units below 256: A-Z and the Latin-1 capitals
    U+00C0-U+00DE (the multiplication sign U+00D7 apart) move up by 32. *)
Definition lowerChar (c : ascii) : ascii :=
  let n := nat_of_ascii c in
  if ((65 <=? n)%nat && (n <=? 90)%nat)
     || ((192 <=? n)%nat && (n <=? 222)%nat && negb (n =? 215)%nat)
  then ascii_of_nat (n + 32) else c.

Fixpoint toLowerCase (s : string) : string :=
  match s with
  | EmptyString => EmptyString
  | String c s' => String (lowerChar c) (toLowerCase s')
  end.

(** [arr.includes(x)] on an array of strings. *)
Definition arrayIncludes (arr : list string) (x : string) : bool :=
  existsb (String.eqb x) arr.

(** The decimal text of an integral number, as a template literal
    prints it. *)
Definition numberToString (n : Z) : string :=
  NilZero.string_of_int (Z.to_int n).

(** The length of the match of [/\n\s*\n/] that starts at a line feed,
    counted after that first line feed: [\s*] is greedy, so the match
    ends at the last line feed of the white-space run that follows.
    [n] counts the characters of the run read so far. *)
Fixpoint blankRun (t : string) (n : nat) (best : option nat) : option nat :=
  match t with
  | EmptyString => best
  | String c t' =>
      if isWhiteSpace c
      then blankRun t' (S n) (if Ascii.eqb c LF then Some (S n) else best)
      else best
  end.

(** The scan of [s.split(/\n\s*\n/)]: [skip] characters still belong to
    the separator matched last, [cur] is the piece being read. *)
Fixpoint splitBlankAux (skip : nat) (s : string) (cur : string) : list string :=
  match s with
  | EmptyString => [cur]
  | String c s' =>
      match skip with
      | S k => splitBlankAux k s' cur
      | O =>
          if Ascii.eqb c LF then
            match blankRun s' 0 None with
            | Some k => cur :: splitBlankAux k s' EmptyString
            | None => splitBlankAux 0 s' (cur ++ String c EmptyString)%string
            end
          else splitBlankAux 0 s' (cur ++ String c EmptyString)%string
      end
  end.

(** [s.split(/\n\s*\n/)]: the blank-line-delimited paragraphs of [s]. *)
Definition splitBlankLines (s : string) : list string :=
  splitBlankAux 0 s EmptyString.

(** [s.split('\n').length] *)
Definition lineCount (s : string) : Z := Z.of_nat (List.length (split LF s)).

(** [s.split(/\s+/)] *)
Fixpoint splitSpacesAux (inSeparator : bool) (s : string) (cur : string)
    : list string :=
  match s with
  | EmptyString => [cur]
  | String c s' =>
      if isWhiteSpace c then
        if inSeparator then splitSpacesAux true s' cur
        else cur :: splitSpacesAux true s' EmptyString
      else splitSpacesAux false s' (cur ++ String c EmptyString)%string
  end.

Definition splitSpaces (s : string) : list string :=
  splitSpacesAux false s EmptyString.

(** [s.slice(0, n)] for a size [n] *)
Definition sliceTo (n : nat) (s : string) : string := String.substring 0 n s.

Fixpoint dropTrailing (c : ascii) (s : string) : string :=
  match s with
  | EmptyString => EmptyString
  | String x s' =>
      let t := dropTrailing c s' in
      if Ascii.eqb x c && negb (truthy t) then EmptyString else String x t
  end.

(** The position of the last [c] in [s]. *)
Fixpoint lastIndexOf (c : ascii) (s : string) : option nat :=
  match s with
  | EmptyString => None
  | String x s' =>
      match lastIndexOf c s' with
      | Some k => Some (S k)
      | None => if Ascii.eqb x c then Some O else None
      end
  end.

(** [path.extname] of the runtime on POSIX paths: the text from the last
    dot of the last segment of the path, trailing slashes apart; empty
    when that segment has no dot, starts with its only dot, or is [..]. *)
Definition extname (path : string) : string :=
  let base := last (split "/" (dropTrailing "/" path)) EmptyString in
  match lastIndexOf "." base with
  | None => EmptyString
  | Some O => EmptyString
  | Some k =>
      if String.eqb base ".." then EmptyString
      else String.substring k (String.length base - k) base
  end.

End JS.

(** ** Insertion-ordered maps (the [Map] of the runtime) *)

Module JMap.
Section Defs.
Context {K V : Type} (eqb : K -> K -> bool).

Definition t := list (K * V).

Definition keys (m : t) : list K := map fst m.
Definition values (m : t) : list V := map snd m.

Fixpoint get (k : K) (m : t) : option V :=
  match m with
  | [] => None
  | (k', v) :: m' => if eqb k k' then Some v else get k m'
  end.

(** [m.set(k, v)]: an existing key keeps its position and takes the
    new value; a new key goes last. *)
Fixpoint set (k : K) (v : V) (m : t) : t :=
  match m with
  | [] => [(k, v)]
  | (k', v') :: m' =>
      if eqb k k' then (k', v) :: m' else (k', v') :: set k v m'
  end.

Fixpoint delete (k : K) (m : t) : t :=
  match m with
  | [] => []
  | (k', v') :: m' => if eqb k k' then m' else (k', v') :: delete k m'
  end.

(** [new Map(entries)] *)
Definition ofEntries (entries : list (K * V)) : t :=
  fold_left (fun m kv => set (fst kv) (snd kv) m) entries [].

(** The representation invariant of a [Map]: no key occurs twice. *)
Definition wf (m : t) : Prop := NoDup (keys m).
End Defs.
Arguments t : clear implicits.
End JMap.

(** ** The regular expressions of the parser

    The expressions the parser matches lines and contents with are
    sequences of character classes with a repetition each, some anchored
    at the start of the input or of a line, some closed by [$]. They are
    matched as the runtime matches them, by backtracking: a greedy
    repetition tries the longest run first, a lazy one the shortest. *)

Module Regex.
Import JS.

(** A character class repeated between [atLeast] and [atMost] times. *)
Record Item := mkItem {
  class : ascii -> bool;
  atLeast : nat;
  atMost : option nat;
  greedy : bool
}.

(** [^] without and with the flag [m]. *)
Inductive Anchor := Anywhere | StartOfInput | StartOfLine.

(** [$] without and with the flag [m]. *)
Inductive Ending := Open | EndOfInput | EndOfLine.

Record Pattern := mkPattern {
  anchor : Anchor;
  items : list Item;
  ending : Ending
}.

(** The line terminators: what [.] does not match and what [^] and [$]
    look at under the flag [m]. *)
Definition isLineTerminator (c : ascii) : bool :=
  Ascii.eqb c LF || Ascii.eqb c (ascii_of_nat 13).

Definition once (class : ascii -> bool) : Item :=
  {| class := class; atLeast := 1; atMost := Some 1%nat; greedy := true |}.

Definition oneOrMore (class : ascii -> bool) : Item :=
  {| class := class; atLeast := 1; atMost := None; greedy := true |}.

Definition only (c : ascii) : ascii -> bool := Ascii.eqb c.
Definition allBut (c : ascii) : ascii -> bool := fun x => negb (Ascii.eqb c x).
Definition dot : ascii -> bool := fun x => negb (isLineTerminator x).
Definition anyChar : ascii -> bool := fun _ => true.
Definition oneOf (cs : list ascii) : ascii -> bool :=
  fun x => existsb (Ascii.eqb x) cs.

(** The number of leading characters of [s] in the class, up to [limit]. *)
Fixpoint run (class : ascii -> bool) (limit : option nat) (s : string) : nat :=
  match s with
  | EmptyString => O
  | String c s' =>
      match limit with
      | Some O => O
      | Some (S l) => if class c then S (run class (Some l) s') else O
      | None => if class c then S (run class None s') else O
      end
  end.

Fixpoint skip (n : nat) (s : string) : string :=
  match n, s with
  | S n', String _ s' => skip n' s'
  | _, _ => s
  end.

Definition ends (e : Ending) (s : string) : bool :=
  match e, s with
  | Open, _ => true
  | EndOfInput, EmptyString => true
  | EndOfInput, String _ _ => false
  | EndOfLine, EmptyString => true
  | EndOfLine, String c _ => isLineTerminator c
  end.

(** The match of [items] at the start of [s], if there is one: the number
    of characters each item takes, in the first match in the order of the
    backtracking. *)
Fixpoint matchItems (items : list Item) (e : Ending) (s : string)
    : option (list nat) :=
  match items with
  | [] => if ends e s then Some [] else None
  | item :: rest =>
      let longest := run (class item) (atMost item) s in
      if (longest <? atLeast item)%nat then None
      else if greedy item then
        (fix down (extra : nat) : option (list nat) :=
           let count := (atLeast item + extra)%nat in
           match matchItems rest e (skip count s) with
           | Some counts => Some (count :: counts)
           | None =>
               match extra with
               | O => None
               | S extra' => down extra'
               end
           end) (longest - atLeast item)%nat
      else
        (fix up (left : nat) (count : nat) : option (list nat) :=
           match matchItems rest e (skip count s) with
           | Some counts => Some (count :: counts)
           | None =>
               match left with
               | O => None
               | S left' => up left' (S count)
               end
           end) (longest - atLeast item)%nat (atLeast item)
  end.

Definition anchored (a : Anchor) (atStart afterTerminator : bool) : bool :=
  match a with
  | Anywhere => true
  | StartOfInput => atStart
  | StartOfLine => atStart || afterTerminator
  end.

(** The match of the pattern at the start of [s], a position that is the
    start of the input ([atStart]), follows a line terminator
    ([afterTerminator]), or neither. *)
Definition matchHere (p : Pattern) (atStart afterTerminator : bool)
    (s : string) : option (list nat) :=
  if anchored (anchor p) atStart afterTerminator
  then matchItems (items p) (ending p) s
  else None.

(** [s.match(regex)] for a pattern anchored at the start of the input. *)
Definition matchStart (p : Pattern) (s : string) : option (list nat) :=
  matchHere p true false s.

(** [regex.test(s)], from a position on. *)
Fixpoint testFrom (p : Pattern) (atStart afterTerminator : bool) (s : string)
    : bool :=
  match matchHere p atStart afterTerminator s with
  | Some _ => true
  | None =>
      match s with
      | EmptyString => false
      | String c s' => testFrom p false (isLineTerminator c) s'
      end
  end.

Definition test (p : Pattern) (s : string) : bool := testFrom p true false s.

(** [s.replace(regex, '')] under the flag [g], from a position on;
    [matched] characters still belong to the match found last. *)
Fixpoint removeFrom (p : Pattern) (atStart afterTerminator : bool)
    (matched : nat) (s : string) : string :=
  match s with
  | EmptyString => EmptyString
  | String c s' =>
      match matched with
      | S k => removeFrom p false (isLineTerminator c) k s'
      | O =>
          match matchHere p atStart afterTerminator s with
          | Some counts =>
              match list_sum counts with
              | S k => removeFrom p false (isLineTerminator c) k s'
              | O => String c (removeFrom p false (isLineTerminator c) 0 s')
              end
          | None => String c (removeFrom p false (isLineTerminator c) 0 s')
          end
      end
  end.

Definition removeAll (p : Pattern) (s : string) : string :=
  removeFrom p true false 0 s.

End Regex.

(** ** services/parser.ts *)

Module Parser.
Import JS.

Inductive ChunkType := Heading | Paragraph | Code | ListItem.

Record ParsedChunk := mkParsedChunk {
  headings : list string;
  firstSentence : string;
  chunkType : ChunkType;
  content : string;
  startLine : Z;
  endLine : Z
}.

(** An entry of the heading stack. *)
Record HeadingEntry := mkHeadingEntry {
  level : Z;
  text : string;
  line : Z
}.

(** [chunks.push(chunk)] guarded by [if (chunk)]. *)
Definition pushChunk (chunks : list ParsedChunk) (chunk : option ParsedChunk)
    : list ParsedChunk :=
  match chunk with
  | Some c => chunks ++ [c]
  | None => chunks
  end.

(** The [while] loop that pops the headings of the same or a deeper
    level, on the stack read from its top. *)
Fixpoint popFrom (newLevel : Z) (fromTop : list HeadingEntry)
    : list HeadingEntry :=
  match fromTop with
  | [] => []
  | h :: below => if newLevel <=? level h then popFrom newLevel below else fromTop
  end.

(** The heading stack (an array, top last) after the pops and the push of
    a heading. *)
Definition pushHeading (h : HeadingEntry) (headingStack : list HeadingEntry)
    : list HeadingEntry :=
  rev (popFrom (level h) (rev headingStack)) ++ [h].

(** [/^(m{1,6})\s+(.+)$/] for the marker [m]: [#] in Markdown, [=] in
    AsciiDoc. *)
Definition headingPattern (marker : ascii) : Regex.Pattern :=
  {| Regex.anchor := Regex.StartOfInput;
     Regex.items :=
       [ {| Regex.class := Regex.only marker; Regex.atLeast := 1;
            Regex.atMost := Some 6%nat; Regex.greedy := true |};
         Regex.oneOrMore isWhiteSpace;
         Regex.oneOrMore Regex.dot ];
     Regex.ending := Regex.EndOfInput |}.

(** [line.match(...)]: the length of group 1 and the text of group 2. *)
Definition headingMatch (marker : ascii) (line : string)
    : option (Z * string) :=
  match Regex.matchStart (headingPattern marker) line with
  | Some [markers; spaces; title] =>
      Some (Z.of_nat markers, String.substring (markers + spaces) title line)
  | _ => None
  end.

(** [/^#{1,6}\s+.+$/gm] *)
Definition headingLines : Regex.Pattern :=
  {| Regex.anchor := Regex.StartOfLine;
     Regex.items :=
       [ {| Regex.class := Regex.only "#"%char; Regex.atLeast := 1;
            Regex.atMost := Some 6%nat; Regex.greedy := true |};
         Regex.oneOrMore isWhiteSpace;
         Regex.oneOrMore Regex.dot ];
     Regex.ending := Regex.EndOfLine |}.

(** [/```[\s\S]*?```/g] *)
Definition codeBlocks : Regex.Pattern :=
  {| Regex.anchor := Regex.Anywhere;
     Regex.items :=
       [ Regex.once (Regex.only "`"%char); Regex.once (Regex.only "`"%char);
         Regex.once (Regex.only "`"%char);
         {| Regex.class := Regex.anyChar; Regex.atLeast := 0;
            Regex.atMost := None; Regex.greedy := false |};
         Regex.once (Regex.only "`"%char); Regex.once (Regex.only "`"%char);
         Regex.once (Regex.only "`"%char) ];
     Regex.ending := Regex.Open |}.

(** [/`[^`]+`/g] *)
Definition inlineCode : Regex.Pattern :=
  {| Regex.anchor := Regex.Anywhere;
     Regex.items :=
       [ Regex.once (Regex.only "`"%char);
         Regex.oneOrMore (Regex.allBut "`"%char);
         Regex.once (Regex.only "`"%char) ];
     Regex.ending := Regex.Open |}.

(** [/^[-*+]\s+/gm] *)
Definition listMarkers : Regex.Pattern :=
  {| Regex.anchor := Regex.StartOfLine;
     Regex.items :=
       [ Regex.once (Regex.oneOf ["-"; "*"; "+"]%char);
         Regex.oneOrMore isWhiteSpace ];
     Regex.ending := Regex.Open |}.

(** [/^(.+?[.!?])\s/] *)
Definition firstSentencePattern : Regex.Pattern :=
  {| Regex.anchor := Regex.StartOfInput;
     Regex.items :=
       [ {| Regex.class := Regex.dot; Regex.atLeast := 1;
            Regex.atMost := None; Regex.greedy := false |};
         Regex.once (Regex.oneOf ["."; "!"; "?"]%char);
         Regex.once isWhiteSpace ];
     Regex.ending := Regex.Open |}.

Definition extractFirstSentence (content : string) : string :=
  let withoutHeadings := trim (Regex.removeAll headingLines content) in
  let withoutCode := Regex.removeAll codeBlocks withoutHeadings in
  let withoutInlineCode := Regex.removeAll inlineCode withoutCode in
  let withoutLists := Regex.removeAll listMarkers withoutInlineCode in
  match Regex.matchStart firstSentencePattern withoutLists with
  | Some [words; mark; _] => String.substring 0 (words + mark) withoutLists
  | _ =>
      let firstLine := trim (hd EmptyString (split LF withoutLists)) in
      sliceTo 100 firstLine
  end.

(** [/^#{1,6}\s+/] *)
Definition startsWithHeading : Regex.Pattern :=
  {| Regex.anchor := Regex.StartOfInput;
     Regex.items :=
       [ {| Regex.class := Regex.only "#"%char; Regex.atLeast := 1;
            Regex.atMost := Some 6%nat; Regex.greedy := true |};
         Regex.oneOrMore isWhiteSpace ];
     Regex.ending := Regex.Open |}.

Definition detectChunkType (content : string) : ChunkType :=
  if Regex.test startsWithHeading content then Heading
  else if Regex.test codeBlocks content then Code
  else if Regex.test listMarkers content then ListItem
  else Paragraph.

(** The underline characters of RST headings. *)
Definition RST_HEADING_CHARS : list ascii :=
  ["="; "-"; "`"; ":"; "."; "'"; ascii_of_nat 34; "~"; "^"; "_"; "*"; "+";
   "#"]%char.

Fixpoint allChar (c : ascii) (s : string) : bool :=
  match s with
  | EmptyString => true
  | String x s' => Ascii.eqb x c && allChar c s'
  end.

(** [new RegExp(`^\\${c}+$`).test(s)]: [s] is [c] once or more. *)
Definition isRunOf (c : ascii) (s : string) : bool := truthy s && allChar c s.

(** The test of the RST loop on a line and the line after it: the
    underline character when the two form a heading. *)
Definition underlineOf (line nextLine : string) : option ascii :=
  match nextLine with
  | EmptyString => None
  | String underlineChar _ =>
      if existsb (Ascii.eqb underlineChar) RST_HEADING_CHARS
         && (lengthZ (trim line) <=? lengthZ (trim nextLine))
      then
        let isValidUnderline := isRunOf underlineChar (trim nextLine) in
        if isValidUnderline && (0 <? lengthZ (trim line))
        then Some underlineChar else None
      else None
  end.

Definition hasOverline (prevLine : string) (underlineChar : ascii) : bool :=
  match prevLine with
  | EmptyString => false
  | String c _ =>
      Ascii.eqb c underlineChar && isRunOf underlineChar (trim prevLine)
  end.

(** The level of an underline character: the one recorded for it, or the
    number of characters recorded so far, which is then recorded. *)
Definition levelOf (underlineChar : ascii) (headingCharLevels : JMap.t ascii Z)
    : Z * JMap.t ascii Z :=
  match JMap.get Ascii.eqb underlineChar headingCharLevels with
  | Some l => (l, headingCharLevels)
  | None =>
      let l := Z.of_nat (List.length headingCharLevels) in
      (l, JMap.set Ascii.eqb underlineChar l headingCharLevels)
  end.

(** The state the parsing loops update. *)
Record ParseState := mkParseState {
  chunks : list ParsedChunk;
  headingStack : list HeadingEntry;
  headingCharLevels : JMap.t ascii Z;
  currentChunkStart : Z;
  currentChunkLines : list string
}.

Definition initialState : ParseState :=
  {| chunks := []; headingStack := []; headingCharLevels := [];
     currentChunkStart := 0; currentChunkLines := [] |}.

Definition nonEmpty {A : Type} (l : list A) : bool :=
  match l with
  | [] => false
  | _ :: _ => true
  end.

Definition createChunk (lines : list string) (startLine endLine : Z)
    (headingStack : list HeadingEntry) : option ParsedChunk :=
  let content := trim (join (String LF EmptyString) lines) in
  if truthy content then
    Some {| headings := map text headingStack;
            firstSentence := extractFirstSentence content;
            chunkType := detectChunkType content;
            content := content;
            startLine := startLine;
            endLine := endLine |}
  else None.

(** The chunks after the pending lines are saved as a chunk that ends at
    [endLine]. *)
Definition saveChunk (st : ParseState) (endLine : Z) : list ParsedChunk :=
  if nonEmpty (currentChunkLines st)
  then pushChunk (chunks st)
         (createChunk (currentChunkLines st) (currentChunkStart st) endLine
            (headingStack st))
  else chunks st.

(** *** parseRST *)

(** The heading branch of the loop at line [i]. *)
Definition openRSTHeading (i : Z) (prevLine line nextLine : string)
    (underlineChar : ascii) (st : ParseState) : ParseState :=
  let overline := hasOverline prevLine underlineChar in
  let '(l, levels) := levelOf underlineChar (headingCharLevels st) in
  {| chunks := saveChunk st (i - 1 - (if overline then 1 else 0));
     headingStack :=
       pushHeading {| level := l; text := trim line; line := i |}
         (headingStack st);
     headingCharLevels := levels;
     currentChunkStart := if overline then i - 1 else i;
     currentChunkLines :=
       if overline then [prevLine; line; nextLine] else [line; nextLine] |}.

Definition pushLine (line : string) (st : ParseState) : ParseState :=
  {| chunks := chunks st;
     headingStack := headingStack st;
     headingCharLevels := headingCharLevels st;
     currentChunkStart := currentChunkStart st;
     currentChunkLines := currentChunkLines st ++ [line] |}.

(** The [while] loop at index [i], over [lines[i..]], with
    [prevLine = lines[i - 1] ?? ''] : a heading consumes its underline. *)
Fixpoint parseRSTLoop (prevLine : string) (i : Z) (lines : list string)
    (st : ParseState) : ParseState :=
  match lines with
  | [] => st
  | line :: rest =>
      let nextLine := hd EmptyString rest in
      match underlineOf line nextLine with
      | Some underlineChar =>
          let st' := openRSTHeading i prevLine line nextLine underlineChar st in
          match rest with
          | [] => st'
          | _ :: rest' => parseRSTLoop nextLine (i + 2) rest' st'
          end
      | None => parseRSTLoop line (i + 1) rest (pushLine line st)
      end
  end.

Definition parseRST (content : string) (_filePath : string)
    : list ParsedChunk :=
  let lines := split LF content in
  saveChunk (parseRSTLoop EmptyString 0 lines initialState)
    (Z.of_nat (List.length lines) - 1).

(** *** parseMarkdown and parseAsciiDoc *)

(** One iteration of the [for] loop at line [i]. *)
Definition markerStep (marker : ascii) (acc : Z * ParseState) (line : string)
    : Z * ParseState :=
  let '(i, st) := acc in
  match headingMatch marker line with
  | Some (l, title) =>
      (i + 1,
       {| chunks := saveChunk st (i - 1);
          headingStack :=
            pushHeading {| level := l; text := trim title; line := i |}
              (headingStack st);
          headingCharLevels := headingCharLevels st;
          currentChunkStart := i;
          currentChunkLines := [line] |})
  | None => (i + 1, pushLine line st)
  end.

Definition parseWithMarker (marker : ascii) (content : string)
    : list ParsedChunk :=
  let lines := split LF content in
  saveChunk (snd (fold_left (markerStep marker) lines (0, initialState)))
    (Z.of_nat (List.length lines) - 1).

Definition parseMarkdown (content : string) (_filePath : string)
    : list ParsedChunk :=
  parseWithMarker "#"%char content.

Definition parseAsciiDoc (content : string) (_filePath : string)
    : list ParsedChunk :=
  parseWithMarker "="%char content.

(** *** parsePlainText *)

Definition plainStep (acc : list ParsedChunk * Z) (paragraph : string)
    : list ParsedChunk * Z :=
  let '(chunks, lineOffset) := acc in
  let trimmed := trim paragraph in
  if truthy trimmed then
    let lines := lineCount paragraph in
    (chunks ++ [ {| headings := [];
                    firstSentence := extractFirstSentence trimmed;
                    chunkType := Paragraph;
                    content := trimmed;
                    startLine := lineOffset;
                    endLine := lineOffset + lines - 1 |} ],
     lineOffset + lines + 1)
  else (chunks, lineOffset + lineCount paragraph).

Definition parsePlainText (content : string) (_filePath : string)
    : list ParsedChunk :=
  fst (fold_left plainStep (splitBlankLines content) ([], 0)).

(** [text.split(/\s+/).filter((word) => word.length > 0).length] *)
Definition countWords (text : string) : Z :=
  Z.of_nat (List.length (filter truthy (splitSpaces text))).

(** [Math.ceil(text.length / 4)] *)
Definition estimateTokenCount (text : string) : Z :=
  (lengthZ text + 3) / 4.

(** *** mergeSmallChunks *)

(** The accumulator after [chunk] is folded into it. *)
Definition fold_into (accumulator chunk : ParsedChunk) : ParsedChunk :=
  {| headings := headings accumulator;
     firstSentence :=
       if truthy (firstSentence accumulator)
       then firstSentence accumulator else firstSentence chunk;
     chunkType := chunkType accumulator;
     content := (content accumulator ++ LFLF ++ content chunk)%string;
     startLine := startLine accumulator;
     endLine := endLine chunk |}.

(** One iteration of the [for] loop over [merged] and [accumulator]. *)
Definition mergeStep (minTokens : Z)
    (st : list ParsedChunk * option ParsedChunk) (chunk : ParsedChunk)
    : list ParsedChunk * option ParsedChunk :=
  let '(merged, accumulator) := st in
  let tokenCount := estimateTokenCount (content chunk) in
  match accumulator with
  | None =>
      if tokenCount <? minTokens then (merged, Some chunk)
      else (merged ++ [chunk], None)
  | Some acc =>
      let combinedTokens := estimateTokenCount (content acc) + tokenCount in
      if combinedTokens <? minTokens then (merged, Some (fold_into acc chunk))
      else
        let merged' := merged ++ [acc] in
        if tokenCount <? minTokens then (merged', Some chunk)
        else (merged' ++ [chunk], None)
  end.

(** The final push of a pending accumulator. *)
Definition mergeFinish (st : list ParsedChunk * option ParsedChunk)
    : list ParsedChunk :=
  match snd st with
  | Some acc => fst st ++ [acc]
  | None => fst st
  end.

Definition mergeSmallChunks (chunks : list ParsedChunk) (minTokens : Z)
    : list ParsedChunk :=
  mergeFinish (fold_left (mergeStep minTokens) chunks ([], None)).

(** *** splitLargeChunks *)

(** [{ ...chunk, content, startLine, endLine }] for a piece of [chunk]. *)
Definition piece (chunk : ParsedChunk) (currentContent : string)
    (currentStartLine : Z) : ParsedChunk :=
  {| headings := headings chunk;
     firstSentence := firstSentence chunk;
     chunkType := chunkType chunk;
     content := currentContent;
     startLine := currentStartLine;
     endLine := currentStartLine + lineCount currentContent - 1 |}.

(** The state of the paragraph loop. *)
Record SplitState := mkSplitState {
  result : list ParsedChunk;
  currentContent : string;
  currentStartLine : Z;
  lineOffset : Z
}.

Definition testContentOf (currentContent paragraph : string) : string :=
  if truthy currentContent then (currentContent ++ LFLF ++ paragraph)%string
  else paragraph.

(** One iteration of the loop over the paragraphs of [chunk]. *)
Definition splitStep (maxTokens : Z) (chunk : ParsedChunk)
    (st : SplitState) (paragraph : string) : SplitState :=
  let testContent := testContentOf (currentContent st) paragraph in
  let testTokens := estimateTokenCount testContent in
  let lineOffset' := lineOffset st + lineCount paragraph + 1 in
  if (maxTokens <? testTokens) && truthy (currentContent st) then
    {| result :=
         result st ++ [piece chunk (currentContent st) (currentStartLine st)];
       currentContent := paragraph;
       currentStartLine := lineOffset st;
       lineOffset := lineOffset' |}
  else
    {| result := result st;
       currentContent := testContent;
       currentStartLine := currentStartLine st;
       lineOffset := lineOffset' |}.

(** The push of the final piece after the paragraph loop. *)
Definition splitFinish (chunk : ParsedChunk) (st : SplitState)
    : list ParsedChunk :=
  if truthy (currentContent st)
  then result st ++ [piece chunk (currentContent st) (currentStartLine st)]
  else result st.

(** One iteration of the outer loop over the chunks. *)
Definition splitChunk (maxTokens : Z) (result0 : list ParsedChunk)
    (chunk : ParsedChunk) : list ParsedChunk :=
  if estimateTokenCount (content chunk) <=? maxTokens then result0 ++ [chunk]
  else
    splitFinish chunk
      (fold_left (splitStep maxTokens chunk)
         (splitBlankLines (content chunk))
         {| result := result0;
            currentContent := EmptyString;
            currentStartLine := startLine chunk;
            lineOffset := startLine chunk |}).

Definition splitLargeChunks (chunks : list ParsedChunk) (maxTokens : Z)
    : list ParsedChunk :=
  fold_left (splitChunk maxTokens) chunks [].

End Parser.

(** ** The loops of the chunk assembler as recursions on the input

    The same loops, with the pushes onto the output array turned into
    conses; [ParserFacts] proves them equal to the folds above. *)

Module ParserRec.
Import JS Parser.

(** What the final push adds for a pending accumulator. *)
Definition flush (acc : option ParsedChunk) : list ParsedChunk :=
  match acc with
  | Some a => [a]
  | None => []
  end.

Fixpoint mergeFrom (minTokens : Z) (acc : option ParsedChunk)
    (chunks : list ParsedChunk) : list ParsedChunk :=
  match chunks with
  | [] => flush acc
  | chunk :: rest =>
      let tokenCount := estimateTokenCount (content chunk) in
      match acc with
      | None =>
          if tokenCount <? minTokens then mergeFrom minTokens (Some chunk) rest
          else chunk :: mergeFrom minTokens None rest
      | Some a =>
          if estimateTokenCount (content a) + tokenCount <? minTokens
          then mergeFrom minTokens (Some (fold_into a chunk)) rest
          else
            a :: (if tokenCount <? minTokens
                  then mergeFrom minTokens (Some chunk) rest
                  else chunk :: mergeFrom minTokens None rest)
      end
  end.

Fixpoint splitFrom (maxTokens : Z) (chunk : ParsedChunk)
    (cur : string) (start off : Z) (paragraphs : list string)
    : list ParsedChunk :=
  match paragraphs with
  | [] => if truthy cur then [piece chunk cur start] else []
  | paragraph :: rest =>
      let test := testContentOf cur paragraph in
      let off' := off + lineCount paragraph + 1 in
      if (maxTokens <? estimateTokenCount test) && truthy cur
      then piece chunk cur start :: splitFrom maxTokens chunk paragraph off off' rest
      else splitFrom maxTokens chunk test start off' rest
  end.

(** The pieces one chunk contributes to the output of the split pass. *)
Definition piecesOf (maxTokens : Z) (chunk : ParsedChunk) : list ParsedChunk :=
  if estimateTokenCount (content chunk) <=? maxTokens then [chunk]
  else splitFrom maxTokens chunk EmptyString (startLine chunk)
         (startLine chunk) (splitBlankLines (content chunk)).

End ParserRec.

(** ** types.ts *)

Module Types.

(** [DocChunk]; [metadata] is the optional pair of word and token count. *)
Record DocChunk := mkDocChunk {
  id : string;
  file : string;
  startLine : Z;
  endLine : Z;
  content : string;
  context : string;
  hierarchy : list string;
  chunkType : Parser.ChunkType;
  chunkMetadata : option (Z * Z)
}.

(** A [Float32Array]: the numbers it holds. *)
Definition Float32Array := list float.

Record IndexMetadata := mkIndexMetadata {
  version : string;
  indexedAt : Z;
  fileCount : Z;
  chunkCount : Z
}.

Record DocIndex := mkDocIndex {
  chunks : JMap.t string (list DocChunk);
  embeddings : JMap.t string Float32Array;
  metadata : IndexMetadata
}.

(** [WithScore<DocChunk>]: the chunk spread into the result, its score
    and the reason of the match. *)
Record SearchResult := mkSearchResult {
  chunk : DocChunk;
  score : float;
  match_reason : string
}.

Inductive SearchMode := Semantic | Exact | Fuzzy.

Record SearchFilters := mkSearchFilters {
  filePattern : option string;
  category : option (list string);
  minScore : option float
}.

Record ChunkingConfig := mkChunkingConfig {
  minTokens : Z;
  maxTokens : Z;
  splitAtHeadings : bool
}.

Definition DEFAULT_CHUNKING_CONFIG : ChunkingConfig :=
  {| minTokens := 200; maxTokens := 500; splitAtHeadings := true |}.

End Types.

(** ** services/context-generator.ts *)

Module ContextGenerator.
Import JS Types.

Definition docsDirNames : list string :=
  ["docs"; "documentation"; "doc"; "guides"; "wiki"].

(** The [for] loop of [extractCategory] from index [i] on, over
    [pathParts[i..]]: the segment after a documentation directory is
    returned when it is not empty and has no dot. *)
Fixpoint findCategory (pathParts : list string) : option string :=
  match pathParts with
  | [] => None
  | p :: rest =>
      let part := toLowerCase p in
      if truthy part && arrayIncludes docsDirNames part then
        match rest with
        | nextPart :: _ =>
            if truthy nextPart && negb (includes nextPart ".")
            then Some nextPart else findCategory rest
        | [] => findCategory rest
        end
      else findCategory rest
  end.

Definition extractCategory (filePath : string) : string :=
  let pathParts := split "/" filePath in
  match findCategory pathParts with
  | Some category => category
  | None =>
      if (2 <=? List.length pathParts)%nat then
        let secondToLast :=
          nth (List.length pathParts - 2) pathParts EmptyString in
        if truthy secondToLast && negb (includes secondToLast ".")
        then secondToLast else "general"
      else "general"
  end.

Definition generateContext (chunk : DocChunk) : string :=
  let category := extractCategory (file chunk) in
  let hierarchy := join " > " (hierarchy chunk) in
  let firstSentence := Parser.extractFirstSentence (content chunk) in
  if truthy hierarchy && truthy firstSentence then
    (category ++ " > " ++ hierarchy ++ ": " ++ sliceTo 80 firstSentence)%string
  else if truthy hierarchy then (category ++ " > " ++ hierarchy)%string
  else if truthy firstSentence then
    (category ++ ": " ++ sliceTo 80 firstSentence)%string
  else category.

(** [[chunk.context, ...chunk.hierarchy, chunk.content].join(' ').toLowerCase()] *)
Definition generateSearchableText (chunk : DocChunk) : string :=
  let parts := [context chunk] ++ hierarchy chunk ++ [content chunk] in
  toLowerCase (join " " parts).

End ContextGenerator.

(** ** services/search.ts *)

Module Search.
Import JS Types.

Definition DEFAULT_LIMIT : Z := 10.

(** The chunks of the index in the order of the two nested loops over
    [index.chunks.values()]. *)
Definition allChunks (index : DocIndex) : list DocChunk :=
  List.concat (JMap.values (chunks index)).

(** [result.id] *)
Definition resultId (r : SearchResult) : string := id (chunk r).

(** [results.slice(0, limit)] *)
Definition slice0 {A : Type} (limit : Z) (results : list A) : list A :=
  let len := Z.of_nat (List.length results) in
  let final := if limit <? 0 then Z.max (len + limit) 0 else Z.min limit len in
  firstn (Z.to_nat final) results.

(** The comparator [(a, b) => b.score - a.score] puts [a] before [b] when
    it is negative. *)
Definition before (a b : SearchResult) : bool :=
  (score b - score a <? 0)%float.

(** [results.sort(...)]: the sort of the runtime is stable, here the
    insertion of each element in front of the first one it does not
    follow. *)
Fixpoint insertResult (x : SearchResult) (sorted : list SearchResult)
    : list SearchResult :=
  match sorted with
  | [] => [x]
  | y :: rest => if before y x then y :: insertResult x rest else x :: sorted
  end.

Definition sortResults (results : list SearchResult) : list SearchResult :=
  fold_right insertResult [] results.

(** A row of the matrix of [levenshteinDistance] after its first cell:
    [diagonal] and [above] run over the row before, [left] is the cell
    just computed. *)
Fixpoint levenshteinRow (bChar : ascii) (a : string) (rowAbove : list Z)
    (left : Z) : list Z :=
  match a, rowAbove with
  | String aChar a', diagonal :: ((above :: _) as rowAbove') =>
      let cell :=
        if Ascii.eqb bChar aChar then diagonal
        else Z.min (Z.min (diagonal + 1) (left + 1)) (above + 1) in
      cell :: levenshteinRow bChar a' rowAbove' cell
  | _, _ => []
  end.

Fixpoint levenshteinRows (a b : string) (i : Z) (rowAbove : list Z) : list Z :=
  match b with
  | EmptyString => rowAbove
  | String bChar b' =>
      levenshteinRows a b' (i + 1) (i :: levenshteinRow bChar a rowAbove i)
  end.

Definition levenshteinDistance (a b : string) : Z :=
  let firstRow := map Z.of_nat (seq 0 (S (String.length a))) in
  last (levenshteinRows a b 1 firstRow) 0.

(** A size or a distance as a number of the runtime. *)
Definition toNumber (n : Z) : float := of_uint63 (Uint63.of_Z n).

Section Strategies.

(** The collaborators of the search: the glob matcher of [minimatch], and
    [generateEmbedding] and [cosineSimilarity] of shared/embeddings.
    [generateEmbedding] gives [None] when no embedding can be produced. *)
Variable minimatch : string -> string -> bool.
Variable generateEmbedding : string -> option (list float).
Variable cosineSimilarity : list float -> list float -> float.

Definition matchesFilters (chunk : DocChunk) (filters : option SearchFilters)
    : bool :=
  match filters with
  | None => true
  | Some f =>
      let patternFails :=
        match filePattern f with
        | Some pattern => truthy pattern && negb (minimatch (file chunk) pattern)
        | None => false
        end in
      let categoryFails :=
        match category f with
        | Some categories =>
            let contextLower := toLowerCase (context chunk) in
            (0 <? Z.of_nat (List.length categories))
            && negb (existsb (fun cat => includes contextLower (toLowerCase cat))
                       categories)
        | None => false
        end in
      if patternFails then false
      else if categoryFails then false
      else true
  end.

(** The score and the reason the tiers give a chunk; [0] when no tier
    matches. *)
Definition keywordScore (chunk : DocChunk) (queryLower : string)
    : float * string :=
  let searchableText := ContextGenerator.generateSearchableText chunk in
  if includes (toLowerCase (context chunk)) queryLower
  then (0.9%float, "context match")
  else if existsb (fun h => includes (toLowerCase h) queryLower)
            (hierarchy chunk)
  then (0.8%float, "heading match")
  else if includes searchableText queryLower
  then (0.6%float, "content match")
  else (0%float, EmptyString).

(** What one chunk adds to the results of the keyword search. *)
Definition keywordResult (queryLower : string)
    (filters : option SearchFilters) (chunk : DocChunk) : list SearchResult :=
  if matchesFilters chunk filters then
    let '(score, matchReason) := keywordScore chunk queryLower in
    if (0 <? score)%float
    then [ {| chunk := chunk; score := score; match_reason := matchReason |} ]
    else []
  else [].

Definition keywordSearch (index : DocIndex) (query : string)
    (filters : option SearchFilters) : list SearchResult :=
  let queryLower := toLowerCase query in
  flat_map (keywordResult queryLower filters) (allChunks index).

(** The chunk an embedding belongs to: the first chunk of the index with
    that identifier. *)
Definition findChunk (index : DocIndex) (chunkId : string) : option DocChunk :=
  find (fun c => String.eqb (id c) chunkId) (allChunks index).

(** What one embedding adds to the results of the semantic search. *)
Definition semanticResult (index : DocIndex) (filters : option SearchFilters)
    (queryEmbedding : list float) (entry : string * Float32Array)
    : list SearchResult :=
  let '(chunkId, chunkEmbedding) := entry in
  match findChunk index chunkId with
  | None => []
  | Some chunk =>
      if matchesFilters chunk filters then
        let similarity := cosineSimilarity queryEmbedding chunkEmbedding in
        if (0.3 <? similarity)%float
        then [ {| chunk := chunk; score := similarity;
                  match_reason := "semantic similarity" |} ]
        else []
      else []
  end.

Definition semanticSearch (index : DocIndex) (query : string)
    (filters : option SearchFilters) : list SearchResult :=
  match generateEmbedding query with
  | None => []
  | Some queryEmbedding =>
      flat_map (semanticResult index filters queryEmbedding) (embeddings index)
  end.

(** [existing.score += result.score] and the reasons joined. *)
Definition boosted (existing result : SearchResult) : SearchResult :=
  {| chunk := chunk existing;
     score := (score existing + score result)%float;
     match_reason :=
       (match_reason existing ++ " + " ++ match_reason result)%string |}.

(** One iteration of the loop over the semantic results. *)
Definition mergeSemantic (mergedMap : JMap.t string SearchResult)
    (result : SearchResult) : JMap.t string SearchResult :=
  match JMap.get String.eqb (resultId result) mergedMap with
  | Some existing =>
      JMap.set String.eqb (resultId result) (boosted existing result) mergedMap
  | None => JMap.set String.eqb (resultId result) result mergedMap
  end.

(** The two loops over [mergedMap] and the array of its values. *)
Definition mergeResults (keywordResults semanticResults : list SearchResult)
    : list SearchResult :=
  let mergedMap :=
    fold_left (fun m r => JMap.set String.eqb (resultId r) r m)
      keywordResults [] in
  JMap.values (fold_left mergeSemantic semanticResults mergedMap).

Definition semanticSearchWithKeyword (index : DocIndex) (query : string)
    (filters : option SearchFilters) : list SearchResult :=
  let keywordResults := keywordSearch index query filters in
  let semanticResults := semanticSearch index query filters in
  mergeResults keywordResults semanticResults.

(** [1 - distance / maxLen] *)
Definition fuzzyScore (queryLower candidateLower : string) (maxLen : Z)
    : float :=
  (1 - toNumber (levenshteinDistance queryLower candidateLower)
       / toNumber maxLen)%float.

Definition better (bestScore score : float) : float :=
  if (bestScore <? score)%float then score else bestScore.

Definition fuzzyBest (chunk : DocChunk) (queryLower : string) : float :=
  let afterHeadings :=
    fold_left
      (fun bestScore heading =>
         better bestScore
           (fuzzyScore queryLower (toLowerCase heading)
              (Z.max (lengthZ queryLower) (lengthZ heading))))
      (hierarchy chunk) 0%float in
  fold_left
    (fun bestScore word =>
       better bestScore
         (fuzzyScore queryLower word
            (Z.max (lengthZ queryLower) (lengthZ word))))
    (splitSpaces (toLowerCase (context chunk))) afterHeadings.

Definition fuzzySearch (index : DocIndex) (query : string)
    (filters : option SearchFilters) : list SearchResult :=
  let queryLower := toLowerCase query in
  flat_map
    (fun chunk =>
       if matchesFilters chunk filters then
         let bestScore := fuzzyBest chunk queryLower in
         if (0.6 <? bestScore)%float
         then [ {| chunk := chunk; score := bestScore;
                   match_reason := "fuzzy match" |} ]
         else []
       else [])
    (allChunks index).

Definition searchDocumentation (index : DocIndex) (query : string)
    (mode : SearchMode) (filters : option SearchFilters) (limit : Z)
    : list SearchResult :=
  let results :=
    match mode with
    | Exact => keywordSearch index query filters
    | Fuzzy => fuzzySearch index query filters
    | Semantic => semanticSearchWithKeyword index query filters
    end in
  slice0 limit (sortResults results).

End Strategies.

End Search.

(** ** Numbers of the runtime: conversion and rounding *)

Module JSMath.

(** The number of the runtime an integer denotes: the nearest binary64
    number, a tie going to the even one, an infinity beyond the range. *)
Definition ofInteger (n : Z) : float :=
  SF2Prim (binary_normalize prec emax n 0 false).

(** The integer [Math.round] gives for the number [n * 2 ^ e]: the
    nearest one, a tie going up. *)
Definition roundHalfUp (n e : Z) : Z :=
  if 0 <=? e then n * 2 ^ e else (2 * n + 2 ^ (- e)) / 2 ^ (1 - e).

(** The integer [Math.ceil] gives for the number [n * 2 ^ e]. *)
Definition ceiling (n e : Z) : Z :=
  if 0 <=? e then n * 2 ^ e else - ((- n) / 2 ^ (- e)).

(** A rounding to an integer as a function of numbers: a zero, an
    infinity and NaN are returned as they are, and a negative number
    that rounds to zero gives the negative zero. *)
Definition rounded (rounding : Z -> Z -> Z) (x : float) : float :=
  match Prim2SF x with
  | S754_finite s m e =>
      let n := rounding (if s then Z.neg m else Z.pos m) e in
      if n =? 0 then (if s then (- 0)%float else 0%float) else ofInteger n
  | _ => x
  end.

(** [Math.round] *)
Definition round : float -> float := rounded roundHalfUp.

(** [Math.ceil] *)
Definition ceil : float -> float := rounded ceiling.

End JSMath.

(** ** core/storage.ts *)

Module Storage.
Import JS.

Definition INDEX_VERSION : string := "1.0.0".

(** [Math.fround]: the binary32 number nearest to a number, the rounding
    a [Float32Array] applies to what is stored in it. *)
Definition fround (x : float) : float :=
  match Prim2SF x with
  | S754_finite s m e => SF2Prim (binary_round 24 128 s m e)
  | _ => x
  end.

(** [new Float32Array(numbers)] *)
Definition toFloat32Array (numbers : list float) : Types.Float32Array :=
  map fround numbers.

(** [Array.from(embedding)] *)
Definition arrayFrom (embedding : Types.Float32Array) : list float := embedding.

(** The outcome of a block that may throw. *)
Inductive Outcome (A : Type) :=
| Returned (a : A)
| Thrown.
Arguments Returned {A} a.
Arguments Thrown {A}.

(** One statement after another: what follows a statement that throws is
    not run. *)
Definition andThen {A B : Type} (o : Outcome A) (f : A -> Outcome B)
    : Outcome B :=
  match o with
  | Returned a => f a
  | Thrown => Thrown
  end.

Local Notation "x <- o ;; k" := (andThen o (fun x => k))
  (at level 61, o at next level, right associativity).

(** A callback applied to the items of an array, in order. *)
Fixpoint forEach {A B : Type} (f : A -> Outcome B) (l : list A)
    : Outcome (list B) :=
  match l with
  | [] => Returned []
  | a :: l' => b <- f a ;; bs <- forEach f l' ;; Returned (b :: bs)
  end.

Section Store.

(** What [unpack] returns is data of any shape: the source casts it to
    [SerializedIndex] without a check. [Extension] holds the values
    msgpackr decodes besides the ones listed: big integers, dates, sets,
    buffers and typed arrays, regular expressions and errors. The fields
    of an object are its own properties, in the order of enumeration. *)
Variable Extension : Type.

Inductive Value :=
| Undefined
| Null
| Boolean (b : bool)
| Number (x : float)
| Text (s : string)
| Array (items : list Value)
| Object (fields : list (string * Value))
| Other (e : Extension).

(** What the runtime does with a value of [Extension]: the property of a
    name, the items an iteration gives ([Thrown] when there is no
    iterator), whether it is an object (a big integer is not), whether
    two of them are the same key of a [Map], and whether it is a typed
    array or a buffer without elements. *)
Variable extensionGet : Extension -> string -> Value.
Variable extensionItems : Extension -> Outcome (list Value).
Variable extensionIsObject : Extension -> bool.
Variable extensionSame : Extension -> Extension -> bool.
Variable extensionEmptyTypedArray : Extension -> bool.

(** [new Float32Array(v)] for an argument other than an array of
    numbers. *)
Variable constructFloat32Array : Value -> Outcome Types.Float32Array.

(** The bytes of a file, [pack] and [unpack] of msgpackr ([unpack] gives
    [None] when it throws), and whether [withLock] acquires the lock of a
    path. *)
Variable Bytes : Type.
Variable pack : Value -> Bytes.
Variable unpack : Bytes -> option Value.
Variable lockAvailable : string -> bool.

(** A file that exists can be read or not. *)
Inductive FileState :=
| Readable (buffer : Bytes)
| Unreadable.

(** The files by path; [None] for a path that does not exist. *)
Definition FileSystem := string -> option FileState.

Definition writeFileSync (path : string) (data : Bytes) (fs : FileSystem)
    : FileSystem :=
  fun p => if String.eqb p path then Some (Readable data) else fs p.

Definition withLock {A : Type} (path : string) (fn : unit -> Outcome A)
    : Outcome A :=
  if lockAvailable path then fn tt else Thrown.

(** *** The data behind the typed records *)

(** A line number or a count as a number of the runtime. *)
Definition integer (n : Z) : Value := Number (JSMath.ofInteger n).

(** [ChunkType] *)
Definition chunkTypeName (t : Parser.ChunkType) : string :=
  match t with
  | Parser.Heading => "heading"
  | Parser.Paragraph => "paragraph"
  | Parser.Code => "code"
  | Parser.ListItem => "list"
  end.

(** A [DocChunk], with its properties in the order of the interface (and
    of the object literal of [processFile]). *)
Definition chunkValue (c : Types.DocChunk) : Value :=
  Object
    ([("id", Text (Types.id c));
      ("file", Text (Types.file c));
      ("startLine", integer (Types.startLine c));
      ("endLine", integer (Types.endLine c));
      ("content", Text (Types.content c));
      ("context", Text (Types.context c));
      ("hierarchy", Array (map Text (Types.hierarchy c)));
      ("chunkType", Text (chunkTypeName (Types.chunkType c)))]
     ++ match Types.chunkMetadata c with
        | Some (wordCount, tokenCount) =>
            [("metadata",
              Object [("wordCount", integer wordCount);
                      ("tokenCount", integer tokenCount)])]
        | None => []
        end).

(** *** saveIndex *)

(** The object [serialized] of [saveIndex]. *)
Definition serialize (index : Types.DocIndex) : Value :=
  Object
    [("version", Text INDEX_VERSION);
     ("indexedAt", integer (Types.indexedAt (Types.metadata index)));
     ("fileCount", integer (Types.fileCount (Types.metadata index)));
     ("chunkCount", integer (Types.chunkCount (Types.metadata index)));
     ("chunks",
      Array
        (map (fun entry =>
                Array [Text (fst entry); Array (map chunkValue (snd entry))])
           (Types.chunks index)));
     ("embeddings",
      Array
        (map (fun entry =>
                Array [Text (fst entry);
                       Array (map Number (arrayFrom (snd entry)))])
           (Types.embeddings index)))].

(** The file system after [saveIndex], or [Thrown]. *)
Definition saveIndex (index : Types.DocIndex) (indexPath : string)
    (fs : FileSystem) : Outcome FileSystem :=
  withLock indexPath
    (fun _ => Returned (writeFileSync indexPath (pack (serialize index)) fs)).

(** *** loadIndex *)

(** The index [loadIndex] builds. The source declares it a [DocIndex];
    what its maps and its metadata hold is whatever the file held. *)
Record LoadedMetadata := mkLoadedMetadata {
  version : Value;
  indexedAt : Value;
  fileCount : Value;
  chunkCount : Value
}.

Record LoadedIndex := mkLoadedIndex {
  chunks : JMap.t Value Value;
  embeddings : JMap.t Value Types.Float32Array;
  metadata : LoadedMetadata
}.

(** The own property [name] of an object, [undefined] when it has
    none. *)
Definition field (fields : list (string * Value)) (name : string) : Value :=
  match find (fun f => String.eqb (fst f) name) fields with
  | Some f => snd f
  | None => Undefined
  end.

(** [v.name] for the names [loadIndex] reads ([version], [indexedAt],
    [fileCount], [chunkCount], [chunks], [embeddings]): reading a
    property of [undefined] or [null] throws; booleans, numbers, strings
    and arrays have no property of these names. *)
Definition property (v : Value) (name : string) : Outcome Value :=
  match v with
  | Undefined | Null => Thrown
  | Object fields => Returned (field fields name)
  | Other e => Returned (extensionGet e name)
  | Boolean _ | Number _ | Text _ | Array _ => Returned Undefined
  end.

(** [v === INDEX_VERSION]: only the string itself is strictly equal to
    it. *)
Definition isIndexVersion (v : Value) : bool :=
  match v with
  | Text s => String.eqb s INDEX_VERSION
  | _ => false
  end.

(** The items an iteration over a value gives: the items of an array,
    the characters of a string; [undefined], [null], booleans, numbers
    and plain objects are not iterable. *)
Definition iterate (v : Value) : Outcome (list Value) :=
  match v with
  | Array items => Returned items
  | Text s =>
      Returned (map (fun c => Text (String c EmptyString)) (list_ascii_of_string s))
  | Other e => extensionItems e
  | Undefined | Null | Boolean _ | Number _ | Object _ => Thrown
  end.

(** The key and the value [new Map] takes from an item: its properties
    [0] and [1]; an item that is not an object throws. *)
Definition entryOf (item : Value) : Outcome (Value * Value) :=
  match item with
  | Array items => Returned (nth 0 items Undefined, nth 1 items Undefined)
  | Object fields => Returned (field fields "0", field fields "1")
  | Other e =>
      if extensionIsObject e
      then Returned (extensionGet e "0", extensionGet e "1")
      else Thrown
  | Undefined | Null | Boolean _ | Number _ | Text _ => Thrown
  end.

Definition isNaN (x : float) : bool := negb (x =? x)%float.

(** The equality of the keys of a [Map] (SameValueZero): numbers by
    value, NaN equal to itself; every array and every object that was
    decoded is an object of its own. *)
Definition sameValueZero (a b : Value) : bool :=
  match a, b with
  | Undefined, Undefined => true
  | Null, Null => true
  | Boolean x, Boolean y => Bool.eqb x y
  | Number x, Number y => (x =? y)%float || (isNaN x && isNaN y)
  | Text s, Text t => String.eqb s t
  | Other e, Other f => extensionSame e f
  | _, _ => false
  end.

(** The key a [Map] stores: the negative zero is stored as zero. *)
Definition keyOf (k : Value) : Value :=
  match k with
  | Number x => if (x =? 0)%float then Number 0 else k
  | _ => k
  end.

(** [new Map(entries)] for entries that were read. *)
Definition mapOf {V : Type} (entries : list (Value * V)) : JMap.t Value V :=
  JMap.ofEntries sameValueZero
    (map (fun entry => (keyOf (fst entry), snd entry)) entries).

(** [new Map(v)]: empty for [undefined] and [null]. *)
Definition newMap (v : Value) : Outcome (JMap.t Value Value) :=
  match v with
  | Undefined | Null => Returned []
  | _ =>
      items <- iterate v ;;
      entries <- forEach entryOf items ;;
      Returned (mapOf entries)
  end.

(** The numbers of an array that holds numbers only. *)
Fixpoint numbersOf (items : list Value) : option (list float) :=
  match items with
  | [] => Some []
  | Number x :: items' =>
      match numbersOf items' with
      | Some xs => Some (x :: xs)
      | None => None
      end
  | _ :: _ => None
  end.

(** [new Float32Array(v)] *)
Definition newFloat32Array (v : Value) : Outcome Types.Float32Array :=
  match v with
  | Array items =>
      match numbersOf items with
      | Some numbers => Returned (toFloat32Array numbers)
      | None => constructFloat32Array v
      end
  | _ => constructFloat32Array v
  end.

(** The callback [([key, embedding]) => [key, new Float32Array(embedding)]]:
    the parameter is destructured by iteration, a missing item being
    [undefined]. *)
Definition embeddingEntry (item : Value)
    : Outcome (Value * Types.Float32Array) :=
  items <- iterate item ;;
  let key := nth 0 items Undefined in
  let embedding := nth 1 items Undefined in
  vector <- newFloat32Array embedding ;;
  Returned (key, vector).

(** [new Map(v.map(callback))]: only an array has a [map] that the
    callback survives. The elements of a typed array are numbers, which
    the callback cannot destructure, so a typed array passes only
    without elements, and gives no entry; a call of [map] on any other
    value throws. *)
Definition embeddingsOf (v : Value)
    : Outcome (JMap.t Value Types.Float32Array) :=
  match v with
  | Array items =>
      entries <- forEach embeddingEntry items ;;
      Returned (mapOf entries)
  | Other e => if extensionEmptyTypedArray e then Returned [] else Thrown
  | Undefined | Null | Boolean _ | Number _ | Text _ | Object _ => Thrown
  end.

(** The body of the callback of [withLock] in [loadIndex], on what
    [unpack] returned. *)
Definition deserialize (serialized : Value) : Outcome (option LoadedIndex) :=
  storedVersion <- property serialized "version" ;;
  if negb (isIndexVersion storedVersion) then Returned None
  else
    storedChunks <- property serialized "chunks" ;;
    chunks <- newMap storedChunks ;;
    storedEmbeddings <- property serialized "embeddings" ;;
    embeddings <- embeddingsOf storedEmbeddings ;;
    version <- property serialized "version" ;;
    indexedAt <- property serialized "indexedAt" ;;
    fileCount <- property serialized "fileCount" ;;
    chunkCount <- property serialized "chunkCount" ;;
    Returned
      (Some {| chunks := chunks;
               embeddings := embeddings;
               metadata :=
                 {| version := version; indexedAt := indexedAt;
                    fileCount := fileCount; chunkCount := chunkCount |} |}).

(** [loadIndex]: [None] is the [null] of the source. *)
Definition loadIndex (indexPath : string) (fs : FileSystem)
    : option LoadedIndex :=
  match fs indexPath with
  | None => None
  | Some f =>
      let attempt :=
        withLock indexPath
          (fun _ =>
             match f with
             | Unreadable => Thrown
             | Readable buffer =>
                 match unpack buffer with
                 | None => Thrown
                 | Some serialized => deserialize serialized
                 end
             end) in
      match attempt with
      | Returned r => r
      | Thrown => None
      end
  end.

End Store.

Arguments Undefined {Extension}.
Arguments Null {Extension}.
Arguments Boolean {Extension} b.
Arguments Number {Extension} x.
Arguments Text {Extension} s.
Arguments Array {Extension} items.
Arguments Object {Extension} fields.
Arguments Other {Extension} e.
Arguments integer {Extension} n.
Arguments chunkValue {Extension} c.
Arguments serialize {Extension} index.

(** [createEmptyIndex] at the time [now]. *)
Definition createEmptyIndex (now : Z) : Types.DocIndex :=
  {| Types.chunks := [];
     Types.embeddings := [];
     Types.metadata :=
       {| Types.version := INDEX_VERSION; Types.indexedAt := now;
          Types.fileCount := 0; Types.chunkCount := 0 |} |}.

End Storage.

(** ** services/scanner.ts *)

Module Scanner.
Import JS Types.

Section Pipeline.

(** The collaborators of the scanner: the content of the files ([None]
    for a file that does not exist) and [generateEmbedding]. *)
Variable readFile : string -> option string.
Variable generateEmbedding : string -> option (list float).

Definition parseFile (ext content file : string) : list Parser.ParsedChunk :=
  if arrayIncludes [".md"; ".markdown"] ext
  then Parser.parseMarkdown content file
  else if String.eqb ext ".rst"
  then Parser.parseRST content file
  else if arrayIncludes [".adoc"; ".asciidoc"] ext
  then Parser.parseAsciiDoc content file
  else Parser.parsePlainText content file.

Definition toDocChunk (file : string) (parsed : Parser.ParsedChunk)
    : DocChunk :=
  let chunk :=
    {| id := (file ++ ":" ++ numberToString (Parser.startLine parsed))%string;
       file := file;
       startLine := Parser.startLine parsed;
       endLine := Parser.endLine parsed;
       content := Parser.content parsed;
       context := EmptyString;
       hierarchy := Parser.headings parsed;
       chunkType := Parser.chunkType parsed;
       chunkMetadata :=
         Some (Parser.countWords (Parser.content parsed),
               Parser.estimateTokenCount (Parser.content parsed)) |} in
  {| id := id chunk; file := Types.file chunk; startLine := startLine chunk;
     endLine := endLine chunk; content := content chunk;
     context := ContextGenerator.generateContext chunk;
     hierarchy := hierarchy chunk; chunkType := chunkType chunk;
     chunkMetadata := chunkMetadata chunk |}.

(** [processFile] on the content of the file. *)
Definition processContent (file content : string) (config : ChunkingConfig)
    : list DocChunk :=
  let ext := toLowerCase (extname file) in
  let parsedChunks := parseFile ext content file in
  let parsedChunks :=
    if splitAtHeadings config
    then Parser.splitLargeChunks
           (Parser.mergeSmallChunks parsedChunks (minTokens config))
           (maxTokens config)
    else parsedChunks in
  map (toDocChunk file) parsedChunks.

(** [processFile]; [None] when reading the file throws. *)
Definition processFile (file : string) (config : ChunkingConfig)
    : option (list DocChunk) :=
  match readFile file with
  | Some content => Some (processContent file content config)
  | None => None
  end.

(** The loop that stores the embeddings of the chunks of a file. *)
Definition embedChunks (chunks : list DocChunk)
    (embeddings : JMap.t string Float32Array) : JMap.t string Float32Array :=
  fold_left
    (fun m chunk =>
       match generateEmbedding (context chunk) with
       | Some embedding =>
           JMap.set String.eqb (id chunk) (Storage.toFloat32Array embedding) m
       | None => m
       end)
    chunks embeddings.

(** The chunks and the embeddings after the chunks of [file] are set. *)
Definition storeFile (file : string) (chunks : list DocChunk)
    (index : DocIndex) : DocIndex :=
  if (0 <? Z.of_nat (List.length chunks)) then
    {| Types.chunks := JMap.set String.eqb file chunks (Types.chunks index);
       embeddings := embedChunks chunks (embeddings index);
       metadata := metadata index |}
  else index.

Definition totalChunks (index : DocIndex) : Z :=
  fold_left (fun total chunks => total + Z.of_nat (List.length chunks))
    (JMap.values (Types.chunks index)) 0.

(** The update of the metadata that ends a scan or an update. *)
Definition withCounts (indexedAt : Z) (index : DocIndex) : DocIndex :=
  {| Types.chunks := Types.chunks index;
     embeddings := embeddings index;
     metadata :=
       {| version := version (metadata index);
          indexedAt := indexedAt;
          fileCount := Z.of_nat (List.length (Types.chunks index));
          chunkCount := totalChunks index |} |}.

(** [scanAndIndexDocumentation] at the time [now], on the files the walk
    of the directory finds. *)
Definition scanAndIndexDocumentation (files : list string) (now : Z)
    (config : ChunkingConfig) : DocIndex :=
  let index :=
    fold_left
      (fun index file =>
         match processFile file config with
         | Some chunks => storeFile file chunks index
         | None => index
         end)
      files (Storage.createEmptyIndex now) in
  withCounts now index.

(** One iteration of the loop of [updateIndexForFiles]. *)
Definition updateFile (config : ChunkingConfig) (index : DocIndex)
    (file : string) : DocIndex :=
  let cleared :=
    {| Types.chunks := JMap.delete String.eqb file (Types.chunks index);
       embeddings :=
         filter (fun entry => negb (startsWith (fst entry) (file ++ ":")))
           (embeddings index);
       metadata := metadata index |} in
  match processFile file config with
  | Some chunks => storeFile file chunks cleared
  | None => cleared
  end.

(** [updateIndexForFiles], which ends at the time [now]. *)
Definition updateIndexForFiles (index : DocIndex) (files : list string)
    (config : ChunkingConfig) (now : Z) : DocIndex :=
  withCounts now (fold_left (updateFile config) files index).

End Pipeline.

End Scanner.

(** ** services/scanner.ts: the reconciliation with the disk *)

Module Sync.
Import JS Types JSMath.

Section Reconcile.

(** The collaborators of the reconciliation: those of the scanner,
    [existsSync], and the modification time [stat] gives for a file
    ([None] when it throws). *)
Variable readFile : string -> option string.
Variable generateEmbedding : string -> option (list float).
Variable existsSync : string -> bool.
Variable mtimeMs : string -> option float.

(** The files the three steps queue: the indexed files that are gone,
    then, of the files found on disk, those that are not indexed and
    those modified after the index was built. *)
Definition filesToUpdate (index : DocIndex) (currentFiles : list string)
    : list string :=
  let indexedAt := indexedAt (metadata index) in
  let deleted :=
    filter (fun file => negb (existsSync file)) (JMap.keys (chunks index)) in
  let indexedFiles := JMap.keys (chunks index) in
  let changed :=
    filter
      (fun file =>
         if negb (arrayIncludes indexedFiles file) then true
         else match mtimeMs file with
              | Some modified => (ofInteger indexedAt <? modified)%float
              | None => false
              end)
      currentFiles in
  deleted ++ changed.

(** [validateAndSyncIndex] on the files the walk of the project finds,
    with an update that ends at the time [now]. *)
Definition validateAndSyncIndex (index : DocIndex) (currentFiles : list string)
    (now : Z) : DocIndex :=
  let files := filesToUpdate index currentFiles in
  if (0 <? Z.of_nat (List.length files))
  then Scanner.updateIndexForFiles readFile generateEmbedding index files
         DEFAULT_CHUNKING_CONFIG now
  else index.

End Reconcile.
End Sync.

(** ** tools/search-docs.ts *)

Module Tools.
Import JS Types JSMath.

(** The counters and the times are numbers of the runtime. *)
Record IndexingProgress := mkIndexingProgress {
  isIndexing : bool;
  filesProcessed : float;
  totalFiles : float
}.

Record EmbeddingsState := mkEmbeddingsState {
  available : bool;
  lastAttempt : float;
  retryIntervalMs : float
}.

(** [SearchDocsParams]; an absent field is [None]. *)
Record SearchDocsParams := mkSearchDocsParams {
  query : string;
  mode : option SearchMode;
  filters : option SearchFilters;
  limit : option Z
}.

(** A result as the tool returns it. *)
Record FormattedResult := mkFormattedResult {
  file : string;
  line : Z;
  score : float;
  context : string;
  hierarchy : list string;
  chunkType : Parser.ChunkType;
  matchReason : string
}.

(** What the tool returns: [{ success: false, error }] or
    [{ success: true, data: { results, query, mode, totalResults } }]. *)
Inductive Response :=
| Failure (error : string)
| Success (results : list FormattedResult) (query : string)
    (mode : SearchMode) (totalResults : Z).

(** The percentage of the files processed. *)
Definition percent (progress : IndexingProgress) : float :=
  if (0 <? totalFiles progress)%float
  then round (filesProcessed progress / totalFiles progress * 100)%float
  else 0%float.

(** The minutes until the embeddings are tried again, at the time
    [now]. *)
Definition nextRetryMinutes (state : EmbeddingsState) (now : float) : float :=
  ceil ((retryIntervalMs state - (now - lastAttempt state)) / 60000)%float.

Definition format (result : SearchResult) : FormattedResult :=
  {| file := Types.file (chunk result);
     line := startLine (chunk result);
     score := Types.score result;
     context := Types.context (chunk result);
     hierarchy := Types.hierarchy (chunk result);
     chunkType := Types.chunkType (chunk result);
     matchReason := match_reason result |}.

Definition isSemantic (mode : SearchMode) : bool :=
  match mode with
  | Semantic => true
  | _ => false
  end.

Section Handler.
Variable minimatch : string -> string -> bool.
Variable generateEmbedding : string -> option (list float).
Variable cosineSimilarity : list float -> list float -> float.

(** The text a template literal prints for a number. *)
Variable numberToText : float -> string.

Definition indexingMessage (progress : IndexingProgress) : string :=
  ("Indexing in progress: " ++ numberToText (percent progress) ++ "% ("
   ++ numberToText (filesProcessed progress) ++ "/"
   ++ numberToText (totalFiles progress)
   ++ " files), try again in a few seconds")%string.

Definition unavailableMessage (state : EmbeddingsState) (now : float)
    : string :=
  ("Semantic search unavailable - embeddings model failed to load. Retrying in "
   ++ numberToText (nextRetryMinutes state now)
   ++ " minutes. Use mode='exact' or mode='fuzzy' instead.")%string.

(** [handleSearchDocs] at the time [now]; [None] is the [null] index. *)
Definition handleSearchDocs (index : option DocIndex)
    (indexingProgress : IndexingProgress) (embeddingsState : EmbeddingsState)
    (params : SearchDocsParams) (now : float) : Response :=
  if isIndexing indexingProgress
  then Failure (indexingMessage indexingProgress)
  else
    match index with
    | None => Failure "Index not initialized"
    | Some index =>
        let query := query params in
        let mode := match mode params with Some m => m | None => Semantic end in
        let filters := filters params in
        let limit := match limit params with Some l => l | None => 10 end in
        if negb (truthy query) then Failure "Query parameter is required"
        else if isSemantic mode && negb (available embeddingsState)
        then Failure (unavailableMessage embeddingsState now)
        else
          let results :=
            Search.searchDocumentation minimatch generateEmbedding
              cosineSimilarity index query mode filters limit in
          let formattedResults := map format results in
          Success formattedResults query mode
            (Z.of_nat (List.length formattedResults))
    end.

End Handler.
End Tools.

(** ** services/watcher.ts *)

Module Watcher.
Import JS.

(** [DOC_EXTENSIONS] of types.ts. *)
Definition DOC_EXTENSIONS : list string :=
  [".md"; ".markdown"; ".txt"; ".rst"; ".adoc"; ".asciidoc"].

Definition BATCH_DELAY_MS : Z := 500.

(** The variables the closures of [createFileWatcher] share: whether a
    watcher is open, the set of pending changes in the order of their
    insertion, and whether the batch timer is set. *)
Record State := mkState {
  watcher : bool;
  pendingChanges : list string;
  batchTimer : bool
}.

Definition initial : State :=
  {| watcher := false; pendingChanges := []; batchTimer := false |}.

(** What happens to a watcher: a call of [start] or [stop], an event of
    the open watcher for a path (add, change or unlink), the batch timer
    running out. *)
Inductive Event :=
| Start
| Stop
| FileEvent (filePath : string)
| Timeout.

(** [pendingChanges.add(filePath)] *)
Definition add (filePath : string) (pending : list string) : list string :=
  if arrayIncludes pending filePath then pending else pending ++ [filePath].

Definition queueChange (filePath : string) (st : State) : State :=
  let ext := toLowerCase (extname filePath) in
  if negb (arrayIncludes DOC_EXTENSIONS ext) then st
  else {| watcher := watcher st;
          pendingChanges := add filePath (pendingChanges st);
          batchTimer := true |}.

(** [processBatch]: the state after it and the files handed to
    [onChange], if it is called. *)
Definition processBatch (st : State) : State * option (list string) :=
  match pendingChanges st with
  | [] => (st, None)
  | files =>
      ({| watcher := watcher st; pendingChanges := [];
          batchTimer := batchTimer st |},
       Some files)
  end.

(** One event: the state after it and the batch handed to [onChange]. An
    event for a path only comes from an open watcher, and the timer only
    runs out when it is set. *)
Definition step (st : State) (e : Event) : State * option (list string) :=
  match e with
  | Start =>
      ({| watcher := true; pendingChanges := pendingChanges st;
          batchTimer := batchTimer st |}, None)
  | Stop =>
      ({| watcher := false; pendingChanges := pendingChanges st;
          batchTimer := false |}, None)
  | FileEvent filePath =>
      if watcher st then (queueChange filePath st, None) else (st, None)
  | Timeout =>
      if batchTimer st then
        let '(st', batch) := processBatch st in
        ({| watcher := watcher st'; pendingChanges := pendingChanges st';
            batchTimer := false |}, batch)
      else (st, None)
  end.

(** The state after a sequence of events and the batches handed to
    [onChange], in their order. *)
Fixpoint run (st : State) (events : list Event) : State * list (list string) :=
  match events with
  | [] => (st, [])
  | e :: rest =>
      let '(st', batch) := step st e in
      let '(final, batches) := run st' rest in
      (final, match batch with Some b => b :: batches | None => batches end)
  end.

(** A path with the extension of a documentation file. *)
Definition isDocumentationPath (filePath : string) : bool :=
  arrayIncludes DOC_EXTENSIONS (toLowerCase (extname filePath)).

(** A batch or a set of pending changes as the watcher keeps them: paths
    of documentation files, each once. *)
Definition tidy (files : list string) : Prop :=
  NoDup files /\ Forall (fun f => isDocumentationPath f = true) files.

(** The paths of documentation files the open watcher reports in a
    sequence of events. *)
Fixpoint reported (st : State) (events : list Event) : list string :=
  match events with
  | [] => []
  | e :: rest =>
      match e with
      | FileEvent filePath =>
          if watcher st && isDocumentationPath filePath then [filePath] else []
      | _ => []
      end ++ reported (fst (step st e)) rest
  end.

End Watcher.

(** ** The hybrid merge on the values of [mergedMap]

    The two loops over the map, read on the list of its values;
    [SearchFacts] proves them equal to the folds over the map. *)

Module SearchRec.
Import Types Search.

(** [mergedMap.set(x.id, x)] on the values of the map. *)
Fixpoint setResult (x : SearchResult) (vs : list SearchResult)
    : list SearchResult :=
  match vs with
  | [] => [x]
  | v :: rest =>
      if String.eqb (resultId x) (resultId v) then x :: rest
      else v :: setResult x rest
  end.

Definition entriesOf (vs : list SearchResult) : JMap.t string SearchResult :=
  map (fun v => (resultId v, v)) vs.

(** One iteration of the loop over the semantic results, on the values. *)
Definition mergeOne (vs : list SearchResult) (s : SearchResult)
    : list SearchResult :=
  match find (fun v => String.eqb (resultId s) (resultId v)) vs with
  | Some existing => setResult (boosted existing s) vs
  | None => setResult s vs
  end.

End SearchRec.

(** ** Vocabulary of the statements *)

Module Vocabulary.

(** [p] is an initial segment of [s]. *)
Definition beginsWith (p s : string) : Prop :=
  exists tail, s = (p ++ tail)%string.

(** Every two neighbours of a list are related by [R]. *)
Fixpoint neighbours {A : Type} (R : A -> A -> Prop) (l : list A) : Prop :=
  match l with
  | [] => True
  | x :: t =>
      match t with
      | [] => True
      | y :: _ => R x y
      end /\ neighbours R t
  end.







(** [o'] starts with a paragraph that, added to [o], would have exceeded
    [maxTokens]. *)
Definition cutBefore (maxTokens : Z) (paragraphs : list string)
    (o o' : Parser.ParsedChunk) : Prop :=
  exists p, In p paragraphs /\ beginsWith p (Parser.content o')
    /\ maxTokens < Parser.estimateTokenCount
                     (Parser.content o ++ JS.LFLF ++ p)%string.














(** [l1] is [l2] with some elements left out. *)
Inductive subsequence {A : Type} : list A -> list A -> Prop :=
| subsequence_nil : subsequence [] []
| subsequence_keep x l1 l2 : subsequence l1 l2 -> subsequence (x :: l1) (x :: l2)
| subsequence_skip x l1 l2 : subsequence l1 l2 -> subsequence l1 (x :: l2).

(** [sub] occurs in [s]. *)
Definition occursIn (sub s : string) : Prop :=
  exists pre post, s = (pre ++ sub ++ post)%string.

(** The result [r] carries the score and the reason of the highest tier
    at which [q] occurs in the chunk [c]: the lower-cased context, else a
    lower-cased heading of the path, else the lower-cased text made of
    the context, the headings and the content, joined by spaces. *)
Definition scoresAtTier (c : Types.DocChunk) (q : string)
    (r : Types.SearchResult) : Prop :=
  let inContext := occursIn q (JS.toLowerCase (Types.context c)) in
  let inHeading :=
    exists h, In h (Types.hierarchy c) /\ occursIn q (JS.toLowerCase h) in
  let inText :=
    occursIn q
      (JS.toLowerCase
         (JS.join " "
            (Types.context c :: Types.hierarchy c ++ [Types.content c]))) in
  (inContext
   /\ Types.score r = 0.9%float /\ Types.match_reason r = "context match")
  \/ (~ inContext /\ inHeading
      /\ Types.score r = 0.8%float /\ Types.match_reason r = "heading match")
  \/ (~ inContext /\ ~ inHeading /\ inText
      /\ Types.score r = 0.6%float /\ Types.match_reason r = "content match").

(** The keyword result [k] after the hybrid merge: boosted by the semantic
    result for the same chunk identifier, if there is one. *)
Definition boostedBy (semanticResults : list Types.SearchResult)
    (k : Types.SearchResult) : Types.SearchResult :=
  match find (fun s => String.eqb (Search.resultId s) (Search.resultId k))
          semanticResults with
  | Some s => Search.boosted k s
  | None => k
  end.

(** The semantic result [s] is for a chunk no keyword result is for. *)
Definition semanticOnly (keywordResults : list Types.SearchResult)
    (s : Types.SearchResult) : bool :=
  negb (existsb (fun k => String.eqb (Search.resultId s) (Search.resultId k))
          keywordResults).

(** What identifies a result and what it carries: the identifier and the
    line range of its chunk, its score and its reason. *)
Definition summary (r : Types.SearchResult)
    : string * Z * Z * float * string :=
  (Types.id (Types.chunk r), Types.startLine (Types.chunk r),
   Types.endLine (Types.chunk r), Types.score r, Types.match_reason r).

(** The identifiers of the chunks of the index are pairwise distinct. *)
Definition uniqueIds (index : Types.DocIndex) : Prop :=
  NoDup (map Types.id (Search.allChunks index)).

(** One of the three scores of the keyword search. *)
Definition tierScore (x : float) : Prop :=
  x = 0.9%float \/ x = 0.8%float \/ x = 0.6%float.

(** The scores do not increase along the list. *)
Definition descending (results : list Types.SearchResult) : Prop :=
  neighbours (fun a b => (Types.score b <=? Types.score a)%float = true) results.

(** A path segment names a documentation directory. *)
Definition isDocsDir (segment : string) : Prop :=
  In (JS.toLowerCase segment) ContextGenerator.docsDirNames.

(** A path segment can serve as a category: not empty and without a dot. *)
Definition isCategoryName (segment : string) : Prop :=
  segment <> EmptyString /\ JS.includes segment "." = false.

(** Segment [i] is a documentation directory and segment [i + 1], [next],
    can serve as a category. *)
Definition categoryAt (parts : list string) (i : nat) (next : string) : Prop :=
  exists dir,
    nth_error parts i = Some dir /\ isDocsDir dir
    /\ nth_error parts (S i) = Some next /\ isCategoryName next.

(** The fallback of the category claim as the specification words it:
    without a documentation directory, the category is the name of the
    parent directory whenever the file has one. *)
Definition parent_directory_fallback : Prop :=
  forall filePath parent,
    let parts := JS.split "/" filePath in
    (forall p, In p parts -> ~ isDocsDir p) ->
    (2 <= List.length parts)%nat ->
    nth_error parts (List.length parts - 2) = Some parent ->
    ContextGenerator.extractCategory filePath = parent.

End Vocabulary.

(** ** Sample inputs *)

Module Samples.
Import Parser.

Definition smallChunk : ParsedChunk :=
  {| headings := ["Intro"]; firstSentence := "Hi"; chunkType := Paragraph;
     content := "Hi"; startLine := 0; endLine := 0 |}.

Definition largeChunk : ParsedChunk :=
  {| headings := ["Usage"]; firstSentence := "A longer paragraph.";
     chunkType := Paragraph; content := "A longer paragraph.";
     startLine := 2; endLine := 2 |}.

(** The lines of a document, joined by line feeds. *)
Definition unlines (ls : list string) : string :=
  JS.join (String JS.LF EmptyString) ls.



Definition authChunk : Types.DocChunk :=
  {| Types.id := "docs/frontend/auth.md:0";
     Types.file := "docs/frontend/auth.md";
     Types.startLine := 0;
     Types.endLine := 3;
     Types.content := "# Authentication" ++ unlines [""; ""; "uses JWT tokens."];
     Types.context := "frontend > Authentication: uses JWT tokens";
     Types.hierarchy := ["Authentication"];
     Types.chunkType := Parser.Heading;
     Types.chunkMetadata := Some (5, 9) |}.

Definition setupChunk : Types.DocChunk :=
  {| Types.id := "docs/guides/setup.md:0";
     Types.file := "docs/guides/setup.md";
     Types.startLine := 0;
     Types.endLine := 2;
     Types.content := "Install the tool. Then refresh the index.";
     Types.context := "guides > Setup: Install the tool.";
     Types.hierarchy := ["Setup"];
     Types.chunkType := Parser.Paragraph;
     Types.chunkMetadata := Some (7, 11) |}.

(** A chunk whose last heading is not part of its context. *)
Definition loginChunk : Types.DocChunk :=
  {| Types.id := "docs/frontend/auth.md:10";
     Types.file := "docs/frontend/auth.md";
     Types.startLine := 10;
     Types.endLine := 12;
     Types.content := "Sign in with a password.";
     Types.context := "frontend > Authentication: Sign in with a password.";
     Types.hierarchy := ["Authentication"; "Login"];
     Types.chunkType := Parser.Paragraph;
     Types.chunkMetadata := Some (5, 6) |}.

Definition sampleIndex : Types.DocIndex :=
  {| Types.chunks :=
       [("docs/frontend/auth.md", [authChunk]);
        ("docs/guides/setup.md", [setupChunk])];
     Types.embeddings :=
       [("docs/frontend/auth.md:0", [0.5%float; 0.25%float]);
        ("docs/guides/setup.md:0", [0.125%float; 1%float])];
     Types.metadata :=
       {| Types.version := "1.0.0"; Types.indexedAt := 1700000000000;
          Types.fileCount := 2; Types.chunkCount := 2 |} |}.

(** An index of one file with two chunks. *)
Definition loginIndex : Types.DocIndex :=
  {| Types.chunks := [("docs/frontend/auth.md", [authChunk; loginChunk])];
     Types.embeddings := [];
     Types.metadata :=
       {| Types.version := "1.0.0"; Types.indexedAt := 1700000000000;
          Types.fileCount := 1; Types.chunkCount := 2 |} |}.

(** A chunk of three paragraphs of four characters. *)
Definition threeParagraphs : Parser.ParsedChunk :=
  {| Parser.headings := ["Guide"]; Parser.firstSentence := "aaaa";
     Parser.chunkType := Parser.Paragraph;
     Parser.content := unlines ["aaaa"; ""; "bbbb"; ""; "cccc"];
     Parser.startLine := 10; Parser.endLine := 14 |}.

(** An RST document that opens with an overlined title, followed by a
    paragraph of two hundred words. *)
Definition overlineDocument : string :=
  unlines ["====="; "Title"; "====="; "";
           String.concat " " (repeat "word" 200)].

(** The files of a project that holds this document alone. *)
Definition overlineFiles (path : string) : option string :=
  if String.eqb path "guide.rst" then Some overlineDocument else None.

End Samples.

(** ** The vocabulary of the statements on the index store *)
Module StorageVocabulary.
Import Storage.

(** A number that a [Float32Array] holds unchanged. *)
Definition isFloat32 (x : float) : Prop := Storage.fround x = x.

(** The representation invariant of the embeddings of an index: the
    vectors are [Float32Array]s. *)
Definition float32Vectors (index : Types.DocIndex) : Prop :=
  Forall (fun entry => Forall isFloat32 (snd entry)) (Types.embeddings index).

(** The number msgpackr reads back for a number it packed: it packs the
    negative zero as the integer 0, and every other number as it is. *)
Definition positiveZero (x : float) : float :=
  if (x =? 0)%float then 0%float else x.

(** The data msgpackr reads back for data it packed. *)
Fixpoint readBack {Extension : Type} (v : Value Extension) : Value Extension :=
  match v with
  | Number x => Number (positiveZero x)
  | Array items => Array (map readBack items)
  | Object fields =>
      Object (map (fun f => (fst f, readBack (snd f))) fields)
  | _ => v
  end.

(** An index with the version of the current schema and with every
    negative zero of a vector replaced by zero. *)
Definition reloaded (index : Types.DocIndex) : Types.DocIndex :=
  {| Types.chunks := Types.chunks index;
     Types.embeddings :=
       map (fun entry => (fst entry, map positiveZero (snd entry)))
         (Types.embeddings index);
     Types.metadata :=
       {| Types.version := INDEX_VERSION;
          Types.indexedAt := Types.indexedAt (Types.metadata index);
          Types.fileCount := Types.fileCount (Types.metadata index);
          Types.chunkCount := Types.chunkCount (Types.metadata index) |} |}.

(** No vector of the index holds the negative zero. *)
Definition withoutNegativeZero (index : Types.DocIndex) : Prop :=
  Forall (fun entry => Forall (fun x => positiveZero x = x) (snd entry))
    (Types.embeddings index).

(** A typed index as [loadIndex] returns it: the maps keyed by strings,
    the chunks as the objects they are. *)
Definition loaded {Extension : Type} (index : Types.DocIndex)
    : LoadedIndex Extension :=
  {| Storage.chunks :=
       map (fun entry =>
              (Text (fst entry), Array (map chunkValue (snd entry))))
         (Types.chunks index);
     Storage.embeddings :=
       map (fun entry => (Text (fst entry), snd entry))
         (Types.embeddings index);
     Storage.metadata :=
       {| Storage.version := Text (Types.version (Types.metadata index));
          Storage.indexedAt :=
            integer (Types.indexedAt (Types.metadata index));
          Storage.fileCount :=
            integer (Types.fileCount (Types.metadata index));
          Storage.chunkCount :=
            integer (Types.chunkCount (Types.metadata index)) |} |}.

Section Stored.
Variable Extension : Type.
Variable extensionGet : Extension -> string -> Value Extension.
Variable extensionItems : Extension -> Outcome (list (Value Extension)).
Variable extensionIsObject : Extension -> bool.
Variable extensionSame : Extension -> Extension -> bool.
Variable extensionEmptyTypedArray : Extension -> bool.
Variable constructFloat32Array :
  Value Extension -> Outcome Types.Float32Array.

(** What a stored object must hold for [index] to be built from it: the
    current version, chunks of which [new Map] makes the chunks of the
    index, embeddings of which the callback and [new Map] make its
    embeddings; the metadata are the four properties as they are read. *)
Definition builds (serialized : Value Extension)
    (index : LoadedIndex Extension) : Prop :=
  exists storedChunks storedEmbeddings,
    property Extension extensionGet serialized "version"
    = Returned (Text INDEX_VERSION)
    /\ property Extension extensionGet serialized "chunks"
       = Returned storedChunks
    /\ newMap Extension extensionGet extensionItems extensionIsObject
         extensionSame storedChunks
       = Returned (chunks Extension index)
    /\ property Extension extensionGet serialized "embeddings"
       = Returned storedEmbeddings
    /\ embeddingsOf Extension extensionItems extensionSame
         extensionEmptyTypedArray constructFloat32Array storedEmbeddings
       = Returned (embeddings Extension index)
    /\ version Extension (metadata Extension index) = Text INDEX_VERSION
    /\ property Extension extensionGet serialized "indexedAt"
       = Returned (indexedAt Extension (metadata Extension index))
    /\ property Extension extensionGet serialized "fileCount"
       = Returned (fileCount Extension (metadata Extension index))
    /\ property Extension extensionGet serialized "chunkCount"
       = Returned (chunkCount Extension (metadata Extension index)).

End Stored.

(** A map of the runtime whose keys are the strings of a typed map. *)
Definition keyed {Extension V : Type} (m : list (string * V))
    : list (Value Extension * V) :=
  map (fun entry => (Text (fst entry), snd entry)) m.

(** The numbers of the first vector of a loaded index. *)
Definition firstVector {Extension : Type} (index : LoadedIndex Extension)
    : list float :=
  match embeddings Extension index with
  | entry :: _ => snd entry
  | [] => []
  end.

(** The round trip as the specification words it, for a lock that can be
    acquired and a serializer that reads back what it packed as msgpackr
    does: loading after saving returns the index that was saved, the
    numbers of its vectors and its metadata included. *)
Definition roundtrip_identity : Prop :=
  forall (Extension : Type)
         (extensionGet : Extension -> string -> Value Extension)
         (extensionItems : Extension -> Outcome (list (Value Extension)))
         (extensionIsObject : Extension -> bool)
         (extensionSame : Extension -> Extension -> bool)
         (extensionEmptyTypedArray : Extension -> bool)
         (constructFloat32Array :
            Value Extension -> Outcome Types.Float32Array)
         (Bytes : Type) (pack : Value Extension -> Bytes)
         (unpack : Bytes -> option (Value Extension))
         (lockAvailable : string -> bool)
         (index : Types.DocIndex) (indexPath : string)
         (fs : FileSystem Bytes),
    lockAvailable indexPath = true ->
    unpack (pack (serialize index)) = Some (readBack (serialize index)) ->
    JMap.wf (Types.chunks index) ->
    JMap.wf (Types.embeddings index) ->
    float32Vectors index ->
    exists fs',
      saveIndex Extension Bytes pack lockAvailable index indexPath fs
      = Returned fs'
      /\ loadIndex Extension extensionGet extensionItems extensionIsObject
           extensionSame extensionEmptyTypedArray constructFloat32Array
           Bytes unpack lockAvailable indexPath fs'
         = Some (loaded index).

(** Loading as the specification words it: a stored file that does not
    hold an index is never trusted, so whatever [loadIndex] returns is an
    index of the declared type. *)
Definition loads_indexes_only : Prop :=
  forall (Extension : Type)
         (extensionGet : Extension -> string -> Value Extension)
         (extensionItems : Extension -> Outcome (list (Value Extension)))
         (extensionIsObject : Extension -> bool)
         (extensionSame : Extension -> Extension -> bool)
         (extensionEmptyTypedArray : Extension -> bool)
         (constructFloat32Array :
            Value Extension -> Outcome Types.Float32Array)
         (Bytes : Type) (unpack : Bytes -> option (Value Extension))
         (lockAvailable : string -> bool)
         (indexPath : string) (fs : FileSystem Bytes)
         (index : LoadedIndex Extension),
    loadIndex Extension extensionGet extensionItems extensionIsObject
      extensionSame extensionEmptyTypedArray constructFloat32Array
      Bytes unpack lockAvailable indexPath fs
    = Some index ->
    exists typed : Types.DocIndex, index = loaded typed.

End StorageVocabulary.

(** ** Sample files and a sample runtime of the index store *)

Module StoredSamples.
Import Storage.

(** A stored file of the current version that declares neither counts
    nor a time, and whose one entry of chunks holds a number where the
    list of chunks belongs. *)
Definition uncheckedFile {Extension : Type} : Value Extension :=
  Object [("version", Text "1.0.0");
          ("chunks", Array [Array [Text "docs/a.md"; Number 5]]);
          ("embeddings", Array [])].

(** A stored file that holds the current version and an empty list of
    embeddings, and nothing else. *)
Definition bareFile {Extension : Type} : Value Extension :=
  Object [("version", Text "1.0.0"); ("embeddings", Array [])].

(** A stored file that holds the current version alone. *)
Definition versionOnlyFile {Extension : Type} : Value Extension :=
  Object [("version", Text "1.0.0")].

(** A stored index of an older schema. *)
Definition oldStoredIndex {Extension : Type} : Value Extension :=
  Object [("version", Text "0.9.0");
          ("indexedAt", Number 1700000000000);
          ("fileCount", Number 0);
          ("chunkCount", Number 0);
          ("chunks", Array []);
          ("embeddings", Array [])].

(** The one file of a project, and the index the scan builds for it
    when the embedding of its chunk holds the negative zero. *)
Definition titledFiles (path : string) : option string :=
  if String.eqb path "docs/a.md"
  then Some (Samples.unlines ["# Title"; ""; "Body."])
  else None.

Definition negativeZeroIndex : Types.DocIndex :=
  Scanner.scanAndIndexDocumentation titledFiles
    (fun _ => Some [0.5%float; (-0)%float]) ["docs/a.md"] 1700000000000
    Types.DEFAULT_CHUNKING_CONFIG.

(** A runtime in which msgpackr decodes no extension value, and a
    serializer that keeps in memory what it packs and reads it back as
    msgpackr does. *)
Definition noProperty (e : Empty_set) (name : string) : Value Empty_set :=
  match e with end.

Definition noItems (e : Empty_set) : Outcome (list (Value Empty_set)) :=
  match e with end.

Definition never (e : Empty_set) : bool := match e with end.

Definition neverSame (e f : Empty_set) : bool := match e with end.

Definition memoryLoad
    (constructFloat32Array : Value Empty_set -> Outcome Types.Float32Array)
    (indexPath : string) (fs : FileSystem (Value Empty_set))
    : option (LoadedIndex Empty_set) :=
  loadIndex Empty_set noProperty noItems never neverSame never
    constructFloat32Array (Value Empty_set)
    (fun v => Some (StorageVocabulary.readBack v)) (fun _ => true)
    indexPath fs.

Definition memorySave (index : Types.DocIndex) (indexPath : string)
    (fs : FileSystem (Value Empty_set))
    : Outcome (FileSystem (Value Empty_set)) :=
  saveIndex Empty_set (Value Empty_set) (fun v => v) (fun _ => true)
    index indexPath fs.

(** A file system without any file. *)
Definition noFiles (Bytes : Type) : Storage.FileSystem Bytes := fun _ => None.

End StoredSamples.

(** ** Vocabulary of the line ranges *)

Module Layout.
Import JS Parser.

(** The number of line feeds of a string. *)
Fixpoint lineFeeds (s : string) : Z :=
  match s with
  | EmptyString => 0
  | String c s' => (if Ascii.eqb c LF then 1 else 0) + lineFeeds s'
  end.

(** The lines a list of paragraphs accounts for: those of each paragraph
    and one separating line after it. *)
Fixpoint linesUsed (paragraphs : list string) : Z :=
  match paragraphs with
  | [] => 0
  | p :: rest => lineCount p + 1 + linesUsed rest
  end.

(** The content of a chunk has no more lines than its line range. *)
Definition fits (c : ParsedChunk) : Prop :=
  lineCount (content c) <= endLine c - startLine c + 1.

(** The chunks hold line ranges that lie between [lo] and [hi] (excluded),
    follow each other without overlap and are not empty; each chunk
    satisfies [Q]. *)
Fixpoint laidOut (Q : ParsedChunk -> Prop) (lo hi : Z) (l : list ParsedChunk)
    : Prop :=
  match l with
  | [] => lo <= hi
  | c :: t =>
      lo <= startLine c /\ startLine c <= endLine c /\ Q c
      /\ laidOut Q (endLine c + 1) hi t
  end.

(** The numbers increase strictly and lie between [lo] and [hi]. *)
Fixpoint increasing (lo hi : Z) (l : list Z) : Prop :=
  match l with
  | [] => True
  | x :: t => lo <= x /\ x <= hi /\ increasing (x + 1) hi t
  end.

(** The state of a parsing loop about to read line [i]: the pending lines
    are the lines from [currentChunkStart] to [i - 1], and the chunks saved
    so far lie before them. *)
Definition pending (i : Z) (st : ParseState) : Prop :=
  currentChunkStart st + Z.of_nat (List.length (currentChunkLines st)) = i
  /\ 0 <= currentChunkStart st
  /\ Forall (fun l => lineFeeds l = 0) (currentChunkLines st)
  /\ laidOut fits 0 (currentChunkStart st) (chunks st).

End Layout.

(** ** Vocabulary of the heading stack and of the chunks *)

Module Nesting.
Import JS Parser.

(** The levels of a heading stack, read from its bottom, increase
    strictly from above [lo]. *)
Fixpoint nested (lo : Z) (fromBottom : list HeadingEntry) : Prop :=
  match fromBottom with
  | [] => True
  | h :: above => lo < level h /\ nested (level h) above
  end.

(** A chunk as the parsers build them: its content is not empty and is
    trimmed. *)
Definition trimmed (c : ParsedChunk) : Prop :=
  content c <> EmptyString /\ trim (content c) = content c.

End Nesting.

(** ** Vocabulary of the shape of an index *)

Module IndexShape.
Import JS Types.

(** The chunks of a file are filed under its path and carry identifiers
    made of the path and the start line; no file is filed without a
    chunk. *)
Definition filed (index : DocIndex) : Prop :=
  JMap.wf (chunks index)
  /\ forall f cs, In (f, cs) (chunks index) ->
       cs <> []
       /\ forall c, In c cs ->
            file c = f
            /\ id c = (f ++ ":" ++ numberToString (startLine c))%string.

(** Every embedding belongs to a chunk of the index. *)
Definition embedded (index : DocIndex) : Prop :=
  JMap.wf (embeddings index)
  /\ forall k, In k (JMap.keys (embeddings index)) ->
       exists c, In c (Search.allChunks index) /\ id c = k.

(** The counts of the metadata are those of the chunks. *)
Definition counted (index : DocIndex) : Prop :=
  fileCount (metadata index) = Z.of_nat (List.length (chunks index))
  /\ chunkCount (metadata index)
     = Z.of_nat (List.length (Search.allChunks index)).

(** What the index holds for a file once the file is indexed: its chunks,
    when it can be read and has some. *)
Definition freshChunks (readFile : string -> option string) (file : string)
    (config : ChunkingConfig) : option (list DocChunk) :=
  match Scanner.processFile readFile file config with
  | Some (c :: cs) => Some (c :: cs)
  | _ => None
  end.

(** The file is not an RST file. *)
Definition notRST (file : string) : Prop :=
  toLowerCase (extname file) <> ".rst".

(** The thresholds of the configuration are in order, when they are
    used. *)
Definition orderedThresholds (config : ChunkingConfig) : Prop :=
  splitAtHeadings config = true -> minTokens config <= maxTokens config.

End IndexShape.

(** ** Vocabulary of the search *)

Module SearchShape.
Import JS Types Search.

(** The map of the hybrid merge is keyed by the identifiers of its
    results. *)
Definition keyedById (m : JMap.t string SearchResult) : Prop :=
  JMap.wf m /\ forall k v, In (k, v) m -> resultId v = k.

(** The filters with [s] for their minimum score. *)
Definition withMinScore (s : option float) (f : SearchFilters) : SearchFilters :=
  {| filePattern := filePattern f; category := category f; minScore := s |}.

(** The cells of a row of the matrix of [levenshteinDistance], from
    column [j] on, lie between the difference and the larger of the row
    and the column. *)
Fixpoint cellsWithin (i j : Z) (row : list Z) : Prop :=
  match row with
  | [] => True
  | x :: t => Z.abs (i - j) <= x <= Z.max i j /\ cellsWithin i (j + 1) t
  end.

End SearchShape.

(** ** Vocabulary of the edit distance *)

Module EditShape.

(** The value the matrix of [levenshteinDistance] holds for two prefixes,
    each given from its last character to its first: the recurrence of
    the source on the last characters. *)
Fixpoint cell (x : list ascii) : list ascii -> Z :=
  fix along (y : list ascii) : Z :=
    match x, y with
    | [], _ => Z.of_nat (List.length y)
    | _, [] => Z.of_nat (List.length x)
    | c :: x', d :: y' =>
        if Ascii.eqb c d then cell x' y'
        else Z.min (Z.min (cell x' y' + 1) (along y' + 1)) (cell x' y + 1)
    end.

(** The cells of the row of [x] for the prefixes that extend [p] by the
    characters of [rest]. *)
Fixpoint cells (x p : list ascii) (rest : string) : list Z :=
  match rest with
  | EmptyString => []
  | String d rest' => cell x (d :: p) :: cells x (d :: p) rest'
  end.

(** The characters of a string, from the last to the first. *)
Fixpoint reversed (s : string) (acc : list ascii) : list ascii :=
  match s with
  | EmptyString => acc
  | String c s' => reversed s' (c :: acc)
  end.

End EditShape.

(** ** More sample inputs *)

Module MoreSamples.
(** A Markdown document of two sections. *)
Definition guide : string :=
  Samples.unlines
    ["# Guide"; ""; "Install the tool."; ""; "## Usage"; ""; "Run it."].

(** The files of a project that holds this document alone. *)
Definition guideFiles (path : string) : option string :=
  if String.eqb path "docs/guide.md" then Some guide else None.

(** A project without any file. *)
Definition nothingToRead (path : string) : option string := None.

(** A runtime without embeddings. *)
Definition noEmbedding (text : string) : option (list float) := None.

End MoreSamples.

(* ================================================================== *)
(** * Part II. Properties                                               *)
(* ================================================================== *)

(** ** Facts about strings and lists *)

Module StringFacts.
Import JS Vocabulary.

Lemma append_nil_r (s : string) : (s ++ EmptyString)%string = s.
Proof. induction s as [|c s IH]; simpl; [reflexivity | now rewrite IH]. Qed.

Lemma append_assoc (a b c : string) :
  ((a ++ b) ++ c)%string = (a ++ (b ++ c))%string.
Proof. induction a as [|x a IH]; simpl; [reflexivity | now rewrite IH]. Qed.

Lemma length_append (a b : string) :
  String.length (a ++ b)%string = (String.length a + String.length b)%nat.
Proof. induction a as [|x a IH]; simpl; [reflexivity | now rewrite IH]. Qed.

Lemma lengthZ_nonneg (s : string) : 0 <= lengthZ s.
Proof. unfold lengthZ; lia. Qed.

Lemma lengthZ_glue (a b : string) :
  lengthZ (a ++ LFLF ++ b)%string = lengthZ a + 2 + lengthZ b.
Proof. unfold lengthZ. rewrite !length_append. simpl. lia. Qed.

Lemma truthy_false (s : string) : truthy s = false -> s = EmptyString.
Proof. destruct s; simpl; [reflexivity | discriminate]. Qed.

Lemma beginsWith_refl (s : string) : beginsWith s s.
Proof. exists EmptyString. now rewrite append_nil_r. Qed.

Lemma beginsWith_nil (s : string) : beginsWith EmptyString s.
Proof. now exists s. Qed.


Lemma beginsWith_trans (a b c : string) :
  beginsWith a b -> beginsWith b c -> beginsWith a c.
Proof. intros [t ->] [u ->]. exists (t ++ u)%string. apply append_assoc. Qed.

End StringFacts.

Module ListFacts.
Import Vocabulary.

Lemma neighbours_split {A : Type} (R : A -> A -> Prop) (pre : list A) :
  forall x y post, neighbours R (pre ++ x :: y :: post) -> R x y.
Proof.
  induction pre as [|a pre IH]; intros x y post H.
  - simpl in H. tauto.
  - apply (IH x y post). simpl in H. tauto.
Qed.

End ListFacts.

(** ** Insertion-ordered maps *)

Module JMapFacts.

Section Keyed.
Context {K V : Type} (eqb : K -> K -> bool).
Hypothesis eqb_eq : forall x y, eqb x y = true <-> x = y.

Lemma get_None (k : K) (m : JMap.t K V) :
  JMap.get eqb k m = None <-> ~ In k (JMap.keys m).
Proof.
  induction m as [|[k' v'] m IH]; simpl.
  - tauto.
  - destruct (eqb k k') eqn:E.
    + apply eqb_eq in E. subst. split; [discriminate | tauto].
    + assert (k <> k') by (intros ->; rewrite (proj2 (eqb_eq k' k') eq_refl) in E;
                           discriminate).
      rewrite IH. intuition congruence.
Qed.

Lemma get_Some_In (k : K) (v : V) (m : JMap.t K V) :
  JMap.get eqb k m = Some v -> In (k, v) m.
Proof.
  induction m as [|[k' v'] m IH]; simpl; [discriminate|].
  destruct (eqb k k') eqn:E.
  - apply eqb_eq in E. subst. intros [= ->]. now left.
  - intros H. right. now apply IH.
Qed.


Lemma set_absent (k : K) (v : V) (m : JMap.t K V) :
  ~ In k (JMap.keys m) -> JMap.set eqb k v m = m ++ [(k, v)].
Proof.
  induction m as [|[k' v'] m IH]; simpl; [reflexivity|].
  intros H. destruct (eqb k k') eqn:E.
  - apply eqb_eq in E. subst. tauto.
  - rewrite IH by tauto. reflexivity.
Qed.

Lemma keys_set_present (k : K) (v : V) (m : JMap.t K V) :
  In k (JMap.keys m) -> JMap.keys (JMap.set eqb k v m) = JMap.keys m.
Proof.
  induction m as [|[k' v'] m IH]; simpl; [contradiction|].
  intros H. destruct (eqb k k') eqn:E; simpl; [reflexivity|].
  destruct H as [->|H].
  - rewrite (proj2 (eqb_eq k k) eq_refl) in E. discriminate.
  - now rewrite IH.
Qed.


(** Rebuilding a map from its entries gives the map back. *)
Lemma ofEntries_app (m0 entries : JMap.t K V) :
  JMap.wf (m0 ++ entries) ->
  fold_left (fun m kv => JMap.set eqb (fst kv) (snd kv) m) entries m0
  = m0 ++ entries.
Proof.
  revert m0. induction entries as [|[k v] entries IH]; intros m0 Hwf; simpl.
  - now rewrite app_nil_r.
  - assert (Hk : ~ In k (JMap.keys m0)).
    { unfold JMap.wf, JMap.keys in Hwf. rewrite map_app in Hwf. simpl in Hwf.
      apply NoDup_remove_2 in Hwf. intros Hin. apply Hwf.
      apply in_or_app. now left. }
    rewrite set_absent by exact Hk.
    replace (m0 ++ (k, v) :: entries) with ((m0 ++ [(k, v)]) ++ entries)
      by (rewrite <- app_assoc; reflexivity).
    apply IH. rewrite <- app_assoc. exact Hwf.
Qed.

Lemma ofEntries_entries (m : JMap.t K V) :
  JMap.wf m -> JMap.ofEntries eqb m = m.
Proof. intros Hwf. unfold JMap.ofEntries. now rewrite ofEntries_app. Qed.

End Keyed.

End JMapFacts.

(** ** The chunk assembler *)

Module ParserFacts.
Import JS Parser ParserRec Vocabulary StringFacts ListFacts.


Lemma estimateTokenCount_glue (a b : string) :
  estimateTokenCount (a ++ LFLF ++ b)%string
  <= estimateTokenCount a + estimateTokenCount b + 1.
Proof.
  unfold estimateTokenCount. rewrite lengthZ_glue.
  pose proof (lengthZ_nonneg a). pose proof (lengthZ_nonneg b).
  Z.to_euclidean_division_equations. lia.
Qed.

Lemma estimateTokenCount_app_le (a b : string) :
  estimateTokenCount a <= estimateTokenCount (a ++ b)%string.
Proof.
  unfold estimateTokenCount, lengthZ. rewrite length_append.
  Z.to_euclidean_division_equations. lia.
Qed.

(** *** The merge loop is [mergeFrom] *)

Lemma merge_loop_rec (minTokens : Z) (chunks : list ParsedChunk) :
  forall merged acc,
    mergeFinish (fold_left (mergeStep minTokens) chunks (merged, acc))
    = merged ++ mergeFrom minTokens acc chunks.
Proof.
  induction chunks as [|chunk rest IH]; intros merged acc.
  - destruct acc; unfold mergeFinish; simpl; auto using app_nil_r.
  - cbn [fold_left mergeFrom]. unfold mergeStep at 2.
    destruct acc as [a|].
    + destruct (estimateTokenCount (content a)
                + estimateTokenCount (content chunk) <? minTokens).
      * apply IH.
      * destruct (estimateTokenCount (content chunk) <? minTokens);
          rewrite IH; rewrite <- ?app_assoc; reflexivity.
    + destruct (estimateTokenCount (content chunk) <? minTokens);
        rewrite IH; rewrite <- ?app_assoc; reflexivity.
Qed.

Lemma mergeSmallChunks_rec (chunks : list ParsedChunk) (minTokens : Z) :
  mergeSmallChunks chunks minTokens = mergeFrom minTokens None chunks.
Proof. unfold mergeSmallChunks. now rewrite merge_loop_rec. Qed.










(** *** The split loops are [splitFrom] and [piecesOf] *)

Lemma split_loop_rec (maxTokens : Z) (chunk : ParsedChunk)
    (paragraphs : list string) :
  forall st,
    splitFinish chunk (fold_left (splitStep maxTokens chunk) paragraphs st)
    = result st ++ splitFrom maxTokens chunk (currentContent st)
                     (currentStartLine st) (lineOffset st) paragraphs.
Proof.
  induction paragraphs as [|p rest IH]; intros st.
  - unfold splitFinish; simpl.
    destruct (truthy (currentContent st)); auto using app_nil_r.
  - cbn [fold_left splitFrom]. rewrite IH. unfold splitStep.
    destruct ((maxTokens <? estimateTokenCount
                 (testContentOf (currentContent st) p))
              && truthy (currentContent st)); cbn [result currentContent
                currentStartLine lineOffset].
    + rewrite <- app_assoc. reflexivity.
    + reflexivity.
Qed.

Lemma splitChunk_rec (maxTokens : Z) (res : list ParsedChunk)
    (chunk : ParsedChunk) :
  splitChunk maxTokens res chunk = res ++ piecesOf maxTokens chunk.
Proof.
  unfold splitChunk, piecesOf.
  destruct (estimateTokenCount (content chunk) <=? maxTokens);
    [reflexivity|].
  now rewrite split_loop_rec.
Qed.

Lemma split_outer_rec (maxTokens : Z) (chunks : list ParsedChunk) :
  forall res,
    fold_left (splitChunk maxTokens) chunks res
    = res ++ flat_map (piecesOf maxTokens) chunks.
Proof.
  induction chunks as [|c rest IH]; intros res; simpl.
  - now rewrite app_nil_r.
  - rewrite IH, splitChunk_rec, <- app_assoc. reflexivity.
Qed.

Lemma splitLargeChunks_rec (chunks : list ParsedChunk) (maxTokens : Z) :
  splitLargeChunks chunks maxTokens = flat_map (piecesOf maxTokens) chunks.
Proof. unfold splitLargeChunks. now rewrite split_outer_rec. Qed.

Lemma splitLargeChunks_single (c : ParsedChunk) (maxTokens : Z) :
  splitLargeChunks [c] maxTokens = piecesOf maxTokens c.
Proof. rewrite splitLargeChunks_rec. simpl. apply app_nil_r. Qed.

Lemma splitFrom_bounded (maxTokens : Z) (chunk : ParsedChunk)
    (all rest : list string) :
  forall cur start off,
    incl rest all ->
    (truthy cur = true ->
       estimateTokenCount cur <= maxTokens \/ In cur all) ->
    forall o, In o (splitFrom maxTokens chunk cur start off rest) ->
      headings o = headings chunk /\ chunkType o = chunkType chunk
      /\ (estimateTokenCount (content o) <= maxTokens \/ In (content o) all).
Proof.
  induction rest as [|p rest IH]; intros cur start off Hincl Hcur o Ho.
  - simpl in Ho. destruct (truthy cur) eqn:T; [|contradiction].
    destruct Ho as [<-|[]]. cbn [piece headings chunkType content]. auto.
  - assert (Hin : In p all) by (apply Hincl; left; reflexivity).
    assert (Hrest : incl rest all)
      by (intros x Hx; apply Hincl; right; exact Hx).
    cbn [splitFrom] in Ho.
    destruct (maxTokens <? estimateTokenCount (testContentOf cur p)) eqn:E;
      destruct (truthy cur) eqn:T; cbn [andb] in Ho.
    + destruct Ho as [<-|Ho].
      * cbn [piece headings chunkType content]. auto.
      * apply (IH p _ _ Hrest (fun _ => or_intror Hin) o Ho).
    + apply (IH _ _ _ Hrest) in Ho; [exact Ho|].
      intros _. right. unfold testContentOf. rewrite T. exact Hin.
    + apply (IH _ _ _ Hrest) in Ho; [exact Ho|].
      intros _. left. apply Z.ltb_ge in E. exact E.
    + apply (IH _ _ _ Hrest) in Ho; [exact Ho|].
      intros _. right. unfold testContentOf. rewrite T. exact Hin.
Qed.

Lemma splitFrom_neighbours (maxTokens : Z) (chunk : ParsedChunk)
    (all rest : list string) :
  forall cur start off,
    incl rest all ->
    neighbours (cutBefore maxTokens all)
      (splitFrom maxTokens chunk cur start off rest)
    /\ (forall o tl, splitFrom maxTokens chunk cur start off rest = o :: tl ->
         beginsWith cur (content o)).
Proof.
  induction rest as [|p rest IH]; intros cur start off Hincl.
  - simpl. destruct (truthy cur); simpl; split; auto.
    + intros o tl [= <- _]. apply beginsWith_refl.
    + intros o tl [=].
  - assert (Hin : In p all) by (apply Hincl; left; reflexivity).
    assert (Hrest : incl rest all)
      by (intros x Hx; apply Hincl; right; exact Hx).
    cbn [splitFrom].
    destruct (maxTokens <? estimateTokenCount (testContentOf cur p)) eqn:E;
      destruct (truthy cur) eqn:T; cbn [andb].
    + destruct (IH p off (off + lineCount p + 1) Hrest) as [N H].
      split.
      * cbn [neighbours]. split; [|exact N].
        destruct (splitFrom maxTokens chunk p off (off + lineCount p + 1) rest)
          as [|y tl] eqn:Ey; [exact I|].
        exists p. repeat split; [exact Hin|apply (H y tl eq_refl)|].
        apply Z.ltb_lt in E. unfold testContentOf in E. rewrite T in E.
        exact E.
      * intros o tl [= <- _]. apply beginsWith_refl.
    + destruct (IH (testContentOf cur p) start (off + lineCount p + 1) Hrest)
        as [N H].
      split; [exact N|]. intros o tl Ho.
      apply truthy_false in T. subst cur. apply beginsWith_nil.
    + destruct (IH (testContentOf cur p) start (off + lineCount p + 1) Hrest)
        as [N H].
      split; [exact N|]. intros o tl Ho.
      apply (beginsWith_trans _ (testContentOf cur p)); [|apply (H o tl Ho)].
      unfold testContentOf. rewrite T. exists (LFLF ++ p)%string. reflexivity.
    + destruct (IH (testContentOf cur p) start (off + lineCount p + 1) Hrest)
        as [N H].
      split; [exact N|]. intros o tl Ho.
      apply truthy_false in T. subst cur. apply beginsWith_nil.
Qed.

(** C2: the output of the split pass is the pieces of each input chunk
    in turn; a chunk within [maxTokens] is passed through; every output
    chunk keeps the heading path and the type of the chunk it comes
    from and is within [maxTokens], unless it is one blank-line-delimited
    paragraph of a chunk above [maxTokens]; and the cuts are greedy:
    a piece that has a successor is followed by a piece that starts with
    a paragraph whose addition would have exceeded [maxTokens]. *)
Theorem splitLargeChunks_bounded_greedy :
  forall (chunks : list ParsedChunk) (maxTokens : Z),
    splitLargeChunks chunks maxTokens
    = flat_map (fun c => splitLargeChunks [c] maxTokens) chunks
    /\ (forall c,
          estimateTokenCount (content c) <= maxTokens ->
          splitLargeChunks [c] maxTokens = [c])
    /\ (forall o,
          In o (splitLargeChunks chunks maxTokens) ->
          exists c,
            In c chunks
            /\ headings o = headings c /\ chunkType o = chunkType c
            /\ (estimateTokenCount (content o) <= maxTokens
                \/ (maxTokens < estimateTokenCount (content c)
                    /\ In (content o) (splitBlankLines (content c)))))
    /\ (forall c pre o o' post,
          splitLargeChunks [c] maxTokens = pre ++ o :: o' :: post ->
          cutBefore maxTokens (splitBlankLines (content c)) o o').
Proof.
  intros chunks maxTokens. repeat split.
  - rewrite splitLargeChunks_rec. apply flat_map_ext.
    intros c. symmetry. apply splitLargeChunks_single.
  - intros c Hc. rewrite splitLargeChunks_single. unfold piecesOf.
    apply Z.leb_le in Hc. rewrite Hc. reflexivity.
  - intros o Ho. rewrite splitLargeChunks_rec in Ho.
    apply in_flat_map in Ho. destruct Ho as (c & Hc & Ho).
    exists c. split; [exact Hc|]. unfold piecesOf in Ho.
    destruct (estimateTokenCount (content c) <=? maxTokens) eqn:E.
    + destruct Ho as [<-|[]]. apply Z.leb_le in E. auto.
    + apply Z.leb_gt in E.
      apply (splitFrom_bounded maxTokens c (splitBlankLines (content c)))
        in Ho; [|apply incl_refl|discriminate].
      destruct Ho as (Hh & Ht & [Hb|Hp]); auto.
  - intros c pre o o' post Hout. rewrite splitLargeChunks_single in Hout.
    unfold piecesOf in Hout.
    destruct (estimateTokenCount (content c) <=? maxTokens).
    + destruct pre as [|x [|y pre]]; discriminate Hout.
    + destruct (splitFrom_neighbours maxTokens c (splitBlankLines (content c))
                  (splitBlankLines (content c)) EmptyString (startLine c)
                  (startLine c) (incl_refl _)) as [N _].
      rewrite Hout in N. exact (neighbours_split _ _ _ _ _ N).
Qed.

(** An instance of C2: with [maxTokens = 2], the chunk of three
    four-character paragraphs is cut into its three paragraphs, and the
    second piece starts with the paragraph whose addition to the first
    would have made three tokens. *)
Lemma splitLargeChunks_bounded_greedy_witness :
  splitLargeChunks [Samples.threeParagraphs] 2
  = [piece Samples.threeParagraphs "aaaa" 10;
     piece Samples.threeParagraphs "bbbb" 12;
     piece Samples.threeParagraphs "cccc" 14]
  /\ cutBefore 2 (splitBlankLines (content Samples.threeParagraphs))
       (piece Samples.threeParagraphs "aaaa" 10)
       (piece Samples.threeParagraphs "bbbb" 12).
Proof.
  split; [reflexivity|].
  destruct (splitLargeChunks_bounded_greedy [Samples.threeParagraphs] 2)
    as (_ & _ & _ & Hcut).
  exact (Hcut Samples.threeParagraphs []
           (piece Samples.threeParagraphs "aaaa" 10)
           (piece Samples.threeParagraphs "bbbb" 12)
           [piece Samples.threeParagraphs "cccc" 14] eq_refl).
Defined.

End ParserFacts.

(** ** The category heuristic *)

Module ContextGeneratorFacts.
Import JS Types ContextGenerator Vocabulary StringFacts.

Lemma arrayIncludes_In (arr : list string) (x : string) :
  arrayIncludes arr x = true <-> In x arr.
Proof.
  unfold arrayIncludes. rewrite existsb_exists. split.
  - intros (y & Hy & E). apply String.eqb_eq in E. now subst.
  - intros H. exists x. split; [exact H | apply String.eqb_refl].
Qed.

Lemma truthy_true (s : string) : truthy s = true <-> s <> EmptyString.
Proof. destruct s; simpl; split; congruence. Qed.

Lemma isCategoryName_dec (s : string) :
  truthy s && negb (includes s ".") = true <-> isCategoryName s.
Proof.
  unfold isCategoryName.
  rewrite andb_true_iff, negb_true_iff, truthy_true. tauto.
Qed.

Lemma toLowerCase_truthy (s : string) : truthy (toLowerCase s) = truthy s.
Proof. destruct s; reflexivity. Qed.

Lemma isDocsDir_dec (p : string) :
  truthy (toLowerCase p) && arrayIncludes docsDirNames (toLowerCase p) = true
  <-> isDocsDir p.
Proof.
  unfold isDocsDir. rewrite andb_true_iff, arrayIncludes_In. split.
  - tauto.
  - intros H. split; [|exact H].
    rewrite toLowerCase_truthy.
    destruct p; [|reflexivity]. simpl in H.
    repeat (destruct H as [H|H]; [discriminate H|]). contradiction.
Qed.

(** Whether the loop returns at its first iteration. *)
Lemma categoryAt_head (p : string) (rest : list string) (next : string) :
  categoryAt (p :: rest) 0 next
  <-> isDocsDir p /\ hd_error rest = Some next /\ isCategoryName next.
Proof.
  unfold categoryAt. split.
  - intros (dir & [= <-] & Hd & Hn & Hc). destruct rest; simpl in *; auto.
  - intros (Hd & Hn & Hc). exists p. destruct rest; simpl in *; auto.
Qed.

Lemma categoryAt_tail (p : string) (rest : list string) (i : nat)
    (next : string) :
  categoryAt (p :: rest) (S i) next <-> categoryAt rest i next.
Proof. unfold categoryAt. simpl. tauto. Qed.

Lemma findCategory_Some (parts : list string) :
  forall next,
    findCategory parts = Some next <->
    exists i, categoryAt parts i next
              /\ forall j n, (j < i)%nat -> ~ categoryAt parts j n.
Proof.
  induction parts as [|p rest IH]; intros next.
  - simpl. split; [discriminate|].
    intros (i & (dir & H & _) & _). destruct i; discriminate H.
  - assert (Hskip :
      (forall n, ~ categoryAt (p :: rest) 0 n) ->
      (findCategory rest = Some next <->
       exists i, categoryAt (p :: rest) i next
                 /\ forall j n, (j < i)%nat -> ~ categoryAt (p :: rest) j n)).
    { intros H0. rewrite IH. split.
      - intros (i & Hi & Hmin). exists (S i). split.
        + apply <- categoryAt_tail. exact Hi.
        + intros [|j] n Hj; [apply H0|].
          rewrite categoryAt_tail. apply Hmin. lia.
      - intros ([|i] & Hi & Hmin); [exfalso; exact (H0 _ Hi)|].
        exists i. split; [apply -> categoryAt_tail; exact Hi|].
        intros j n Hj. rewrite <- (categoryAt_tail p). apply Hmin. lia. }
    cbn [findCategory].
    destruct (truthy (toLowerCase p)
              && arrayIncludes docsDirNames (toLowerCase p)) eqn:D.
    + apply isDocsDir_dec in D. destruct rest as [|q rest'].
      * apply Hskip. intros n H. apply categoryAt_head in H.
        destruct H as (_ & [=] & _).
      * destruct (truthy q && negb (includes q ".")) eqn:C.
        -- apply isCategoryName_dec in C. split.
           ++ intros [= <-]. exists 0%nat. split; [|intros j n Hj; lia].
              apply categoryAt_head. auto.
           ++ intros ([|i] & Hi & Hmin).
              ** apply categoryAt_head in Hi. destruct Hi as (_ & [= ->] & _).
                 reflexivity.
              ** exfalso. apply (Hmin 0%nat q); [lia|].
                 apply categoryAt_head. auto.
        -- apply Hskip. intros n H. apply categoryAt_head in H.
           destruct H as (_ & [= <-] & Hc). apply isCategoryName_dec in Hc.
           congruence.
    + apply Hskip. intros n H. apply categoryAt_head in H.
      destruct H as (Hd & _). apply isDocsDir_dec in Hd. congruence.
Qed.

Lemma findCategory_None (parts : list string) :
  findCategory parts = None <-> forall i next, ~ categoryAt parts i next.
Proof.
  induction parts as [|p rest IH].
  - simpl. split; [|reflexivity].
    intros _ i next (dir & H & _). destruct i; discriminate H.
  - assert (Hskip :
      (forall n, ~ categoryAt (p :: rest) 0 n) ->
      (findCategory rest = None <->
       forall i next, ~ categoryAt (p :: rest) i next)).
    { intros H0. rewrite IH. split.
      - intros H [|i] next; [apply H0|]. rewrite categoryAt_tail. apply H.
      - intros H i next. rewrite <- (categoryAt_tail p). apply H. }
    cbn [findCategory].
    destruct (truthy (toLowerCase p)
              && arrayIncludes docsDirNames (toLowerCase p)) eqn:D.
    + apply isDocsDir_dec in D. destruct rest as [|q rest'].
      * apply Hskip. intros n H. apply categoryAt_head in H.
        destruct H as (_ & [=] & _).
      * destruct (truthy q && negb (includes q ".")) eqn:C.
        -- apply isCategoryName_dec in C. split; [discriminate|].
           intros H. exfalso. apply (H 0%nat q). apply categoryAt_head. auto.
        -- apply Hskip. intros n H. apply categoryAt_head in H.
           destruct H as (_ & [= <-] & Hc). apply isCategoryName_dec in Hc.
           congruence.
    + apply Hskip. intros n H. apply categoryAt_head in H.
      destruct H as (Hd & _). apply isDocsDir_dec in Hd. congruence.
Qed.

(** C7 (as stated, refuted): ["my.project/README.md"] has no documentation
    directory and the parent directory ["my.project"], and its category is
    ["general"]: a parent directory whose name has a dot is not used. *)
Lemma extractCategory_dotted_parent : ~ parent_directory_fallback.
Proof.
  intros H. specialize (H "my.project/README.md" "my.project").
  cbv zeta in H.
  assert (E : extractCategory "my.project/README.md" = "my.project").
  { apply H.
    - intros p Hp Hd. vm_compute in Hp. unfold isDocsDir in Hd.
      destruct Hp as [<-|[<-|[]]]; vm_compute in Hd;
        repeat (destruct Hd as [Hd|Hd]; [discriminate Hd|]); contradiction.
    - vm_compute. lia.
    - reflexivity. }
  vm_compute in E. discriminate E.
Qed.

(** C7 (amended): with [parts] the segments of the path between slashes,
    the category is the segment after the first documentation directory
    (docs, documentation, doc, guides, wiki, whatever the case) that is
    followed by a non-empty segment without a dot; when there is none, it
    is the second-to-last segment, provided the path has one and it is
    not empty and has no dot; otherwise it is ["general"]. In particular
    ["docs/frontend/auth.md"] gives ["frontend"] and ["README.md"] gives
    ["general"]. *)
Theorem extractCategory_rule :
  forall filePath : string,
    let parts := split "/" filePath in
    (forall i next,
       categoryAt parts i next ->
       (forall j n, (j < i)%nat -> ~ categoryAt parts j n) ->
       extractCategory filePath = next)
    /\ ((forall i next, ~ categoryAt parts i next) ->
        forall parent,
          (2 <= List.length parts)%nat ->
          nth_error parts (List.length parts - 2) = Some parent ->
          (isCategoryName parent -> extractCategory filePath = parent)
          /\ (~ isCategoryName parent -> extractCategory filePath = "general"))
    /\ ((forall i next, ~ categoryAt parts i next) ->
        (List.length parts < 2)%nat ->
        extractCategory filePath = "general")
    /\ extractCategory "docs/frontend/auth.md" = "frontend"
    /\ extractCategory "README.md" = "general".
Proof.
  intros filePath parts. unfold extractCategory. fold parts.
  split; [|split; [|split; [|split; reflexivity]]].
  - intros i next Hi Hmin.
    assert (E : findCategory parts = Some next)
      by (apply findCategory_Some; exists i; auto).
    now rewrite E.
  - intros Hnone parent Hlen Hparent.
    apply findCategory_None in Hnone. rewrite Hnone.
    apply Nat.leb_le in Hlen. rewrite Hlen.
    rewrite (nth_error_nth _ _ _ Hparent).
    destruct (truthy parent && negb (includes parent ".")) eqn:C.
    + split; [reflexivity|]. intros Hn. apply isCategoryName_dec in C.
      contradiction.
    + split; [|reflexivity]. intros Hc. apply isCategoryName_dec in Hc.
      congruence.
  - intros Hnone Hlen. apply findCategory_None in Hnone. rewrite Hnone.
    apply Nat.leb_gt in Hlen. now rewrite Hlen.
Qed.

(** An instance of C7: in ["docs/frontend/auth.md"] the segment after the
    documentation directory at position 0 is the category. *)
Lemma extractCategory_rule_witness :
  categoryAt (split "/" "docs/frontend/auth.md") 0 "frontend"
  /\ extractCategory "docs/frontend/auth.md" = "frontend".
Proof.
  assert (H : categoryAt (split "/" "docs/frontend/auth.md") 0 "frontend").
  { exists "docs". repeat split.
    - left. reflexivity.
    - discriminate. }
  split; [exact H|].
  destruct (extractCategory_rule "docs/frontend/auth.md") as (Hfirst & _).
  apply (Hfirst 0%nat "frontend" H). intros j n Hj. inversion Hj.
Defined.

End ContextGeneratorFacts.

(** ** The RST parser *)

Module RSTFacts.
Import JS Parser Vocabulary StringFacts.






















End RSTFacts.

(** ** The search strategies *)

Module SearchFacts.
Import JS Types Search SearchRec Vocabulary StringFacts ListFacts.

Lemma prefix_spec (p s : string) :
  String.prefix p s = true <-> beginsWith p s.
Proof.
  unfold beginsWith. revert s. induction p as [|c p IH]; intros s.
  - destruct s; simpl; split; eauto.
  - destruct s as [|d s]; simpl.
    + split; [discriminate | intros (t & [=])].
    + destruct (ascii_dec c d) as [->|Hne].
      * rewrite IH. split; intros (t & E); exists t; congruence.
      * split; [discriminate | intros (t & [= E _]); congruence].
Qed.

(** [includes] is the substring test. *)
Lemma includes_spec (s sub : string) :
  includes s sub = true <->
  exists pre post, s = (pre ++ sub ++ post)%string.
Proof.
  induction s as [|c s IH]; cbn [includes].
  - rewrite orb_false_r, prefix_spec. split.
    + intros (t & E). exists EmptyString, t. exact E.
    + intros (pre & post & E). destruct pre; [|discriminate E].
      exists post. exact E.
  - rewrite orb_true_iff, prefix_spec, IH. split.
    + intros [(t & E)|(pre & post & E)].
      * exists EmptyString, t. exact E.
      * exists (String c pre), post. simpl. now rewrite E.
    + intros (pre & post & E). destruct pre as [|d pre].
      * left. exists post. exact E.
      * right. simpl in E. injection E as _ E. eauto.
Qed.

Lemma subsequence_refl {A : Type} (l : list A) : subsequence l l.
Proof. induction l; constructor; assumption. Qed.

Lemma subsequence_flat_map {A B : Type} (f : A -> list B) (g : B -> A)
    (l : list A) :
  (forall a, f a = [] \/ exists b, f a = [b] /\ g b = a) ->
  subsequence (map g (flat_map f l)) l.
Proof.
  intros Hf. induction l as [|a l IH]; simpl.
  - constructor.
  - destruct (Hf a) as [E|(b & E & Hb)]; rewrite E; simpl.
    + now constructor.
    + rewrite Hb. now constructor.
Qed.

(** *** Identifiers of the results *)

Lemma NoDup_flat_map_key {A B K : Type} (f : A -> list B) (ka : A -> K)
    (kb : B -> K) (l : list A) :
  (forall a, f a = [] \/ exists b, f a = [b] /\ kb b = ka a) ->
  NoDup (map ka l) -> NoDup (map kb (flat_map f l)).
Proof.
  intros Hf. induction l as [|a l IH]; simpl; intros Hnd; [constructor|].
  inversion Hnd as [|? ? Hin Hnd']; subst.
  destruct (Hf a) as [E|(b & E & Hb)]; rewrite E; simpl; [auto|].
  constructor; [|auto]. rewrite Hb. intros H. apply Hin.
  apply in_map_iff in H. destruct H as (b' & Hk & Hb').
  apply in_flat_map in Hb'. destruct Hb' as (a' & Ha' & Hb').
  destruct (Hf a') as [E'|(b'' & E' & Hb'')]; rewrite E' in Hb';
    [contradiction|].
  destruct Hb' as [<-|[]]. rewrite <- Hk, Hb''. now apply in_map.
Qed.

Lemma NoDup_key_inj {A K : Type} (key : A -> K) (l : list A) (a b : A) :
  NoDup (map key l) -> In a l -> In b l -> key a = key b -> a = b.
Proof.
  induction l as [|x l IH]; simpl; intros Hnd Ha Hb E; [contradiction|].
  inversion Hnd as [|? ? Hx Hnd']; subst.
  destruct Ha as [->|Ha], Hb as [->|Hb]; auto.
  - exfalso. apply Hx. rewrite E. now apply in_map.
  - exfalso. apply Hx. rewrite <- E. now apply in_map.
Qed.

Lemma findChunk_id (index : DocIndex) (chunkId : string) (c : DocChunk) :
  findChunk index chunkId = Some c -> id c = chunkId.
Proof.
  unfold findChunk. intros H. apply find_some in H.
  destruct H as [_ H]. now apply String.eqb_eq.
Qed.

Lemma values_entriesOf (vs : list SearchResult) :
  JMap.values (entriesOf vs) = vs.
Proof.
  unfold JMap.values, entriesOf. rewrite map_map. simpl. apply map_id.
Qed.

Lemma set_entriesOf (x : SearchResult) (vs : list SearchResult) :
  JMap.set String.eqb (resultId x) x (entriesOf vs)
  = entriesOf (setResult x vs).
Proof.
  induction vs as [|v vs IH]; simpl; [reflexivity|].
  destruct (String.eqb (resultId x) (resultId v)) eqn:E; simpl.
  - apply String.eqb_eq in E. now rewrite E.
  - now rewrite IH.
Qed.

Lemma get_entriesOf (k : string) (vs : list SearchResult) :
  JMap.get String.eqb k (entriesOf vs)
  = find (fun v => String.eqb k (resultId v)) vs.
Proof.
  induction vs as [|v vs IH]; simpl; [reflexivity|].
  destruct (String.eqb k (resultId v)); [reflexivity | exact IH].
Qed.

Lemma mergeSemantic_entriesOf (vs : list SearchResult) (s : SearchResult) :
  mergeSemantic (entriesOf vs) s = entriesOf (mergeOne vs s).
Proof.
  unfold mergeSemantic, mergeOne. rewrite get_entriesOf.
  destruct (find (fun v => String.eqb (resultId s) (resultId v)) vs)
    as [e|] eqn:F.
  - apply find_some in F. destruct F as [_ F]. apply String.eqb_eq in F.
    assert (Hid : resultId (boosted e s) = resultId s)
      by (unfold resultId, boosted; cbn; symmetry; exact F).
    rewrite <- Hid at 1. apply set_entriesOf.
  - apply set_entriesOf.
Qed.

Lemma fold_mergeSemantic (sr vs : list SearchResult) :
  fold_left mergeSemantic sr (entriesOf vs)
  = entriesOf (fold_left mergeOne sr vs).
Proof.
  revert vs. induction sr as [|s sr IH]; intros vs; simpl; [reflexivity|].
  now rewrite mergeSemantic_entriesOf, IH.
Qed.

Lemma setResult_absent (x : SearchResult) (vs : list SearchResult) :
  ~ In (resultId x) (map resultId vs) -> setResult x vs = vs ++ [x].
Proof.
  induction vs as [|v vs IH]; simpl; intros H; [reflexivity|].
  destruct (String.eqb (resultId x) (resultId v)) eqn:E.
  - apply String.eqb_eq in E. exfalso. apply H. now left.
  - rewrite IH by tauto. reflexivity.
Qed.

Lemma fold_set_keyword (kr vs : list SearchResult) :
  NoDup (map resultId (vs ++ kr)) ->
  fold_left (fun m r => JMap.set String.eqb (resultId r) r m) kr (entriesOf vs)
  = entriesOf (vs ++ kr).
Proof.
  revert vs. induction kr as [|k kr IH]; intros vs Hnd; simpl.
  - now rewrite app_nil_r.
  - rewrite set_entriesOf, setResult_absent.
    + replace (vs ++ k :: kr) with ((vs ++ [k]) ++ kr)
        by (rewrite <- app_assoc; reflexivity).
      apply IH. rewrite <- app_assoc. exact Hnd.
    + rewrite map_app in Hnd. simpl in Hnd. apply NoDup_remove_2 in Hnd.
      intros Hin. apply Hnd. apply in_or_app. now left.
Qed.

Lemma find_none_ids (k : string) (l : list SearchResult) :
  ~ In k (map resultId l) ->
  find (fun s => String.eqb (resultId s) k) l = None.
Proof.
  induction l as [|s l IH]; simpl; intros H; [reflexivity|].
  destruct (String.eqb (resultId s) k) eqn:E.
  - apply String.eqb_eq in E. tauto.
  - apply IH. tauto.
Qed.

Lemma boostedBy_cons_other (s : SearchResult) (sr : list SearchResult)
    (v : SearchResult) :
  resultId s <> resultId v -> boostedBy (s :: sr) v = boostedBy sr v.
Proof.
  intros H. unfold boostedBy. simpl.
  apply String.eqb_neq in H. now rewrite H.
Qed.

Lemma boostedBy_absent (sr : list SearchResult) (v : SearchResult) :
  ~ In (resultId v) (map resultId sr) -> boostedBy sr v = v.
Proof. intros H. unfold boostedBy. now rewrite find_none_ids. Qed.

Lemma mergeOne_present (s : SearchResult) (sr : list SearchResult) :
  ~ In (resultId s) (map resultId sr) ->
  forall vs e,
    NoDup (map resultId vs) ->
    find (fun v => String.eqb (resultId s) (resultId v)) vs = Some e ->
    map resultId (setResult (boosted e s) vs) = map resultId vs
    /\ map (boostedBy sr) (setResult (boosted e s) vs)
       = map (boostedBy (s :: sr)) vs.
Proof.
  intros Hs. induction vs as [|v vs IH]; intros e Hnd F; [discriminate F|].
  inversion Hnd as [|? ? Hin Hnd']; subst. simpl in F.
  assert (Hbid : forall e', resultId (boosted e' s) = resultId e')
    by reflexivity.
  destruct (String.eqb (resultId s) (resultId v)) eqn:E.
  - injection F as <-. apply String.eqb_eq in E.
    cbn [setResult]. rewrite Hbid, String.eqb_refl. cbn [map]. split.
    + now rewrite Hbid.
    + f_equal.
      * rewrite boostedBy_absent by (rewrite Hbid, <- E; exact Hs).
        unfold boostedBy. simpl. now rewrite E, String.eqb_refl.
      * apply map_ext_in. intros v' Hv'. symmetry.
        apply boostedBy_cons_other. rewrite E. intros H. apply Hin.
        rewrite H. now apply in_map.
  - pose proof F as F'. apply find_some in F'. destruct F' as [_ F'].
    apply String.eqb_eq in F'.
    cbn [setResult]. rewrite Hbid, <- F', E. cbn [map].
    destruct (IH e Hnd' F) as [I1 I2]. split.
    + now rewrite I1.
    + rewrite I2. f_equal. symmetry. apply boostedBy_cons_other.
      now apply String.eqb_neq.
Qed.

Lemma existsb_ids (k : string) (vs : list SearchResult) :
  existsb (fun v => String.eqb k (resultId v)) vs = true
  <-> In k (map resultId vs).
Proof.
  rewrite existsb_exists, in_map_iff. split.
  - intros (v & Hv & E). apply String.eqb_eq in E. eauto.
  - intros (v & E & Hv). exists v. split; [exact Hv|].
    now apply String.eqb_eq.
Qed.

Lemma find_ids (k : string) (vs : list SearchResult) :
  find (fun v => String.eqb k (resultId v)) vs = None
  <-> ~ In k (map resultId vs).
Proof.
  rewrite <- existsb_ids. induction vs as [|v vs IH]; simpl.
  - split; [discriminate | reflexivity].
  - destruct (String.eqb k (resultId v)); simpl.
    + split; [discriminate | congruence].
    + exact IH.
Qed.

(** The values of [mergedMap] after the loop over the semantic results:
    the values before it, each boosted by the semantic result for its
    chunk, then the semantic results for other chunks. *)
Lemma fold_mergeOne (sr : list SearchResult) :
  forall vs,
    NoDup (map resultId vs) -> NoDup (map resultId sr) ->
    fold_left mergeOne sr vs
    = map (boostedBy sr) vs ++ filter (semanticOnly vs) sr.
Proof.
  induction sr as [|s sr IH]; intros vs Hvs Hsr.
  - simpl. rewrite app_nil_r. symmetry. rewrite <- (map_id vs) at 2.
    apply map_ext. intros v. reflexivity.
  - inversion Hsr as [|? ? Hs Hsr']; subst. cbn [fold_left].
    unfold mergeOne at 2.
    destruct (find (fun v => String.eqb (resultId s) (resultId v)) vs)
      as [e|] eqn:F.
    + destruct (mergeOne_present s sr Hs vs e Hvs F) as [I1 I2].
      rewrite IH; [|rewrite I1; exact Hvs | exact Hsr'].
      rewrite I2. f_equal. cbn [filter].
      assert (Hin : semanticOnly vs s = false).
      { unfold semanticOnly. apply negb_false_iff, existsb_ids.
        destruct (in_dec string_dec (resultId s) (map resultId vs)) as [H|H];
          [exact H|]. apply find_ids in H. congruence. }
      rewrite Hin. apply filter_ext. intros s'. unfold semanticOnly.
      f_equal. apply eq_true_iff_eq. rewrite !existsb_ids, I1. tauto.
    + apply find_ids in F.
      rewrite setResult_absent by exact F.
      rewrite IH; [| |exact Hsr'].
      * rewrite map_app. cbn [map]. rewrite <- app_assoc. cbn [app].
        rewrite (boostedBy_absent sr s Hs). f_equal.
        -- apply map_ext_in. intros v Hv. symmetry.
           apply boostedBy_cons_other. intros H. apply F. rewrite H.
           now apply in_map.
        -- cbn [filter].
           assert (Hout : semanticOnly vs s = true).
           { unfold semanticOnly. apply negb_true_iff.
             apply not_true_is_false. rewrite existsb_ids. exact F. }
           rewrite Hout. f_equal. apply filter_ext_in. intros s' Hs'.
           unfold semanticOnly. f_equal. apply eq_true_iff_eq.
           rewrite !existsb_ids, map_app, in_app_iff. simpl.
           split; [|tauto]. intros [H|[H|[]]]; [exact H|].
           exfalso. apply Hs. rewrite H. now apply in_map.
      * rewrite map_app. simpl. apply NoDup_app; auto.
        -- repeat constructor. simpl. tauto.
        -- intros a Ha [<-|[]]. tauto.
Qed.

Lemma mergeResults_values (kr sr : list SearchResult) :
  NoDup (map resultId kr) -> NoDup (map resultId sr) ->
  mergeResults kr sr = map (boostedBy sr) kr ++ filter (semanticOnly kr) sr.
Proof.
  intros Hkr Hsr. unfold mergeResults.
  change (@nil (string * SearchResult)) with (entriesOf []).
  rewrite fold_set_keyword by exact Hkr. cbn [app].
  rewrite fold_mergeSemantic, values_entriesOf.
  now apply fold_mergeOne.
Qed.

Lemma boostedBy_found (sr : list SearchResult) (k s : SearchResult) :
  NoDup (map resultId sr) -> In s sr -> resultId k = resultId s ->
  boostedBy sr k = boosted k s.
Proof.
  intros Hnd Hs E. unfold boostedBy.
  destruct (find (fun s0 => String.eqb (resultId s0) (resultId k)) sr)
    as [s'|] eqn:F.
  - apply find_some in F. destruct F as [Hs' F]. apply String.eqb_eq in F.
    f_equal. apply (NoDup_key_inj resultId sr); congruence.
  - exfalso. apply (find_none _ _ F) in Hs.
    rewrite E, String.eqb_refl in Hs. discriminate Hs.
Qed.

Lemma mergeResults_In (kr sr : list SearchResult) (r : SearchResult) :
  NoDup (map resultId kr) -> NoDup (map resultId sr) ->
  (In r (mergeResults kr sr) <->
   (exists k s, In k kr /\ In s sr /\ resultId k = resultId s
                /\ r = boosted k s)
   \/ (In r kr /\ ~ In (resultId r) (map resultId sr))
   \/ (In r sr /\ ~ In (resultId r) (map resultId kr))).
Proof.
  intros Hkr Hsr. rewrite mergeResults_values by assumption.
  rewrite in_app_iff, in_map_iff, filter_In. split.
  - intros [(k & <- & Hk)|[Hr Hf]].
    + unfold boostedBy.
      destruct (find (fun s => String.eqb (resultId s) (resultId k)) sr)
        as [s|] eqn:F.
      * apply find_some in F. destruct F as [Hs F].
        apply String.eqb_eq in F. left. exists k, s. auto.
      * right. left. split; [exact Hk|]. intros Hin.
        apply in_map_iff in Hin. destruct Hin as (s & E & Hs).
        apply (find_none _ _ F) in Hs.
        rewrite E, String.eqb_refl in Hs. discriminate Hs.
    + right. right. split; [exact Hr|].
      unfold semanticOnly in Hf. apply negb_true_iff in Hf.
      rewrite <- existsb_ids. congruence.
  - intros [(k & s & Hk & Hs & E & ->)|[[Hr Hn]|[Hr Hn]]].
    + left. exists k. split; [|exact Hk]. now apply boostedBy_found.
    + left. exists r. split; [|exact Hr]. now apply boostedBy_absent.
    + right. split; [exact Hr|].
      unfold semanticOnly. apply negb_true_iff, not_true_is_false.
      now rewrite existsb_ids.
Qed.

Lemma float_09_06 : 0.9%float <> 0.6%float.
Proof.
  intros E. apply (f_equal (fun x => (x <? 0.7)%float)) in E.
  vm_compute in E. discriminate E.
Qed.

Lemma float_08_06 : 0.8%float <> 0.6%float.
Proof.
  intros E. apply (f_equal (fun x => (x <? 0.7)%float)) in E.
  vm_compute in E. discriminate E.
Qed.

Lemma sortResults_perm (l : list SearchResult) : Permutation (sortResults l) l.
Proof.
  assert (Hins : forall x sorted,
            Permutation (insertResult x sorted) (x :: sorted)).
  { intros x sorted. induction sorted as [|y rest IH]; simpl; [reflexivity|].
    destruct (before y x); [|reflexivity].
    rewrite IH. apply perm_swap. }
  induction l as [|x l IH]; simpl; [reflexivity|].
  rewrite Hins. now constructor.
Qed.

Lemma tier_order (a b : float) :
  tierScore a -> tierScore b ->
  ((a - b <? 0)%float = true -> (a <=? b)%float = true)
  /\ ((a - b <? 0)%float = false -> (b <=? a)%float = true).
Proof.
  unfold tierScore. intros [-> | [-> | ->]] [-> | [-> | ->]];
    split; vm_compute; congruence.
Qed.

Lemma insertResult_head (x : SearchResult) (sorted : list SearchResult) :
  hd_error (insertResult x sorted) = Some x
  \/ (hd_error (insertResult x sorted) = hd_error sorted
      /\ exists y, hd_error sorted = Some y /\ before y x = true).
Proof.
  destruct sorted as [|y rest]; simpl; [now left|].
  destruct (before y x) eqn:E; simpl; [right | now left].
  split; [reflexivity | eauto].
Qed.

Lemma insertResult_descending (x : SearchResult) (sorted : list SearchResult) :
  tierScore (score x) -> Forall (fun r => tierScore (score r)) sorted ->
  descending sorted -> descending (insertResult x sorted).
Proof.
  unfold descending. intros Hx. induction sorted as [|y rest IH];
    intros Hall Hd; simpl; [auto|].
  inversion Hall as [|? ? Hy Hrest]; subst.
  destruct (before y x) eqn:E.
  - cbn [neighbours]. split.
    + destruct (insertResult_head x rest) as [H|[H (z & Hz & _)]].
      * destruct (insertResult x rest); [exact I|].
        simpl in H. injection H as ->.
        unfold before in E. now apply (tier_order (score x) (score y)).
      * destruct (insertResult x rest) as [|w t]; [exact I|].
        simpl in H. destruct rest as [|z' rest']; [discriminate Hz|].
        simpl in H. injection H as ->. simpl in Hd. tauto.
    + apply IH; [exact Hrest|]. simpl in Hd. tauto.
  - cbn [neighbours]. split; [|exact Hd].
    unfold before in E. now apply (tier_order (score x) (score y)).
Qed.

Lemma sortResults_descending (l : list SearchResult) :
  Forall (fun r => tierScore (score r)) l -> descending (sortResults l).
Proof.
  induction l as [|x l IH]; intros Hall; simpl; [exact I|].
  inversion Hall as [|? ? Hx Hl]; subst.
  apply insertResult_descending; auto.
  refine (Permutation_Forall _ Hl).
  symmetry. apply sortResults_perm.
Qed.

Lemma neighbours_firstn {A : Type} (R : A -> A -> Prop) (n : nat) :
  forall l, neighbours R l -> neighbours R (firstn n l).
Proof.
  induction n as [|n IH]; intros l H; [exact I|].
  destruct l as [|x l]; [exact I|]. cbn [firstn neighbours]. split.
  - destruct n; [exact I|]. destruct l as [|y l]; [exact I|].
    simpl in H. simpl. tauto.
  - apply IH. simpl in H. tauto.
Qed.

Lemma slice0_firstn {A : Type} (limit : Z) (l : list A) :
  0 <= limit -> slice0 limit l = firstn (Z.to_nat limit) l.
Proof.
  intros H. unfold slice0.
  destruct (limit <? 0) eqn:E; [apply Z.ltb_lt in E; lia|].
  destruct (Z.le_ge_cases limit (Z.of_nat (List.length l))) as [Hle|Hge].
  - now rewrite Z.min_l.
  - rewrite Z.min_r by exact Hge. rewrite Nat2Z.id.
    rewrite !firstn_all2; [reflexivity| lia | lia].
Qed.

(** *** The keyword search *)

Section Keyword.
Variable minimatch : string -> string -> bool.

Lemma existsb_heading (q : string) (hs : list string) :
  existsb (fun h => includes (toLowerCase h) q) hs = true <->
  exists h, In h hs /\ occursIn q (toLowerCase h).
Proof.
  rewrite existsb_exists.
  split; intros (h & Hh & E); exists h; (split; [exact Hh|]);
    apply includes_spec; exact E.
Qed.

(** What a chunk adds to the keyword results: nothing, or one result at
    the highest tier that matches. *)
Lemma keywordResult_cases (q : string) (filters : option SearchFilters)
    (c : DocChunk) :
  (keywordResult minimatch q filters c = []
   /\ ~ (matchesFilters minimatch c filters = true
        /\ exists r, scoresAtTier c q r))
  \/ exists r,
       keywordResult minimatch q filters c = [r]
       /\ matchesFilters minimatch c filters = true
       /\ chunk r = c /\ scoresAtTier c q r.
Proof.
  unfold keywordResult, keywordScore, scoresAtTier. cbv zeta.
  destruct (matchesFilters minimatch c filters);
    [|left; split; [reflexivity | intros [[=] _]]].
  destruct (includes (toLowerCase (context c)) q) eqn:E1.
  { right. eexists. split; [reflexivity|]. split; [reflexivity|].
    split; [reflexivity|]. left. apply includes_spec in E1. cbn. auto. }
  assert (N1 : ~ occursIn q (toLowerCase (context c))).
  { intros H. apply includes_spec in H. congruence. }
  destruct (existsb (fun h => includes (toLowerCase h) q) (hierarchy c)) eqn:E2.
  { right. eexists. split; [reflexivity|]. split; [reflexivity|].
    split; [reflexivity|]. right. left. apply existsb_heading in E2.
    cbn. auto. }
  assert (N2 : ~ exists h, In h (hierarchy c) /\ occursIn q (toLowerCase h)).
  { intros H. apply existsb_heading in H. congruence. }
  destruct (includes (ContextGenerator.generateSearchableText c) q) eqn:E3.
  { right. eexists. split; [reflexivity|]. split; [reflexivity|].
    split; [reflexivity|]. right. right.
    unfold ContextGenerator.generateSearchableText in E3.
    apply includes_spec in E3. cbn. auto. }
  left. split; [reflexivity|].
  intros (_ & r & [(H & _)|[(_ & H & _)|(_ & _ & H & _)]]).
  - exact (N1 H).
  - exact (N2 H).
  - apply includes_spec in H.
    unfold ContextGenerator.generateSearchableText in E3.
    cbv zeta in E3. cbn [app] in E3. congruence.
Qed.

Lemma scoresAtTier_unique (c : DocChunk) (q : string) (r r' : SearchResult) :
  scoresAtTier c q r -> scoresAtTier c q r' ->
  score r = score r' /\ match_reason r = match_reason r'.
Proof. unfold scoresAtTier. intuition congruence. Qed.

Lemma keywordSearch_In (index : DocIndex) (query : string)
    (filters : option SearchFilters) (r : SearchResult) :
  In r (keywordSearch minimatch index query filters) <->
  exists c, In c (allChunks index)
            /\ matchesFilters minimatch c filters = true
            /\ chunk r = c /\ scoresAtTier c (toLowerCase query) r.
Proof.
  unfold keywordSearch. rewrite in_flat_map. split.
  - intros (c & Hc & Hr). exists c. split; [exact Hc|].
    destruct (keywordResult_cases (toLowerCase query) filters c)
      as [[E _]|(r' & E & Hm & Hch & Ht)]; rewrite E in Hr.
    + contradiction.
    + destruct Hr as [<-|[]]. auto.
  - intros (c & Hc & Hm & Hch & Ht). exists c. split; [exact Hc|].
    destruct (keywordResult_cases (toLowerCase query) filters c)
      as [[_ Hno]|(r' & E & _ & Hch' & Ht')].
    + exfalso. apply Hno. eauto.
    + rewrite E. left.
      destruct (scoresAtTier_unique _ _ _ _ Ht Ht') as [Hs Hr].
      destruct r, r'. simpl in *. congruence.
Qed.

(** C4: in the exact mode a result is returned for a chunk exactly when
    the chunk passes the filters and the lower-cased query occurs in one
    of the three fields, and it then carries the score and the reason of
    the highest tier that matches, once: 0.9 and "context match" when
    the query occurs in the lower-cased context, else 0.8 and "heading
    match" when it occurs in a lower-cased heading of the path, else 0.6
    and "content match" when it occurs in the lower-cased text made of
    the context, the headings and the content joined by spaces. The
    chunks of the results are chunks of the index in their order, each
    at most once. The query "authentication" finds the chunk with the
    context "frontend > Authentication: uses JWT tokens" with the score
    0.9 and the reason "context match", although its heading and its
    content match too; "Login" matches a heading only, "refresh" the
    content only, and "zebra" nothing. *)
Theorem keywordSearch_tiers :
  forall (index : DocIndex) (query : string) (filters : option SearchFilters),
    (forall r,
       In r (keywordSearch minimatch index query filters) <->
       exists c, In c (allChunks index)
                 /\ matchesFilters minimatch c filters = true
                 /\ chunk r = c /\ scoresAtTier c (toLowerCase query) r)
    /\ subsequence (map chunk (keywordSearch minimatch index query filters))
         (allChunks index)
    /\ keywordSearch minimatch Samples.sampleIndex "authentication" None
       = [ {| chunk := Samples.authChunk; score := 0.9%float;
              match_reason := "context match" |} ]
    /\ keywordSearch minimatch Samples.loginIndex "Login" None
       = [ {| chunk := Samples.loginChunk; score := 0.8%float;
              match_reason := "heading match" |} ]
    /\ keywordSearch minimatch Samples.sampleIndex "refresh" None
       = [ {| chunk := Samples.setupChunk; score := 0.6%float;
              match_reason := "content match" |} ]
    /\ keywordSearch minimatch Samples.sampleIndex "zebra" None = [].
Proof.
  intros index query filters. split; [|split; [|split; [|split; [|split]]]].
  - intros r. apply keywordSearch_In.
  - unfold keywordSearch. apply subsequence_flat_map. intros c.
    destruct (keywordResult_cases (toLowerCase query) filters c)
      as [[E _]|(r & E & _ & Hch & _)]; eauto.
  - reflexivity.
  - reflexivity.
  - reflexivity.
  - reflexivity.
Qed.

Lemma keywordSearch_ids (index : DocIndex) (query : string)
    (filters : option SearchFilters) :
  uniqueIds index ->
  NoDup (map resultId (keywordSearch minimatch index query filters)).
Proof.
  unfold keywordSearch, uniqueIds. apply NoDup_flat_map_key. intros c.
  destruct (keywordResult_cases (toLowerCase query) filters c)
    as [[E _]|(r & E & _ & Hch & _)]; [now left|].
  right. exists r. split; [exact E|]. unfold resultId. now rewrite Hch.
Qed.

Lemma keywordSearch_scores (index : DocIndex) (query : string)
    (filters : option SearchFilters) :
  Forall (fun r => tierScore (score r))
    (keywordSearch minimatch index query filters).
Proof.
  apply Forall_forall. intros r Hr. apply keywordSearch_In in Hr.
  destruct Hr as (c & _ & _ & _ & T). unfold scoresAtTier in T.
  cbv zeta in T. unfold tierScore.
  destruct T as [(_ & T & _)|[(_ & _ & T & _)|(_ & _ & _ & T & _)]]; auto.
Qed.

End Keyword.

(** *** The semantic search and the hybrid merge *)

Section Strategies.
Variable minimatch : string -> string -> bool.
Variable generateEmbedding : string -> option (list float).
Variable cosineSimilarity : list float -> list float -> float.

Lemma semanticResult_cases (index : DocIndex) (filters : option SearchFilters)
    (q : list float) (entry : string * Float32Array) :
  semanticResult minimatch cosineSimilarity index filters q entry = []
  \/ exists r,
       semanticResult minimatch cosineSimilarity index filters q entry = [r]
       /\ resultId r = fst entry
       /\ match_reason r = "semantic similarity"
       /\ findChunk index (fst entry) = Some (chunk r)
       /\ score r = cosineSimilarity q (snd entry).
Proof.
  unfold semanticResult. destruct entry as [chunkId e]. cbn [fst snd].
  destruct (findChunk index chunkId) as [c|] eqn:F; [|now left].
  destruct (matchesFilters minimatch c filters); [|now left].
  destruct (0.3 <? cosineSimilarity q e)%float; [|now left].
  right. eexists. split; [reflexivity|]. cbn.
  repeat split. unfold resultId. cbn. now apply findChunk_id in F.
Qed.

Lemma semanticSearch_ids (index : DocIndex) (query : string)
    (filters : option SearchFilters) :
  JMap.wf (embeddings index) ->
  NoDup (map resultId
           (semanticSearch minimatch generateEmbedding cosineSimilarity index
              query filters)).
Proof.
  unfold semanticSearch, JMap.wf, JMap.keys. intros Hwf.
  destruct (generateEmbedding query) as [q|]; [|constructor].
  apply (NoDup_flat_map_key _ fst); [|exact Hwf]. intros entry.
  destruct (semanticResult_cases index filters q entry)
    as [E|(r & E & Hid & _)]; [now left|].
  right. exists r. auto.
Qed.

Lemma semanticSearch_reason (index : DocIndex) (query : string)
    (filters : option SearchFilters) (s : SearchResult) :
  In s (semanticSearch minimatch generateEmbedding cosineSimilarity index
          query filters) ->
  match_reason s = "semantic similarity".
Proof.
  unfold semanticSearch. destruct (generateEmbedding query) as [q|];
    [|contradiction].
  intros H. apply in_flat_map in H. destruct H as (entry & _ & H).
  destruct (semanticResult_cases index filters q entry)
    as [E|(r & E & _ & Hr & _)]; rewrite E in H; [contradiction|].
  destruct H as [<-|[]]. exact Hr.
Qed.

(** In the default mode the keyword and the semantic search run on
    their own and their results are merged by chunk identifier. On an
    index whose chunk identifiers are distinct, the merged list is the
    keyword results in their order, each with the score of the semantic
    result for the same chunk added and the two reasons joined by " + "
    when there is one, followed by the semantic results for the other
    chunks: a result for a chunk found by both has the sum of the two
    scores, a result for a chunk found by one alone is that result. A
    chunk found with the keyword score 0.6 and the similarity 0.4 gets
    the score 1 and the reason "content match + semantic similarity". *)
Theorem hybrid_sum_rule :
  forall (index : DocIndex) (query : string) (filters : option SearchFilters),
    uniqueIds index ->
    JMap.wf (embeddings index) ->
    let kr := keywordSearch minimatch index query filters in
    let sr := semanticSearch minimatch generateEmbedding cosineSimilarity
                index query filters in
    let merged := semanticSearchWithKeyword minimatch generateEmbedding
                    cosineSimilarity index query filters in
    merged = map (boostedBy sr) kr ++ filter (semanticOnly kr) sr
    /\ (forall r,
          In r merged <->
          (exists k s,
             In k kr /\ In s sr /\ resultId k = resultId s
             /\ r = {| chunk := chunk k;
                       score := (score k + score s)%float;
                       match_reason :=
                         (match_reason k ++ " + " ++ match_reason s)%string |})
          \/ (In r kr /\ ~ In (resultId r) (map resultId sr))
          \/ (In r sr /\ ~ In (resultId r) (map resultId kr)))
    /\ (forall k s,
          In k kr -> In s sr -> resultId k = resultId s ->
          score k = 0.6%float -> score s = 0.4%float ->
          In {| chunk := chunk k; score := 1%float;
                match_reason := "content match + semantic similarity" |}
             merged).
Proof.
  intros index query filters Hids Hwf kr sr merged.
  assert (Hkr : NoDup (map resultId kr)) by (apply keywordSearch_ids, Hids).
  assert (Hsr : NoDup (map resultId sr)) by (apply semanticSearch_ids, Hwf).
  assert (HIn : forall r,
    In r merged <->
    (exists k s, In k kr /\ In s sr /\ resultId k = resultId s
                 /\ r = boosted k s)
    \/ (In r kr /\ ~ In (resultId r) (map resultId sr))
    \/ (In r sr /\ ~ In (resultId r) (map resultId kr)))
    by (intros r; apply mergeResults_In; assumption).
  split; [|split].
  - apply mergeResults_values; assumption.
  - exact HIn.
  - intros k s Hk Hs E Sk Ss. apply HIn. left. exists k, s.
    repeat split; try assumption.
    unfold boosted. rewrite Sk, Ss.
    rewrite (semanticSearch_reason index query filters s Hs).
    assert (Hreason : match_reason k = "content match").
    { apply keywordSearch_In in Hk.
      destruct Hk as (c & _ & _ & _ & [T|[T|T]]).
      - destruct T as (_ & T & _). rewrite Sk in T.
        exfalso. apply float_09_06. now symmetry.
      - destruct T as (_ & _ & T & _). rewrite Sk in T.
        exfalso. apply float_08_06. now symmetry.
      - tauto. }
    rewrite Hreason. reflexivity.
Qed.

(** When no embedding can be produced for the query, the semantic
    search returns the empty list, and on an index whose chunk
    identifiers are distinct the search in the semantic mode returns what
    the exact mode returns: the keyword results, sorted by a stable sort
    so that the scores do not increase, and cut by [slice(0, limit)],
    which keeps the first [limit] results when [limit] is not negative. *)
Theorem semantic_mode_degrades :
  forall (index : DocIndex) (query : string) (filters : option SearchFilters)
         (limit : Z),
    generateEmbedding query = None ->
    uniqueIds index ->
    let run := searchDocumentation minimatch generateEmbedding
                 cosineSimilarity index query in
    let kr := keywordSearch minimatch index query filters in
    semanticSearch minimatch generateEmbedding cosineSimilarity index query
      filters = []
    /\ run Semantic filters limit = slice0 limit (sortResults kr)
    /\ run Semantic filters limit = run Exact filters limit
    /\ Permutation (sortResults kr) kr
    /\ descending (sortResults kr)
    /\ descending (run Semantic filters limit)
    /\ (0 <= limit ->
        run Semantic filters limit = firstn (Z.to_nat limit) (sortResults kr)).
Proof.
  intros index query filters limit Hnone Hids run kr.
  assert (Hsem : semanticSearch minimatch generateEmbedding cosineSimilarity
                   index query filters = [])
    by (unfold semanticSearch; now rewrite Hnone).
  assert (Hrun : run Semantic filters limit = slice0 limit (sortResults kr)).
  { unfold run, searchDocumentation, semanticSearchWithKeyword.
    rewrite Hsem. fold kr.
    rewrite mergeResults_values;
      [|apply keywordSearch_ids, Hids | constructor].
    cbn [filter]. rewrite app_nil_r.
    replace (map (boostedBy []) kr) with kr; [reflexivity|].
    rewrite <- (map_id kr) at 1. apply map_ext. reflexivity. }
  assert (Hdesc : descending (sortResults kr))
    by (apply sortResults_descending, keywordSearch_scores).
  repeat split.
  - exact Hsem.
  - exact Hrun.
  - rewrite Hrun. reflexivity.
  - apply sortResults_perm.
  - exact Hdesc.
  - rewrite Hrun. unfold slice0, descending. apply neighbours_firstn, Hdesc.
  - intros Hlimit. rewrite Hrun. now apply slice0_firstn.
Qed.

End Strategies.

(** An instance: with every similarity at 0.4, the query "refresh"
    finds the second sample chunk by its content (0.6) and by its
    embedding, with the score 1 and the two reasons. *)
Lemma hybrid_sum_rule_witness :
  uniqueIds Samples.sampleIndex
  /\ JMap.wf (embeddings Samples.sampleIndex)
  /\ In {| chunk := Samples.setupChunk; score := 1%float;
           match_reason := "content match + semantic similarity" |}
        (semanticSearchWithKeyword (fun _ _ => true)
           (fun _ => Some [1%float]) (fun _ _ => 0.4%float)
           Samples.sampleIndex "refresh" None).
Proof.
  assert (U : uniqueIds Samples.sampleIndex)
    by (repeat constructor; simpl; intuition discriminate).
  assert (W : JMap.wf (embeddings Samples.sampleIndex))
    by (repeat constructor; simpl; intuition discriminate).
  split; [exact U | split; [exact W|]].
  destruct (hybrid_sum_rule (fun _ _ => true) (fun _ => Some [1%float])
              (fun _ _ => 0.4%float) Samples.sampleIndex "refresh" None U W)
    as (_ & _ & H).
  apply (H {| chunk := Samples.setupChunk; score := 0.6%float;
              match_reason := "content match" |}
           {| chunk := Samples.setupChunk; score := 0.4%float;
              match_reason := "semantic similarity" |}).
  - left. reflexivity.
  - right. left. reflexivity.
  - reflexivity.
  - reflexivity.
  - reflexivity.
Defined.

(** An instance: without an embedding provider, the query "the"
    in the semantic mode with limit 1 returns one of the two matching
    sample chunks, as the exact mode does. *)
Lemma semantic_mode_degrades_witness :
  (fun _ : string => @None (list float)) "the" = None
  /\ uniqueIds Samples.sampleIndex
  /\ searchDocumentation (fun _ _ => true) (fun _ => None)
       (fun _ _ => 0%float) Samples.sampleIndex "the" Semantic None 1
     = searchDocumentation (fun _ _ => true) (fun _ => None)
         (fun _ _ => 0%float) Samples.sampleIndex "the" Exact None 1.
Proof.
  assert (U : uniqueIds Samples.sampleIndex)
    by (repeat constructor; simpl; intuition discriminate).
  split; [reflexivity | split; [exact U|]].
  destruct (semantic_mode_degrades (fun _ _ => true) (fun _ => None)
              (fun _ _ => 0%float) Samples.sampleIndex "the" None 1
              eq_refl U)
    as (_ & _ & H & _).
  exact H.
Defined.

End SearchFacts.

(** ** The numbers integers denote *)

Module NumberFacts.
Import JSMath StorageVocabulary.

Lemma digits2_log2 (p : positive) :
  Z.pos (digits2_pos p) = Z.log2 (Z.pos p) + 1.
Proof.
  assert (S : forall q, digits2_pos q = Pos.size q)
    by (induction q; simpl; congruence).
  destruct p; simpl; rewrite ?S; lia.
Qed.

Lemma iter_pos_nat {A : Type} (f : A -> A) (k : positive) (x : A) :
  iter_pos f k x = Nat.iter (Pos.to_nat k) f x.
Proof.
  revert x. induction k as [k IH|k IH|]; intros x; cbn [iter_pos].
  - rewrite !IH. rewrite Pos2Nat.inj_xI.
    replace (S (2 * Pos.to_nat k))%nat with (Pos.to_nat k + (Pos.to_nat k + 1))%nat by lia.
    rewrite !Nat.iter_add. simpl. reflexivity.
  - rewrite !IH. rewrite Pos2Nat.inj_xO.
    replace (2 * Pos.to_nat k)%nat with (Pos.to_nat k + Pos.to_nat k)%nat by lia.
    rewrite Nat.iter_add. reflexivity.
  - reflexivity.
Qed.

Lemma shr_1_m (mrs : shr_record) :
  0 <= shr_m mrs -> shr_m (shr_1 mrs) = shr_m mrs / 2.
Proof.
  destruct mrs as [m r s]. simpl. intros H.
  destruct m as [|[p|p|]|p]; simpl; try reflexivity; try lia.
  - rewrite Pos2Z.inj_xI. apply Z.div_unique with 1; lia.
  - rewrite Pos2Z.inj_xO. apply Z.div_unique with 0; lia.
Qed.

Lemma iter_shr_m (n : nat) (mrs : shr_record) :
  0 <= shr_m mrs ->
  shr_m (Nat.iter n shr_1 mrs) = shr_m mrs / 2 ^ Z.of_nat n.
Proof.
  intros H. induction n as [|n IH].
  - simpl. now rewrite Z.div_1_r.
  - rewrite Nat.iter_succ. rewrite shr_1_m.
    + rewrite IH. rewrite Nat2Z.inj_succ, Z.pow_succ_r by lia.
      rewrite Z.div_div by lia. f_equal. lia.
    + rewrite IH. apply Z.div_pos; lia.
Qed.

Lemma shr_m_iter_pos (k : positive) (mrs : shr_record) :
  0 <= shr_m mrs ->
  shr_m (iter_pos shr_1 k mrs) = shr_m mrs / 2 ^ Z.pos k.
Proof.
  intros H. rewrite iter_pos_nat, iter_shr_m by exact H.
  now rewrite positive_nat_Z.
Qed.

Lemma digits_shiftl (p k : positive) :
  Z.pos (digits2_pos (Pos.iter xO p k)) = Z.pos (digits2_pos p) + Z.pos k.
Proof.
  induction k as [|k IH] using Pos.peano_ind.
  - simpl. lia.
  - rewrite Pos.iter_succ. cbn [digits2_pos]. lia.
Qed.

(** The number of binary digits of a quotient by a power of two. *)
Lemma log2_div_pow2 (a k : Z) :
  0 < a -> 0 <= k -> k <= Z.log2 a ->
  0 < a / 2 ^ k /\ Z.log2 (a / 2 ^ k) = Z.log2 a - k.
Proof.
  intros Ha Hk Hle. split.
  - apply Z.div_str_pos. split; [apply Z.pow_pos_nonneg; lia|].
    transitivity (2 ^ Z.log2 a).
    + apply Z.pow_le_mono_r; lia.
    + apply Z.log2_spec. exact Ha.
  - rewrite <- Z.shiftr_div_pow2 by exact Hk.
    rewrite Z.log2_shiftr by exact Ha. lia.
Qed.

Lemma shr_m_of_loc (m : Z) (l : location) : shr_m (shr_record_of_loc m l) = m.
Proof. destruct l as [|[| |]]; reflexivity. Qed.

(** [shr_fexp] on a mantissa of at least [prec] digits, far from the
    underflow: the digits beyond the first [prec] are shifted out. *)
Lemma shr_fexp_shape (m : positive) (e : Z) (l : location) :
  53 <= Z.pos (digits2_pos m) -> -1074 <= e ->
  exists mrs,
    shr_fexp prec emax (Z.pos m) e l
    = (mrs, e + (Z.pos (digits2_pos m) - 53))
    /\ shr_m mrs = Z.pos m / 2 ^ (Z.pos (digits2_pos m) - 53).
Proof.
  intros HD He. unfold shr_fexp, Zdigits2, fexp, emin, prec, emax.
  replace (Z.max (Z.pos (digits2_pos m) + e - 53) (3 - 1024 - 53) - e)
    with (Z.pos (digits2_pos m) - 53) by lia.
  destruct (Z.pos (digits2_pos m) - 53) as [|k|k] eqn:K; [| |lia].
  - exists (shr_record_of_loc (Z.pos m) l). cbn [shr]. split.
    + f_equal. lia.
    + rewrite shr_m_of_loc. now rewrite Z.div_1_r.
  - exists (iter_pos shr_1 k (shr_record_of_loc (Z.pos m) l)). cbn [shr].
    split; [reflexivity|].
    rewrite shr_m_iter_pos; rewrite shr_m_of_loc; [reflexivity | lia].
Qed.

Lemma log2_52 (m : Z) : 0 < m -> (Z.log2 m = 52 <-> 2 ^ 52 <= m < 2 ^ 53).
Proof.
  intros Hm. split.
  - intros H. pose proof (Z.log2_spec m Hm) as S. rewrite H in S.
    exact S.
  - intros H. apply Z.log2_unique; [lia|]. exact H.
Qed.

Lemma round_nearest_even_bounds (m : Z) (l : location) :
  m <= round_nearest_even m l <= m + 1.
Proof.
  unfold round_nearest_even. destruct l as [|[| |]]; try lia.
  destruct (Z.even m); lia.
Qed.

(** Rounding a positive integer mantissa at an exponent that is far
    from the underflow gives a finite number or an infinity of the same
    sign, and a number of the format. *)
Lemma binary_round_aux_shape (sx : bool) (m : positive) (e : Z) :
  53 <= Z.pos (digits2_pos m) -> -1074 <= e ->
  let B := binary_round_aux prec emax sx (Z.pos m) e loc_Exact in
  SpecFloat.valid_binary prec emax B = true
  /\ ((exists m' e', B = S754_finite sx m' e') \/ B = S754_infinity sx).
Proof.
  intros HD He B. unfold B, binary_round_aux.
  destruct (shr_fexp_shape m e loc_Exact HD He) as (mrs1 & E1 & M1).
  rewrite E1.
  set (e1 := e + (Z.pos (digits2_pos m) - 53)) in *.
  pose proof (digits2_log2 m) as Dm.
  destruct (log2_div_pow2 (Z.pos m) (Z.pos (digits2_pos m) - 53))
    as [P1 L1]; [lia | lia | lia |].
  rewrite <- M1 in P1, L1.
  assert (L1' : Z.log2 (shr_m mrs1) = 52) by lia.
  apply log2_52 in L1'; [|exact P1].
  pose proof (round_nearest_even_bounds (shr_m mrs1)
                (loc_of_shr_record mrs1)) as R.
  set (m2 := round_nearest_even (shr_m mrs1) (loc_of_shr_record mrs1)) in *.
  destruct m2 as [|q|q] eqn:Q; [lia| |lia].
  assert (He1 : -1074 <= e1) by (unfold e1; lia).
  assert (HD2 : 53 <= Z.pos (digits2_pos q)).
  { rewrite digits2_log2.
    assert (52 <= Z.log2 (Z.pos q)); [|lia].
    apply Z.log2_le_pow2; lia. }
  destruct (shr_fexp_shape q e1 loc_Exact HD2 He1) as (mrs2 & E2 & M2).
  rewrite E2.
  assert (H3 : 2 ^ 52 <= shr_m mrs2 < 2 ^ 53).
  { rewrite M2. rewrite digits2_log2 in *.
    assert (Hq : Z.log2 (Z.pos q) = 52 \/ Z.pos q = 2 ^ 53).
    { destruct (Z.eq_dec (Z.pos q) (2 ^ 53)) as [->|N]; [now right|].
      left. apply log2_52; lia. }
    destruct Hq as [Hq|Hq].
    - rewrite Hq. replace (52 + 1 - 53) with 0 by lia.
      rewrite Z.pow_0_r, Z.div_1_r. apply log2_52; [lia | exact Hq].
    - rewrite Hq. rewrite Z.log2_pow2 by lia.
      replace (53 + 1 - 53) with 1 by lia.
      change (2 ^ 53 / 2 ^ 1) with (2 ^ 52). lia. }
  destruct (shr_m mrs2) as [|m3|m3] eqn:Q3; [lia| |lia].
  set (e3 := e1 + (Z.pos (digits2_pos q) - 53)) in *.
  unfold prec, emax.
  destruct (e3 <=? 1024 - 53) eqn:Le.
  - split; [|left; eauto].
    cbn [valid_binary]. unfold bounded, canonical_mantissa, fexp, emin.
    rewrite Le, andb_true_r. apply Z.eqb_eq.
    rewrite digits2_log2.
    assert (Z.log2 (Z.pos m3) = 52) by (apply log2_52; lia).
    assert (-1074 <= e3) by (unfold e3; lia).
    lia.
  - split; [reflexivity | now right].
Qed.

Lemma binary_round_shape (sx : bool) (p : positive) :
  let B := binary_round prec emax sx p 0 in
  SpecFloat.valid_binary prec emax B = true
  /\ ((exists m' e', B = S754_finite sx m' e') \/ B = S754_infinity sx).
Proof.
  unfold binary_round, shl_align, fexp, emin, prec, emax.
  pose proof (digits2_log2 p) as Dp.
  pose proof (Z.log2_nonneg (Z.pos p)) as Lp.
  replace (Z.max (Z.pos (digits2_pos p) + 0 - 53) (3 - 1024 - 53) - 0)
    with (Z.pos (digits2_pos p) - 53) by lia.
  replace (Z.max (Z.pos (digits2_pos p) + 0 - 53) (3 - 1024 - 53))
    with (Z.pos (digits2_pos p) - 53) by lia.
  destruct (Z.pos (digits2_pos p) - 53) as [|k|k] eqn:K.
  - apply (binary_round_aux_shape sx p 0); lia.
  - apply (binary_round_aux_shape sx p 0); lia.
  - apply (binary_round_aux_shape sx (Pos.iter xO p k) (Z.neg k)).
    + rewrite digits_shiftl. lia.
    + lia.
Qed.

(** The specification of the number an integer denotes. *)
Lemma ofInteger_spec (n : Z) :
  Prim2SF (ofInteger n) = binary_normalize prec emax n 0 false.
Proof.
  unfold ofInteger. apply FloatAxioms.Prim2SF_SF2Prim.
  destruct n as [|p|p]; [reflexivity| |];
    apply (binary_round_shape _ p).
Qed.

(** An integer never denotes the negative zero. *)
Lemma ofInteger_positiveZero (n : Z) :
  positiveZero (ofInteger n) = ofInteger n.
Proof.
  unfold positiveZero. rewrite FloatAxioms.eqb_spec, ofInteger_spec.
  destruct n as [|p|p]; [reflexivity| |]; cbn [binary_normalize].
  - destruct (binary_round_shape false p) as [_ [(m' & e' & E)|E]];
      rewrite E; reflexivity.
  - destruct (binary_round_shape true p) as [_ [(m' & e' & E)|E]];
      rewrite E; reflexivity.
Qed.

End NumberFacts.

(** ** The index store *)

Module StorageFacts.
Import JS Types Storage StorageVocabulary.

Lemma forEach_map {A B C : Type} (f : B -> Outcome C) (g : A -> B)
    (h : A -> C) (l : list A) :
  (forall a, In a l -> f (g a) = Returned (h a)) ->
  forEach f (map g l) = Returned (map h l).
Proof.
  induction l as [|a l IH]; intros H; simpl; [reflexivity|].
  rewrite (H a (or_introl eq_refl)). simpl.
  rewrite IH by (intros b Hb; apply H; now right). reflexivity.
Qed.


Lemma numbersOf_numbers {Extension : Type} (xs : list float) :
  numbersOf Extension (map Number xs) = Some xs.
Proof.
  induction xs as [|x xs IH]; simpl; [reflexivity|]. now rewrite IH.
Qed.

Lemma toFloat32Array_id (v : Float32Array) :
  Forall isFloat32 v -> toFloat32Array v = v.
Proof.
  unfold toFloat32Array. induction 1 as [|x v H _ IH]; simpl; [reflexivity|].
  now rewrite H, IH.
Qed.

Lemma positiveZero_float32 (x : float) :
  isFloat32 x -> isFloat32 (positiveZero x).
Proof.
  unfold positiveZero. intros H. destruct (x =? 0)%float; [|exact H].
  reflexivity.
Qed.

Lemma positiveZero_idempotent (x : float) :
  positiveZero (positiveZero x) = positiveZero x.
Proof.
  unfold positiveZero. destruct (x =? 0)%float eqn:E; [reflexivity|].
  now rewrite E.
Qed.

Section Load.
Variable Extension : Type.
Variable extensionGet : Extension -> string -> Value Extension.
Variable extensionItems : Extension -> Outcome (list (Value Extension)).
Variable extensionIsObject : Extension -> bool.
Variable extensionSame : Extension -> Extension -> bool.
Variable extensionEmptyTypedArray : Extension -> bool.
Variable constructFloat32Array : Value Extension -> Outcome Float32Array.
Variable Bytes : Type.
Variable pack : Value Extension -> Bytes.
Variable unpack : Bytes -> option (Value Extension).
Variable lockAvailable : string -> bool.

Local Abbreviation property := (Storage.property Extension extensionGet).
Local Abbreviation newMap :=
  (Storage.newMap Extension extensionGet extensionItems extensionIsObject
     extensionSame).
Local Abbreviation embeddingsOf :=
  (Storage.embeddingsOf Extension extensionItems extensionSame
     extensionEmptyTypedArray constructFloat32Array).
Local Abbreviation deserialize :=
  (Storage.deserialize Extension extensionGet extensionItems
     extensionIsObject extensionSame extensionEmptyTypedArray
     constructFloat32Array).
Local Abbreviation loadIndex :=
  (Storage.loadIndex Extension extensionGet extensionItems
     extensionIsObject extensionSame extensionEmptyTypedArray
     constructFloat32Array Bytes unpack lockAvailable).
Local Abbreviation saveIndex := (Storage.saveIndex Extension Bytes pack lockAvailable).

Local Abbreviation builds :=
  (StorageVocabulary.builds Extension extensionGet extensionItems
     extensionIsObject extensionSame extensionEmptyTypedArray
     constructFloat32Array).
Local Abbreviation keyed := (@StorageVocabulary.keyed Extension _).

Lemma deserialize_builds (serialized : Value Extension)
    (index : LoadedIndex Extension) :
  deserialize serialized = Returned (Some index) <-> builds serialized index.
Proof.
  unfold Storage.deserialize, StorageVocabulary.builds, andThen. split.
  - destruct (property serialized "version") as [v|] eqn:Hv; [|discriminate].
    destruct (isIndexVersion Extension v) eqn:Hi; cbn [negb]; [|discriminate].
    destruct v as [| | | |s| | |]; try discriminate Hi.
    apply String.eqb_eq in Hi. subst s.
    destruct (property serialized "chunks") as [c|]; [|discriminate].
    destruct (newMap c) as [cm|] eqn:Hc; [|discriminate].
    destruct (property serialized "embeddings") as [e|]; [|discriminate].
    destruct (embeddingsOf e) as [em|] eqn:He; [|discriminate].
    destruct (property serialized "indexedAt") as [i|]; [|discriminate].
    destruct (property serialized "fileCount") as [fc|]; [|discriminate].
    destruct (property serialized "chunkCount") as [cc|]; [|discriminate].
    intros [= <-]. exists c, e. cbn. repeat split; assumption.
  - intros (c & e & Hv & Hc & Hcm & He & Hem & Hver & Hi & Hf & Hn).
    rewrite Hv. cbn. rewrite Hc, Hcm, He, Hem, Hi, Hf, Hn.
    destruct index as [cm em [v i f n]]. cbn in *. now subst.
Qed.

(** C8 (amended): [loadIndex] returns the "no index" result of a
    missing file when the lock cannot be acquired, when the file cannot
    be read, when [unpack] rejects its bytes, when the version it holds
    is not the string of the current version (no version at all
    included), and when its chunks or its embeddings cannot be made into
    maps; it never migrates. Nothing else is checked: an index is
    returned exactly when the stored object has the current version and
    the two maps can be built, and it then holds whatever the file
    holds. So a file of the current version that declares no counts and
    no time, and a number in the place of a list of chunks, is loaded as
    an index, and so is a file that holds the version and an empty list
    of embeddings alone; a file that holds the version alone is not,
    because reading the entries of its embeddings throws. *)
Theorem loadIndex_fails_closed :
  forall (indexPath : string) (fs : FileSystem Bytes),
    let loaded := loadIndex indexPath fs in
    (fs indexPath = None -> loaded = None)
    /\ (lockAvailable indexPath = false -> loaded = None)
    /\ (fs indexPath = Some (Unreadable Bytes) -> loaded = None)
    /\ (forall buffer,
          fs indexPath = Some (Readable Bytes buffer) ->
          unpack buffer = None -> loaded = None)
    /\ (forall buffer serialized,
          fs indexPath = Some (Readable Bytes buffer) ->
          unpack buffer = Some serialized ->
          property serialized "version" <> Returned (Text INDEX_VERSION) ->
          loaded = None)
    /\ (forall buffer serialized storedChunks storedEmbeddings,
          fs indexPath = Some (Readable Bytes buffer) ->
          unpack buffer = Some serialized ->
          property serialized "chunks" = Returned storedChunks ->
          property serialized "embeddings" = Returned storedEmbeddings ->
          newMap storedChunks = Thrown
          \/ embeddingsOf storedEmbeddings = Thrown ->
          loaded = None)
    /\ (forall index,
          loaded = Some index <->
          exists buffer serialized,
            fs indexPath = Some (Readable Bytes buffer)
            /\ lockAvailable indexPath = true
            /\ unpack buffer = Some serialized
            /\ builds serialized index)
    /\ (forall buffer,
          fs indexPath = Some (Readable Bytes buffer) ->
          lockAvailable indexPath = true ->
          unpack buffer = Some StoredSamples.uncheckedFile ->
          loaded
          = Some {| chunks := [(Text "docs/a.md", Number 5)];
                    embeddings := [];
                    metadata :=
                      {| version := Text "1.0.0"; indexedAt := Undefined;
                         fileCount := Undefined;
                         chunkCount := Undefined |} |})
    /\ (forall buffer,
          fs indexPath = Some (Readable Bytes buffer) ->
          lockAvailable indexPath = true ->
          unpack buffer = Some StoredSamples.bareFile ->
          loaded
          = Some {| chunks := [];
                    embeddings := [];
                    metadata :=
                      {| version := Text "1.0.0"; indexedAt := Undefined;
                         fileCount := Undefined;
                         chunkCount := Undefined |} |})
    /\ (forall buffer,
          fs indexPath = Some (Readable Bytes buffer) ->
          unpack buffer = Some StoredSamples.versionOnlyFile ->
          loaded = None).
Proof.
  intros indexPath fs loaded.
  assert (Hiff : forall index,
    loaded = Some index <->
    exists buffer serialized,
      fs indexPath = Some (Readable Bytes buffer)
      /\ lockAvailable indexPath = true
      /\ unpack buffer = Some serialized
      /\ builds serialized index).
  { intros index. unfold loaded, Storage.loadIndex, withLock. split.
    - destruct (fs indexPath) as [[buffer|]|] eqn:F; [| |discriminate].
      + destruct (lockAvailable indexPath) eqn:L; [|discriminate].
        destruct (unpack buffer) as [serialized|] eqn:U; [|discriminate].
        destruct (deserialize serialized) as [r|] eqn:D; [|discriminate].
        intros ->. exists buffer, serialized.
        split; [reflexivity|]. split; [reflexivity|]. split; [exact U|].
        now apply deserialize_builds.
      + destruct (lockAvailable indexPath); discriminate.
    - intros (buffer & serialized & -> & -> & -> & B).
      apply deserialize_builds in B. now rewrite B. }
  assert (Hnone : (forall index, loaded <> Some index) -> loaded = None).
  { destruct loaded as [index|]; [|reflexivity].
    intros H. now destruct (H index). }
  split; [|split; [|split; [|split; [|split; [|split; [|split;
    [|split; [|split]]]]]]]].
  - intros F. apply Hnone. intros index H. apply Hiff in H.
    destruct H as (b & s & F' & _). congruence.
  - intros L. apply Hnone. intros index H. apply Hiff in H.
    destruct H as (b & s & _ & L' & _). congruence.
  - intros F. apply Hnone. intros index H. apply Hiff in H.
    destruct H as (b & s & F' & _). congruence.
  - intros buffer F U. apply Hnone. intros index H. apply Hiff in H.
    destruct H as (b & s & F' & _ & U' & _). congruence.
  - intros buffer serialized F U V. apply Hnone. intros index H.
    apply Hiff in H. destruct H as (b & s & F' & _ & U' & B).
    destruct B as (c & e & Hv & _). apply V.
    assert (b = buffer) by congruence. subst b.
    assert (s = serialized) by congruence. subst s. exact Hv.
  - intros buffer serialized c e F U Hc He Hthrown. apply Hnone.
    intros index H. apply Hiff in H.
    destruct H as (b & s & F' & _ & U' & B).
    assert (b = buffer) by congruence. subst b.
    assert (s = serialized) by congruence. subst s.
    destruct B as (c' & e' & _ & Hc' & Hcm & He' & Hem & _).
    assert (c' = c) by congruence. assert (e' = e) by congruence. subst.
    destruct Hthrown as [T|T]; congruence.
  - exact Hiff.
  - intros buffer F L U. apply Hiff. exists buffer, StoredSamples.uncheckedFile.
    repeat split; try assumption.
    exists (Array [Array [Text "docs/a.md"; Number 5]]), (Array []).
    repeat split.
  - intros buffer F L U. apply Hiff. exists buffer, StoredSamples.bareFile.
    repeat split; try assumption.
    exists Undefined, (Array []). repeat split.
  - intros buffer F U. apply Hnone. intros index H. apply Hiff in H.
    destruct H as (b & s & F' & _ & U' & B).
    assert (b = buffer) by congruence. subst b.
    assert (s = StoredSamples.versionOnlyFile) by congruence. subst s.
    destruct B as (c & e & _ & _ & _ & He & Hem & _).
    cbn in He. injection He as <-. discriminate Hem.
Qed.

Lemma set_keyed_fresh {V : Type} (k : string) (v : V)
    (m : list (string * V)) :
  ~ In k (map fst m) ->
  JMap.set (sameValueZero Extension extensionSame) (Text k) v (keyed m)
  = keyed (m ++ [(k, v)]).
Proof.
  induction m as [|[k' v'] m IH]; intros H; [reflexivity|].
  unfold keyed in *. cbn [map fst snd app] in *. cbn [JMap.set].
  change (sameValueZero Extension extensionSame (Text k) (Text k'))
    with (String.eqb k k').
  destruct (String.eqb k k') eqn:E.
  - apply String.eqb_eq in E. subst. exfalso. apply H. now left.
  - rewrite IH by (intros Hin; apply H; now right). reflexivity.
Qed.

Lemma fold_set_keyed {V : Type} (l m0 : list (string * V)) :
  NoDup (map fst (m0 ++ l)) ->
  fold_left
    (fun m kv =>
       JMap.set (sameValueZero Extension extensionSame) (fst kv) (snd kv) m)
    (keyed l) (keyed m0)
  = keyed (m0 ++ l).
Proof.
  revert m0. induction l as [|[k v] l IH]; intros m0 Hnd; simpl.
  - now rewrite app_nil_r.
  - assert (Hk : ~ In k (map fst m0)).
    { rewrite map_app in Hnd. simpl in Hnd.
      apply NoDup_remove_2 in Hnd. intros Hin. apply Hnd.
      apply in_or_app. now left. }
    rewrite set_keyed_fresh by exact Hk.
    replace (m0 ++ (k, v) :: l) with ((m0 ++ [(k, v)]) ++ l)
      by (rewrite <- app_assoc; reflexivity).
    apply IH. rewrite <- app_assoc. exact Hnd.
Qed.

(** [new Map] of the entries of a map keyed by distinct strings is that
    map. *)
Lemma mapOf_keyed {V : Type} (m : list (string * V)) :
  NoDup (map fst m) ->
  mapOf Extension extensionSame (keyed m) = keyed m.
Proof.
  intros Hnd. unfold mapOf, JMap.ofEntries.
  replace (map (fun entry => (keyOf Extension (fst entry), snd entry))
             (keyed m))
    with (keyed m).
  - apply (fold_set_keyed m []). exact Hnd.
  - unfold keyed. rewrite map_map. apply map_ext. now intros [k v].
Qed.

Lemma keyed_map {A V : Type} (g : A -> V) (m : list (string * A)) :
  keyed (map (fun entry => (fst entry, g (snd entry))) m)
  = map (fun entry => (Text (fst entry), g (snd entry))) m.
Proof. unfold keyed. rewrite map_map. reflexivity. Qed.

Lemma mapOf_keyed_map {A V : Type} (g : A -> V) (m : list (string * A)) :
  NoDup (map fst m) ->
  mapOf Extension extensionSame
    (map (fun entry => (Text (fst entry), g (snd entry))) m)
  = map (fun entry => (Text (fst entry), g (snd entry))) m.
Proof.
  intros Hnd. rewrite <- keyed_map. apply mapOf_keyed.
  rewrite map_map. exact Hnd.
Qed.

Lemma keys_map {A V : Type} (g : A -> V) (m : list (string * A)) :
  map fst (map (fun entry => (fst entry, g (snd entry))) m) = map fst m.
Proof. rewrite map_map. reflexivity. Qed.

(** What is built from the object [saveIndex] packs: the maps as they
    were, and the metadata with the current version. *)
Lemma deserialize_serialize (index : DocIndex) :
  JMap.wf (Types.chunks index) ->
  JMap.wf (Types.embeddings index) ->
  float32Vectors index ->
  deserialize (serialize index)
  = Returned
      (Some (loaded
               {| Types.chunks := Types.chunks index;
                  Types.embeddings := Types.embeddings index;
                  Types.metadata :=
                    {| Types.version := INDEX_VERSION;
                       Types.indexedAt := Types.indexedAt (Types.metadata index);
                       Types.fileCount := Types.fileCount (Types.metadata index);
                       Types.chunkCount :=
                         Types.chunkCount (Types.metadata index) |} |})).
Proof.
  intros Hc He Hf. apply deserialize_builds.
  exists
    (Array
       (map (fun entry =>
               Array [Text (fst entry); Array (map chunkValue (snd entry))])
          (Types.chunks index))),
    (Array
       (map (fun entry =>
               Array [Text (fst entry);
                      Array (map Number (arrayFrom (snd entry)))])
          (Types.embeddings index))).
  split; [reflexivity|]. split; [reflexivity|]. split.
  { unfold Storage.newMap, andThen, iterate.
    rewrite (forEach_map _ _
               (fun entry =>
                  (Text (fst entry), Array (map chunkValue (snd entry))))).
    - f_equal.
      apply (mapOf_keyed_map (fun cs => Array (map chunkValue cs))).
      exact Hc.
    - reflexivity. }
  split; [reflexivity|]. split.
  { unfold Storage.embeddingsOf, andThen.
    rewrite (forEach_map _ _ (fun entry => (Text (fst entry), snd entry))).
    - f_equal. apply (mapOf_keyed_map (fun v => v)). exact He.
    - intros [k v] Hin. unfold embeddingEntry, andThen, iterate, arrayFrom.
      cbn [nth fst snd newFloat32Array].
      rewrite numbersOf_numbers.
      rewrite toFloat32Array_id; [reflexivity|].
      unfold float32Vectors in Hf.
      exact (proj1 (Forall_forall _ _) Hf (k, v) Hin). }
  repeat split.
Qed.

Lemma reloaded_float32 (index : DocIndex) :
  float32Vectors index -> float32Vectors (reloaded index).
Proof.
  unfold float32Vectors, reloaded. cbn [Types.embeddings].
  intros H. apply Forall_map. eapply Forall_impl; [|exact H].
  intros [k v] Hv. cbn [snd] in *. apply Forall_map.
  eapply Forall_impl; [|exact Hv]. intros x. apply positiveZero_float32.
Qed.

Lemma reloaded_same (index : DocIndex) :
  Types.version (Types.metadata index) = INDEX_VERSION ->
  withoutNegativeZero index ->
  reloaded index = index.
Proof.
  unfold withoutNegativeZero, reloaded.
  destruct index as [c e [v i f n]]. cbn. intros -> H. f_equal.
  induction H as [|[k x] e Hx _ IH]; cbn; [reflexivity|].
  rewrite IH. f_equal. f_equal. cbn in Hx.
  induction Hx as [|y x Hy _ IHx]; cbn; [reflexivity|].
  now rewrite Hy, IHx.
Qed.

Lemma readBack_integer (n : Z) :
  readBack (integer (Extension := Extension) n) = integer n.
Proof.
  unfold integer. cbn [readBack].
  now rewrite NumberFacts.ofInteger_positiveZero.
Qed.

Lemma readBack_texts (l : list string) :
  map readBack (map (Text (Extension := Extension)) l) = map Text l.
Proof. rewrite map_map. reflexivity. Qed.

Lemma readBack_chunkValue (c : DocChunk) :
  readBack (chunkValue (Extension := Extension) c) = chunkValue c.
Proof.
  unfold chunkValue. cbn [readBack]. f_equal. rewrite map_app.
  cbn [map fst snd readBack]. rewrite !readBack_integer, readBack_texts.
  f_equal. destruct (chunkMetadata c) as [[w t]|]; [|reflexivity].
  cbn [map fst snd readBack]. now rewrite !readBack_integer.
Qed.

Lemma readBack_numbers (v : list float) :
  map readBack (map (Number (Extension := Extension)) v)
  = map Number (map positiveZero v).
Proof. rewrite !map_map. reflexivity. Qed.

Lemma readBack_chunkEntries (m : list (string * list DocChunk)) :
  map readBack
    (map (fun entry =>
            Array (Extension := Extension)
              [Text (fst entry); Array (map chunkValue (snd entry))]) m)
  = map (fun entry =>
           Array [Text (fst entry); Array (map chunkValue (snd entry))]) m.
Proof.
  rewrite map_map. apply map_ext. intros [k cs].
  cbn [readBack map fst snd]. do 4 f_equal.
  rewrite map_map. apply map_ext. intros c. apply readBack_chunkValue.
Qed.

Lemma readBack_embeddingEntries (m : list (string * Float32Array)) :
  map readBack
    (map (fun entry =>
            Array (Extension := Extension)
              [Text (fst entry); Array (map Number (arrayFrom (snd entry)))])
       m)
  = map (fun entry =>
           Array [Text (fst entry); Array (map Number (arrayFrom (snd entry)))])
      (map (fun entry => (fst entry, map positiveZero (snd entry))) m).
Proof.
  rewrite !map_map. apply map_ext. intros [k v].
  cbn [readBack map fst snd]. unfold arrayFrom. do 4 f_equal.
  apply readBack_numbers.
Qed.

(** What msgpackr reads back from the serialized index: the serialized
    index with zero for every negative zero of a vector; no other number
    of it is a negative zero. *)
Lemma readBack_serialize (index : DocIndex) :
  readBack (serialize (Extension := Extension) index)
  = serialize (reloaded index).
Proof.
  unfold serialize, reloaded.
  cbn [readBack map fst snd Types.chunks Types.embeddings Types.metadata
       Types.indexedAt Types.fileCount Types.chunkCount].
  rewrite !readBack_integer, readBack_chunkEntries,
    readBack_embeddingEntries.
  reflexivity.
Qed.

(** Loading what was saved: the lock is acquired twice, the file holds
    what [pack] made of the serialized index, and what [unpack] reads
    back is built into an index again. *)
Lemma load_after_save (index : DocIndex) (indexPath : string)
    (fs : FileSystem Bytes) :
  lockAvailable indexPath = true ->
  unpack (pack (serialize index)) = Some (readBack (serialize index)) ->
  JMap.wf (Types.chunks index) ->
  JMap.wf (Types.embeddings index) ->
  float32Vectors index ->
  saveIndex index indexPath fs
  = Returned (writeFileSync Bytes indexPath (pack (serialize index)) fs)
  /\ loadIndex indexPath
       (writeFileSync Bytes indexPath (pack (serialize index)) fs)
     = Some (loaded (reloaded index)).
Proof.
  intros Hlock Hpack Hc He Hf. split.
  - unfold Storage.saveIndex, withLock. now rewrite Hlock.
  - unfold Storage.loadIndex, writeFileSync, withLock.
    rewrite String.eqb_refl, Hlock, Hpack, readBack_serialize.
    rewrite deserialize_serialize.
    + reflexivity.
    + exact Hc.
    + unfold JMap.wf, JMap.keys, reloaded. cbn [Types.embeddings].
      rewrite keys_map. exact He.
    + now apply reloaded_float32.
Qed.

(** C3 (amended): for every index, the empty one included, whose maps
    have distinct keys and whose vectors hold binary32 numbers, saving and
    then loading, under a lock that can be acquired and with a
    serializer that reads back the serialized index as it was packed
    but for the negative zero, read back as zero (msgpackr packs it as
    the integer 0), returns the chunks map, the embeddings map with the
    numbers of every vector, a negative zero loaded as zero, and
    indexedAt, fileCount and chunkCount as they were, with the current
    version as the version: the index itself when it carries the current
    version and no vector holds the negative zero. *)
Theorem loadIndex_saveIndex :
  forall (index : DocIndex) (indexPath : string) (fs : FileSystem Bytes),
    lockAvailable indexPath = true ->
    unpack (pack (serialize index)) = Some (readBack (serialize index)) ->
    JMap.wf (Types.chunks index) ->
    JMap.wf (Types.embeddings index) ->
    float32Vectors index ->
    exists fs',
      saveIndex index indexPath fs = Returned fs'
      /\ loadIndex indexPath fs' = Some (loaded (reloaded index))
      /\ (Types.version (Types.metadata index) = INDEX_VERSION ->
          withoutNegativeZero index ->
          loadIndex indexPath fs' = Some (loaded index)).
Proof.
  intros index indexPath fs Hlock Hpack Hc He Hf.
  destruct (load_after_save index indexPath fs Hlock Hpack Hc He Hf)
    as [Hsave Hload].
  exists (writeFileSync Bytes indexPath (pack (serialize index)) fs).
  split; [exact Hsave|]. split; [exact Hload|].
  intros Hv Hz. rewrite Hload. now rewrite reloaded_same.
Qed.

End Load.

Lemma negative_zero_differs (xs : list float) :
  xs = [0.5%float; 0%float] -> xs <> [0.5%float; (- 0)%float].
Proof.
  intros -> H.
  apply (f_equal (fun l => match l with
                           | [_; x] => (1 / x <? 0)%float
                           | _ => false
                           end)) in H.
  vm_compute in H. discriminate H.
Qed.

(** C8 (as stated, refuted): a stored file of the current version that
    declares no counts and no time, and a number in the place of a list
    of chunks, is not discarded: for every serializer that decodes the
    file to this object, an index is returned that holds the number as
    the chunks of docs/a.md and [undefined] as its time, and that is no
    index of the declared type. *)
Lemma loadIndex_trusts_unchecked_file :
  (forall (Extension : Type)
          (extensionGet : Extension -> string -> Value Extension)
          (extensionItems : Extension -> Outcome (list (Value Extension)))
          (extensionIsObject : Extension -> bool)
          (extensionSame : Extension -> Extension -> bool)
          (extensionEmptyTypedArray : Extension -> bool)
          (constructFloat32Array : Value Extension -> Outcome Float32Array)
          (Bytes : Type) (unpack : Bytes -> option (Value Extension))
          (lockAvailable : string -> bool)
          (indexPath : string) (fs : FileSystem Bytes) (buffer : Bytes),
     fs indexPath = Some (Readable Bytes buffer) ->
     lockAvailable indexPath = true ->
     unpack buffer = Some StoredSamples.uncheckedFile ->
     exists index,
       loadIndex Extension extensionGet extensionItems extensionIsObject
         extensionSame extensionEmptyTypedArray constructFloat32Array
         Bytes unpack lockAvailable indexPath fs
       = Some index
       /\ chunks Extension index = [(Text "docs/a.md", Number 5)]
       /\ indexedAt Extension (metadata Extension index) = Undefined
       /\ forall typed : DocIndex, index <> loaded typed)
  /\ ~ loads_indexes_only.
Proof.
  assert (General :
    forall (Extension : Type)
           (extensionGet : Extension -> string -> Value Extension)
           (extensionItems : Extension -> Outcome (list (Value Extension)))
           (extensionIsObject : Extension -> bool)
           (extensionSame : Extension -> Extension -> bool)
           (extensionEmptyTypedArray : Extension -> bool)
           (constructFloat32Array : Value Extension -> Outcome Float32Array)
           (Bytes : Type) (unpack : Bytes -> option (Value Extension))
           (lockAvailable : string -> bool)
           (indexPath : string) (fs : FileSystem Bytes) (buffer : Bytes),
      fs indexPath = Some (Readable Bytes buffer) ->
      lockAvailable indexPath = true ->
      unpack buffer = Some StoredSamples.uncheckedFile ->
      exists index,
        loadIndex Extension extensionGet extensionItems extensionIsObject
          extensionSame extensionEmptyTypedArray constructFloat32Array
          Bytes unpack lockAvailable indexPath fs
        = Some index
        /\ chunks Extension index = [(Text "docs/a.md", Number 5)]
        /\ indexedAt Extension (metadata Extension index) = Undefined
        /\ forall typed : DocIndex, index <> loaded typed).
  { intros Extension extensionGet extensionItems extensionIsObject
      extensionSame extensionEmptyTypedArray constructFloat32Array Bytes
      unpack lockAvailable indexPath fs buffer F L U.
    eexists. unfold loadIndex, withLock. rewrite F, L, U.
    split; [reflexivity|]. split; [reflexivity|]. split; [reflexivity|].
    intros typed H.
    apply (f_equal (fun i => indexedAt Extension (metadata Extension i))) in H.
    discriminate H. }
  split; [exact General|].
  intros Claim.
  destruct (General Empty_set StoredSamples.noProperty StoredSamples.noItems
              StoredSamples.never StoredSamples.neverSame StoredSamples.never
              (fun _ => Thrown) (Value Empty_set) (fun v => Some v)
              (fun _ => true) "index.msgpack"
              (fun _ => Some (Readable _ StoredSamples.uncheckedFile))
              StoredSamples.uncheckedFile eq_refl eq_refl eq_refl)
    as (index & Hload & _ & _ & Hno).
  destruct (Claim _ _ _ _ _ _ _ _ _ _ _ _ _ Hload) as [typed Ht].
  exact (Hno typed Ht).
Qed.

(** An instance of C8: a stored index of the version "0.9.0" is not
    loaded, whatever the runtime makes of its fields. *)
Lemma loadIndex_fails_closed_witness :
  property Empty_set StoredSamples.noProperty StoredSamples.oldStoredIndex
    "version"
  <> Returned (Text INDEX_VERSION)
  /\ forall constructFloat32Array,
       StoredSamples.memoryLoad constructFloat32Array "index.msgpack"
         (fun _ => Some (Readable _ StoredSamples.oldStoredIndex))
       = None.
Proof.
  assert (H : property Empty_set StoredSamples.noProperty
                StoredSamples.oldStoredIndex "version"
              <> Returned (Text INDEX_VERSION)) by discriminate.
  split; [exact H|].
  intros constructFloat32Array.
  destruct (loadIndex_fails_closed Empty_set StoredSamples.noProperty
              StoredSamples.noItems StoredSamples.never
              StoredSamples.neverSame StoredSamples.never
              constructFloat32Array (Value Empty_set)
              (fun v => Some (readBack v)) (fun _ => true) "index.msgpack"
              (fun _ => Some (Readable _ StoredSamples.oldStoredIndex)))
    as (_ & _ & _ & _ & Hversion & _).
  exact (Hversion StoredSamples.oldStoredIndex StoredSamples.oldStoredIndex
           eq_refl eq_refl H).
Defined.

(** C3 (as stated, refuted): the index the scan builds for one file
    whose embedding holds the negative zero carries the current version,
    and comes back with zero in the place of the negative zero, for
    every serializer that reads the negative zero back as zero. *)
Lemma roundtrip_loses_negative_zero :
  (Types.version (Types.metadata StoredSamples.negativeZeroIndex)
   = INDEX_VERSION
   /\ Types.embeddings StoredSamples.negativeZeroIndex
      = [("docs/a.md:0", [0.5%float; (- 0)%float])])
  /\ (forall (Extension : Type)
             (extensionGet : Extension -> string -> Value Extension)
             (extensionItems : Extension -> Outcome (list (Value Extension)))
             (extensionIsObject : Extension -> bool)
             (extensionSame : Extension -> Extension -> bool)
             (extensionEmptyTypedArray : Extension -> bool)
             (constructFloat32Array :
                Value Extension -> Outcome Float32Array)
             (Bytes : Type) (pack : Value Extension -> Bytes)
             (unpack : Bytes -> option (Value Extension))
             (lockAvailable : string -> bool)
             (indexPath : string) (fs : FileSystem Bytes),
        lockAvailable indexPath = true ->
        unpack (pack (serialize StoredSamples.negativeZeroIndex))
        = Some (readBack (serialize StoredSamples.negativeZeroIndex)) ->
        exists fs' index,
          saveIndex Extension Bytes pack lockAvailable
            StoredSamples.negativeZeroIndex indexPath fs
          = Returned fs'
          /\ loadIndex Extension extensionGet extensionItems
               extensionIsObject extensionSame extensionEmptyTypedArray
               constructFloat32Array Bytes unpack lockAvailable indexPath fs'
             = Some index
          /\ firstVector index = [0.5%float; 0%float]
          /\ index <> loaded StoredSamples.negativeZeroIndex)
  /\ ~ roundtrip_identity.
Proof.
  assert (E : StoredSamples.negativeZeroIndex
              = {| Types.chunks :=
                     Types.chunks StoredSamples.negativeZeroIndex;
                   Types.embeddings :=
                     [("docs/a.md:0", [0.5%float; (- 0)%float])];
                   Types.metadata :=
                     {| Types.version := INDEX_VERSION;
                        Types.indexedAt := 1700000000000;
                        Types.fileCount := 1;
                        Types.chunkCount := 1 |} |})
    by (vm_compute; reflexivity).
  assert (Wc : JMap.wf (Types.chunks StoredSamples.negativeZeroIndex)).
  { unfold JMap.wf, JMap.keys.
    replace (map fst (Types.chunks StoredSamples.negativeZeroIndex))
      with ["docs/a.md"] by (vm_compute; reflexivity).
    repeat constructor. simpl. tauto. }
  assert (We : JMap.wf (Types.embeddings StoredSamples.negativeZeroIndex)).
  { rewrite E. repeat constructor. simpl. tauto. }
  assert (Wf : float32Vectors StoredSamples.negativeZeroIndex).
  { unfold float32Vectors. rewrite E. repeat constructor. }
  assert (Hfirst : forall Extension : Type,
            firstVector (Extension := Extension)
              (loaded StoredSamples.negativeZeroIndex)
            = [0.5%float; (- 0)%float]).
  { intros Extension. unfold firstVector, loaded. rewrite E. reflexivity. }
  assert (Hback : forall Extension : Type,
            firstVector (Extension := Extension)
              (loaded (reloaded StoredSamples.negativeZeroIndex))
            = [0.5%float; 0%float]).
  { intros Extension. unfold firstVector, loaded, reloaded. rewrite E.
    reflexivity. }
  split; [|split].
  - split; [vm_compute; reflexivity|]. rewrite E. reflexivity.
  - intros Extension extensionGet extensionItems extensionIsObject
      extensionSame extensionEmptyTypedArray constructFloat32Array Bytes
      pack unpack lockAvailable indexPath fs L P.
    destruct (load_after_save Extension extensionGet extensionItems
                extensionIsObject extensionSame extensionEmptyTypedArray
                constructFloat32Array Bytes pack unpack lockAvailable
                StoredSamples.negativeZeroIndex indexPath fs L P Wc We Wf)
      as [Hsave Hload].
    eexists. eexists. split; [exact Hsave|]. split; [exact Hload|].
    split; [apply Hback|].
    intros H. apply (f_equal firstVector) in H.
    rewrite Hfirst in H. revert H. apply negative_zero_differs.
    apply Hback.
  - intros Claim.
    assert (P : Some (readBack (serialize (Extension := Empty_set)
                                  StoredSamples.negativeZeroIndex))
                = Some (readBack (serialize StoredSamples.negativeZeroIndex)))
      by reflexivity.
    destruct (Claim Empty_set StoredSamples.noProperty StoredSamples.noItems
                StoredSamples.never StoredSamples.neverSame
                StoredSamples.never (fun _ => Thrown) (Value Empty_set)
                (fun v => v) (fun v => Some (readBack v)) (fun _ => true)
                StoredSamples.negativeZeroIndex "index.msgpack"
                (StoredSamples.noFiles _) eq_refl P Wc We Wf)
      as (fs' & Hsave & Hload).
    destruct (load_after_save Empty_set StoredSamples.noProperty
                StoredSamples.noItems StoredSamples.never
                StoredSamples.neverSame StoredSamples.never
                (fun _ => Thrown) (Value Empty_set) (fun v => v)
                (fun v => Some (readBack v)) (fun _ => true)
                StoredSamples.negativeZeroIndex "index.msgpack"
                (StoredSamples.noFiles _) eq_refl P Wc We Wf)
      as [Hsave' Hload'].
    rewrite Hsave' in Hsave. injection Hsave as <-.
    rewrite Hload' in Hload.
    apply (f_equal (fun r => match r with
                             | Some i => firstVector i
                             | None => []
                             end)) in Hload.
    cbv beta iota in Hload. rewrite Hfirst in Hload.
    revert Hload. apply negative_zero_differs. apply Hback.
Qed.

(** An instance of C3: the sample index, whose vectors hold no negative
    zero, saved into an empty file system and read back as msgpackr
    reads, is loaded as it was. *)
Lemma loadIndex_saveIndex_witness :
  Some (readBack (serialize (Extension := Empty_set) Samples.sampleIndex))
  = Some (readBack (serialize Samples.sampleIndex))
  /\ JMap.wf (Types.chunks Samples.sampleIndex)
  /\ JMap.wf (Types.embeddings Samples.sampleIndex)
  /\ float32Vectors Samples.sampleIndex
  /\ withoutNegativeZero Samples.sampleIndex
  /\ forall constructFloat32Array,
     exists fs',
       StoredSamples.memorySave Samples.sampleIndex "index.msgpack"
         (StoredSamples.noFiles _)
       = Returned fs'
       /\ StoredSamples.memoryLoad constructFloat32Array "index.msgpack" fs'
          = Some (loaded Samples.sampleIndex).
Proof.
  assert (P : Some (readBack (serialize (Extension := Empty_set)
                                Samples.sampleIndex))
              = Some (readBack (serialize Samples.sampleIndex)))
    by reflexivity.
  assert (Wc : JMap.wf (Types.chunks Samples.sampleIndex))
    by (repeat constructor; simpl; intuition discriminate).
  assert (We : JMap.wf (Types.embeddings Samples.sampleIndex))
    by (repeat constructor; simpl; intuition discriminate).
  assert (Wf : float32Vectors Samples.sampleIndex)
    by (repeat constructor).
  assert (Wz : withoutNegativeZero Samples.sampleIndex)
    by (repeat constructor).
  split; [exact P|]. split; [exact Wc|]. split; [exact We|].
  split; [exact Wf|]. split; [exact Wz|].
  intros constructFloat32Array.
  destruct (loadIndex_saveIndex Empty_set StoredSamples.noProperty
              StoredSamples.noItems StoredSamples.never
              StoredSamples.neverSame StoredSamples.never
              constructFloat32Array (Value Empty_set)
              (fun v => v) (fun v => Some (readBack v)) (fun _ => true)
              Samples.sampleIndex "index.msgpack" (StoredSamples.noFiles _)
              eq_refl P Wc We Wf)
    as (fs' & Hsave & _ & Hload).
  exists fs'. split; [exact Hsave | exact (Hload eq_refl Wz)].
Defined.

End StorageFacts.

(** ** The scanner *)

Module ScannerFacts.
Import JS Types Scanner Vocabulary.

(** The identifier of a chunk is the path of its file, a colon and the
    decimal text of its start line. *)
Lemma processContent_ids (file content : string) (config : ChunkingConfig)
    (c : DocChunk) :
  In c (processContent file content config) ->
  id c = (file ++ ":" ++ numberToString (startLine c))%string
  /\ Types.file c = file.
Proof.
  unfold processContent. intros H. apply in_map_iff in H.
  destruct H as (parsed & <- & _). split; reflexivity.
Qed.

(** C9 (the code at the failing input): identifiers are the path, a colon
    and the start line, for every file; and the RST file that opens with
    an overlined title gives two chunks that start at line 0, the overline
    alone and the title section, so that after an update as after a full
    scan, with the default configuration, the index holds the identifier
    "guide.rst:0" twice. *)
Theorem overlined_title_duplicates_id :
  forall (generateEmbedding : string -> option (list float)) (now : Z),
    (forall readFile file config chunks c,
       processFile readFile file config = Some chunks ->
       In c chunks ->
       id c = (file ++ ":" ++ numberToString (startLine c))%string)
    /\ map (fun c => (id c, startLine c, endLine c))
         (processContent "guide.rst" Samples.overlineDocument
            DEFAULT_CHUNKING_CONFIG)
       = [("guide.rst:0", 0, -1); ("guide.rst:0", 0, 4)]
    /\ ~ uniqueIds
           (updateIndexForFiles Samples.overlineFiles generateEmbedding
              (Storage.createEmptyIndex 0) ["guide.rst"]
              DEFAULT_CHUNKING_CONFIG now)
    /\ ~ uniqueIds
           (scanAndIndexDocumentation Samples.overlineFiles generateEmbedding
              ["guide.rst"] now DEFAULT_CHUNKING_CONFIG).
Proof.
  intros generateEmbedding now.
  assert (Hids :
    map id (processContent "guide.rst" Samples.overlineDocument
              DEFAULT_CHUNKING_CONFIG)
    = ["guide.rst:0"; "guide.rst:0"]) by (vm_compute; reflexivity).
  assert (Hdup : ~ NoDup ["guide.rst:0"; "guide.rst:0"]).
  { intros H. inversion H as [|? ? Hin _]; subst. apply Hin. now left. }
  split; [|split; [|split]].
  - intros readFile file config chunks c H Hc. unfold processFile in H.
    destruct (readFile file) as [content|]; [|discriminate H].
    injection H as <-. eapply processContent_ids; eassumption.
  - vm_compute. reflexivity.
  - unfold uniqueIds. intros H. apply Hdup. rewrite <- Hids. exact H.
  - unfold uniqueIds. intros H. apply Hdup. rewrite <- Hids. exact H.
Qed.

(** C5 (the code at the failing input): on the index the scan builds for
    the RST file that opens with an overlined title, the two chunks carry
    the identifier "guide.rst:0" and one embedding is kept for both. For
    the query "word" the keyword search finds the title section alone, by
    its content (0.6), and the semantic search, with a similarity of 0.4,
    finds the chunk of the overline alone; the merge by identifier
    returns neither of the two results as it is: it returns the title
    section with the sum of the two scores and the two reasons, and no
    result for the chunk of the overline. *)
Theorem hybrid_sums_across_chunks :
  let index :=
    scanAndIndexDocumentation Samples.overlineFiles (fun _ => Some [1%float])
      ["guide.rst"] 0 DEFAULT_CHUNKING_CONFIG in
  map summary (Search.keywordSearch (fun _ _ => true) index "word" None)
  = [("guide.rst:0", 0, 4, 0.6%float, "content match")]
  /\ map summary
       (Search.semanticSearch (fun _ _ => true) (fun _ => Some [1%float])
          (fun _ _ => 0.4%float) index "word" None)
     = [("guide.rst:0", 0, -1, 0.4%float, "semantic similarity")]
  /\ map summary
       (Search.searchDocumentation (fun _ _ => true)
          (fun _ => Some [1%float]) (fun _ _ => 0.4%float) index "word"
          Semantic None 10)
     = [("guide.rst:0", 0, 4, 1%float,
         "content match + semantic similarity")].
Proof. cbv zeta. split; [|split]; vm_compute; reflexivity. Qed.

(** C10 (the code at the failing input): on the same index, without an
    embedding for the query, the exact mode finds the two chunks for the
    query "general", and the semantic mode returns one result only: the
    merge by identifier keeps the last of the keyword results that carry
    the identifier "guide.rst:0". *)
Theorem semantic_mode_loses_result :
  let index :=
    scanAndIndexDocumentation Samples.overlineFiles (fun _ => None)
      ["guide.rst"] 0 DEFAULT_CHUNKING_CONFIG in
  Search.semanticSearch (fun _ _ => true) (fun _ => None)
    (fun _ _ => 0%float) index "general" None = []
  /\ map summary
       (Search.searchDocumentation (fun _ _ => true) (fun _ => None)
          (fun _ _ => 0%float) index "general" Exact None 10)
     = [("guide.rst:0", 0, -1, 0.9%float, "context match");
        ("guide.rst:0", 0, 4, 0.9%float, "context match")]
  /\ map summary
       (Search.searchDocumentation (fun _ _ => true) (fun _ => None)
          (fun _ _ => 0%float) index "general" Semantic None 10)
     = [("guide.rst:0", 0, 4, 0.9%float, "context match")].
Proof. cbv zeta. split; [|split]; vm_compute; reflexivity. Qed.

End ScannerFacts.

(** ** Line ranges of the chunks *)

Module LayoutFacts.
Import JS Parser ParserRec Layout StringFacts.

Lemma lineFeeds_nonneg (s : string) : 0 <= lineFeeds s.
Proof.
  induction s as [|c s IH]; cbn [lineFeeds]; [lia|].
  destruct (Ascii.eqb c LF); lia.
Qed.

Lemma lineFeeds_app (a b : string) :
  lineFeeds (a ++ b)%string = lineFeeds a + lineFeeds b.
Proof.
  induction a as [|c a IH]; cbn [append lineFeeds]; [reflexivity|].
  rewrite IH. lia.
Qed.

Lemma split_length (s : string) :
  Z.of_nat (List.length (split LF s)) = lineFeeds s + 1.
Proof.
  induction s as [|c s IH]; [reflexivity|].
  cbn [split lineFeeds]. destruct (Ascii.eqb c LF).
  - cbn [List.length]. lia.
  - pose proof (lineFeeds_nonneg s).
    destruct (split LF s) as [|h t]; cbn [List.length] in *; lia.
Qed.

Lemma lineCount_feeds (s : string) : lineCount s = lineFeeds s + 1.
Proof. apply split_length. Qed.

Lemma split_no_feeds (s : string) :
  Forall (fun l => lineFeeds l = 0) (split LF s).
Proof.
  induction s as [|c s IH]; [repeat constructor|].
  cbn [split]. destruct (Ascii.eqb c LF) eqn:E.
  - constructor; [reflexivity | exact IH].
  - destruct (split LF s) as [|h t].
    + repeat constructor. cbn [lineFeeds]. rewrite E. reflexivity.
    + inversion IH; subst. constructor; [|assumption].
      cbn [lineFeeds]. rewrite E. lia.
Qed.

Lemma lineFeeds_trimStart (s : string) : lineFeeds (trimStart s) <= lineFeeds s.
Proof.
  induction s as [|c s IH]; cbn [trimStart]; [lia|].
  destruct (isWhiteSpace c); [|lia].
  cbn [lineFeeds]. destruct (Ascii.eqb c LF); lia.
Qed.

Lemma lineFeeds_trimEnd (s : string) : lineFeeds (trimEnd s) <= lineFeeds s.
Proof.
  induction s as [|c s IH]; cbn [trimEnd]; [lia|].
  pose proof (lineFeeds_nonneg s).
  destruct (isWhiteSpace c && negb (truthy (trimEnd s))); cbn [lineFeeds];
    destruct (Ascii.eqb c LF); lia.
Qed.

Lemma lineCount_trim (s : string) : lineCount (trim s) <= lineCount s.
Proof.
  rewrite !lineCount_feeds. unfold trim.
  pose proof (lineFeeds_trimEnd (trimStart s)).
  pose proof (lineFeeds_trimStart s). lia.
Qed.

Lemma join_cons (sep x y : string) (rest : list string) :
  join sep (x :: y :: rest) = (x ++ sep ++ join sep (y :: rest))%string.
Proof. reflexivity. Qed.

Lemma lineFeeds_join (lines : list string) :
  Forall (fun l => lineFeeds l = 0) lines ->
  lineFeeds (join (String LF EmptyString) lines)
  = Z.max 0 (Z.of_nat (List.length lines) - 1).
Proof.
  induction lines as [|l rest IH]; intros H; [reflexivity|].
  inversion H as [|? ? Hl Hrest]; subst.
  destruct rest as [|l' rest'].
  - unfold join. cbn [String.concat List.length]. rewrite Hl. reflexivity.
  - rewrite join_cons, !lineFeeds_app, (IH Hrest), Hl.
    cbn [lineFeeds List.length]. rewrite Ascii.eqb_refl. lia.
Qed.

(** *** Trimming *)

Lemma trimEnd_idem (s : string) : trimEnd (trimEnd s) = trimEnd s.
Proof.
  induction s as [|c s IH]; [reflexivity|].
  cbn [trimEnd].
  destruct (isWhiteSpace c && negb (truthy (trimEnd s))) eqn:E; [reflexivity|].
  cbn [trimEnd]. rewrite IH, E. reflexivity.
Qed.

Lemma trimStart_headed (s : string) :
  trimStart s = EmptyString
  \/ exists c t, trimStart s = String c t /\ isWhiteSpace c = false.
Proof.
  induction s as [|c s IH]; [now left|].
  cbn [trimStart]. destruct (isWhiteSpace c) eqn:E; [exact IH|].
  right. now exists c, s.
Qed.

Lemma trim_idem (s : string) : trim (trim s) = trim s.
Proof.
  unfold trim. destruct (trimStart_headed s) as [->|(c & t & -> & Hc)];
    [reflexivity|].
  cbn [trimEnd]. rewrite Hc. cbn [andb trimStart]. rewrite Hc.
  cbn [trimEnd]. rewrite Hc. cbn [andb]. now rewrite trimEnd_idem.
Qed.

(** *** Line ranges *)

Lemma laidOut_weaken (Q : ParsedChunk -> Prop) (l : list ParsedChunk) :
  forall lo hi hi', laidOut Q lo hi l -> hi <= hi' -> laidOut Q lo hi' l.
Proof.
  induction l as [|c t IH]; intros lo hi hi' H Hle; cbn [laidOut] in *.
  - lia.
  - destruct H as (H1 & H2 & H3 & H4). repeat split; auto. eapply IH; eauto.
Qed.

Lemma laidOut_snoc (Q : ParsedChunk -> Prop) (l : list ParsedChunk) :
  forall lo hi hi' c,
    laidOut Q lo hi l -> hi <= startLine c -> startLine c <= endLine c ->
    Q c -> endLine c + 1 <= hi' ->
    laidOut Q lo hi' (l ++ [c]).
Proof.
  induction l as [|x t IH]; intros lo hi hi' c H Hs He Hq Hhi;
    cbn [laidOut app] in *.
  - repeat split; auto; lia.
  - destruct H as (H1 & H2 & H3 & H4). repeat split; auto. eapply IH; eauto.
Qed.

Lemma createChunk_fits (lines : list string) (s e : Z)
    (hs : list HeadingEntry) (c : ParsedChunk) :
  createChunk lines s e hs = Some c ->
  Forall (fun l => lineFeeds l = 0) lines ->
  lines <> [] ->
  Z.of_nat (List.length lines) <= e - s + 1 ->
  startLine c = s /\ endLine c = e /\ fits c.
Proof.
  unfold createChunk. intros H Hl Hne Hlen.
  destruct (truthy _); [|discriminate]. injection H as <-.
  cbn [startLine endLine]. repeat split. unfold fits.
  cbn [content startLine endLine].
  pose proof (lineCount_trim (join (String LF EmptyString) lines)) as Ht.
  rewrite (lineCount_feeds (join _ _)), lineFeeds_join in Ht by exact Hl.
  destruct lines; [contradiction|]. cbn [List.length] in *. lia.
Qed.

Lemma saveChunk_laidOut (i : Z) (st : ParseState) :
  pending i st -> laidOut fits 0 i (saveChunk st (i - 1)).
Proof.
  intros (Hi & H0 & Hl & Hc). unfold saveChunk.
  destruct (currentChunkLines st) as [|l ls] eqn:El; cbn [nonEmpty].
  - eapply laidOut_weaken; [exact Hc|]. cbn [List.length] in Hi. lia.
  - destruct (createChunk _ _ _ _) as [c|] eqn:Ec; cbn [pushChunk].
    + apply createChunk_fits in Ec; [|exact Hl|discriminate|lia].
      destruct Ec as (Es & Ee & Hf).
      eapply laidOut_snoc; [exact Hc| | |exact Hf|]; cbn [List.length] in Hi;
        lia.
    + eapply laidOut_weaken; [exact Hc|]. lia.
Qed.

Lemma markerStep_pending (marker : ascii) (i : Z) (st : ParseState)
    (line : string) :
  pending i st -> lineFeeds line = 0 ->
  fst (markerStep marker (i, st) line) = i + 1
  /\ pending (i + 1) (snd (markerStep marker (i, st) line)).
Proof.
  intros Hp Hline. unfold markerStep.
  destruct (headingMatch marker line) as [[l title]|]; cbn [fst snd].
  - split; [reflexivity|]. unfold pending.
    cbn [currentChunkStart currentChunkLines chunks List.length].
    pose proof (saveChunk_laidOut i st Hp).
    destruct Hp as (Hi & H0 & _). repeat split; auto; lia.
  - split; [reflexivity|]. destruct Hp as (Hi & H0 & Hl & Hc).
    unfold pending, pushLine.
    cbn [currentChunkStart currentChunkLines chunks].
    rewrite length_app. cbn [List.length]. repeat split; auto; [lia|].
    apply Forall_app. auto.
Qed.

Lemma markerLoop_pending (marker : ascii) (lines : list string) :
  forall i st,
    pending i st -> Forall (fun l => lineFeeds l = 0) lines ->
    pending (i + Z.of_nat (List.length lines))
      (snd (fold_left (markerStep marker) lines (i, st))).
Proof.
  induction lines as [|line rest IH]; intros i st Hp Hl; cbn [fold_left].
  - cbn [List.length]. replace (i + Z.of_nat 0) with i by lia. exact Hp.
  - inversion Hl as [|? ? Hline Hrest]; subst.
    destruct (markerStep_pending marker i st line Hp Hline) as [Hi Hp'].
    destruct (markerStep marker (i, st) line) as [i' st'] eqn:E.
    cbn [fst snd] in *. subst i'.
    replace (i + Z.of_nat (List.length (line :: rest)))
      with (i + 1 + Z.of_nat (List.length rest))
      by (cbn [List.length]; lia).
    apply IH; assumption.
Qed.

Lemma pending_initial : pending 0 initialState.
Proof. unfold pending. cbn. repeat split; auto; lia. Qed.

Lemma parseWithMarker_laidOut (marker : ascii) (content : string) :
  laidOut fits 0 (lineCount content) (parseWithMarker marker content).
Proof.
  unfold parseWithMarker.
  pose proof (markerLoop_pending marker (split LF content) 0 initialState
                pending_initial (split_no_feeds content)) as H.
  apply saveChunk_laidOut in H.
  cbn [Z.add] in H. exact H.
Qed.

(** *** The paragraphs of [split(/\n\s*\n/)] *)

Lemma linesUsed_nonneg (ps : list string) : 0 <= linesUsed ps.
Proof.
  induction ps as [|p ps IH]; cbn [linesUsed]; [lia|].
  pose proof (lineFeeds_nonneg p). rewrite lineCount_feeds. lia.
Qed.

(** The separator found by [blankRun] is not empty and ends with a line
    feed. *)
Lemma blankRun_Some (t : string) :
  forall n best k,
    blankRun t n best = Some k ->
    best = Some k
    \/ ((n < k)%nat /\ String.get (k - n - 1) t = Some LF
        /\ (k - n <= String.length t)%nat).
Proof.
  induction t as [|c t IH]; intros n best k H; cbn [blankRun] in H.
  - now left.
  - destruct (isWhiteSpace c); [|now left].
    apply IH in H. destruct H as [H|(Hn & Hget & Hlen)].
    + destruct (Ascii.eqb c LF) eqn:E; [|now left].
      injection H as <-. right. apply Ascii.eqb_eq in E. subst c.
      replace (S n - n - 1)%nat with 0%nat by lia.
      cbn [String.get String.length]. repeat split; lia.
    + right. replace (k - n - 1)%nat with (S (k - S n - 1)) by lia.
      cbn [String.get String.length]. repeat split; auto; lia.
Qed.

Lemma splitBlankAux_feeds (s : string) :
  forall skip cur,
    (skip <= String.length s)%nat ->
    (0 < skip -> String.get (skip - 1) s = Some LF)%nat ->
    linesUsed (splitBlankAux skip s cur) + (if (0 <? skip)%nat then 1 else 0)
    <= lineFeeds cur + lineFeeds s + 2.
Proof.
  induction s as [|c s IH]; intros skip cur Hlen Hget.
  - cbn [String.length] in Hlen. replace skip with 0%nat by lia.
    cbn [splitBlankAux linesUsed lineFeeds Nat.ltb Nat.leb].
    rewrite lineCount_feeds. lia.
  - cbn [splitBlankAux lineFeeds]. cbn [String.length] in Hlen.
    destruct skip as [|k].
    + cbn [Nat.ltb Nat.leb].
      assert (Hpush :
        linesUsed (splitBlankAux 0 s (cur ++ String c EmptyString)%string) + 0
        <= lineFeeds cur + ((if Ascii.eqb c LF then 1 else 0) + lineFeeds s)
           + 2).
      { pose proof (IH 0%nat (cur ++ String c EmptyString)%string
                      (Nat.le_0_l _) (fun H => match Nat.lt_irrefl _ H with end))
          as H.
        cbn [Nat.ltb Nat.leb] in H. rewrite lineFeeds_app in H.
        cbn [lineFeeds] in H. lia. }
      destruct (Ascii.eqb c LF) eqn:E; [|exact Hpush].
      destruct (blankRun s 0 None) as [k|] eqn:Eb; [|exact Hpush].
      apply blankRun_Some in Eb. destruct Eb as [Eb|(Hk & Hg & Hl)];
        [discriminate|].
      rewrite Nat.sub_0_r in Hg, Hl.
      pose proof (IH k EmptyString Hl (fun _ => Hg)) as H.
      destruct (0 <? k)%nat eqn:Ek; [|apply Nat.ltb_ge in Ek; lia].
      cbn [linesUsed]. rewrite lineCount_feeds. cbn [lineFeeds] in H. lia.
    + assert (H : linesUsed (splitBlankAux k s cur)
                  + (if (0 <? k)%nat then 1 else 0)
                  <= lineFeeds cur + lineFeeds s + 2).
      { apply IH; [lia|]. intros Hk. specialize (Hget (Nat.lt_0_succ _)).
        replace (S k - 1)%nat with (S (k - 1)) in Hget by lia.
        exact Hget. }
      cbn [Nat.ltb Nat.leb].
      destruct k as [|k'].
      * specialize (Hget (Nat.lt_0_succ _)). cbn in Hget.
        injection Hget as ->. rewrite Ascii.eqb_refl.
        cbn [Nat.ltb Nat.leb] in H. lia.
      * cbn [Nat.ltb Nat.leb] in H. destruct (Ascii.eqb c LF); lia.
Qed.

Lemma splitBlankLines_linesUsed (s : string) :
  linesUsed (splitBlankLines s) <= lineCount s + 1.
Proof.
  unfold splitBlankLines.
  pose proof (splitBlankAux_feeds s 0 EmptyString (Nat.le_0_l _)
                (fun H => match Nat.lt_irrefl _ H with end)) as H.
  cbn [Nat.ltb Nat.leb lineFeeds] in H. rewrite lineCount_feeds. lia.
Qed.

(** *** parsePlainText *)

Lemma lineCount_pos (s : string) : 1 <= lineCount s.
Proof. rewrite lineCount_feeds. pose proof (lineFeeds_nonneg s). lia. Qed.

Lemma plainLoop_laidOut (paragraphs : list string) :
  forall chunks off used,
    0 <= off <= used ->
    laidOut fits 0 (Z.min off (Z.max 0 (used - 1))) chunks ->
    let st := fold_left plainStep paragraphs (chunks, off) in
    0 <= snd st <= used + linesUsed paragraphs
    /\ laidOut fits 0
         (Z.min (snd st) (Z.max 0 (used + linesUsed paragraphs - 1))) (fst st).
Proof.
  induction paragraphs as [|p rest IH]; intros chunks off used Hoff Hc;
    cbn [fold_left linesUsed].
  - cbn [fst snd]. rewrite Z.add_0_r. auto.
  - pose proof (lineCount_pos p) as Hp.
    replace (used + (lineCount p + 1 + linesUsed rest))
      with ((used + lineCount p + 1) + linesUsed rest) by lia.
    remember (plainStep (chunks, off) p) as st1 eqn:E.
    unfold plainStep in E. destruct (truthy (trim p)); subst st1.
    + apply IH; [lia|].
      eapply laidOut_snoc; [exact Hc| | | |];
        cbn [startLine endLine]; try lia.
      unfold fits. cbn [content startLine endLine].
      pose proof (lineCount_trim p). lia.
    + apply IH; [lia|]. eapply laidOut_weaken; [exact Hc|]. lia.
Qed.

Lemma parsePlainText_laidOut (content file : string) :
  laidOut fits 0 (lineCount content) (parsePlainText content file).
Proof.
  unfold parsePlainText.
  destruct (plainLoop_laidOut (splitBlankLines content) [] 0 0) as [_ H].
  - lia.
  - cbn. lia.
  - eapply laidOut_weaken; [exact H|].
    pose proof (splitBlankLines_linesUsed content).
    pose proof (lineCount_pos content). lia.
Qed.

(** The chunks of a Markdown, an AsciiDoc or a plain-text document come
    in the order of the document, on line ranges that are not empty, do
    not overlap and lie within the lines of the document; the content of
    a chunk has no more lines than its range. *)
Theorem parsers_lay_out_chunks (content file : string) :
  laidOut fits 0 (lineCount content) (parseMarkdown content file)
  /\ laidOut fits 0 (lineCount content) (parseAsciiDoc content file)
  /\ laidOut fits 0 (lineCount content) (parsePlainText content file).
Proof.
  split; [|split].
  - apply parseWithMarker_laidOut.
  - apply parseWithMarker_laidOut.
  - apply parsePlainText_laidOut.
Qed.

(** *** The line ranges after the merge pass *)

Lemma laidOut_impl (Q Q' : ParsedChunk -> Prop) (l : list ParsedChunk) :
  (forall c, Q c -> Q' c) ->
  forall lo hi, laidOut Q lo hi l -> laidOut Q' lo hi l.
Proof.
  intros HQ. induction l as [|c t IH]; intros lo hi H; cbn [laidOut] in *;
    [exact H|].
  destruct H as (H1 & H2 & H3 & H4). repeat split; auto.
Qed.

Lemma mergeFrom_laidOut (minTokens : Z) (Q : ParsedChunk -> Prop)
    (rest : list ParsedChunk) :
  forall acc lo hi,
    match acc with
    | Some a =>
        lo <= startLine a /\ startLine a <= endLine a
        /\ (Q a \/ estimateTokenCount (content a) <= minTokens)
        /\ laidOut Q (endLine a + 1) hi rest
    | None => laidOut Q lo hi rest
    end ->
    laidOut (fun c => Q c \/ estimateTokenCount (content c) <= minTokens)
      lo hi (mergeFrom minTokens acc rest).
Proof.
  induction rest as [|chunk rest IH]; intros acc lo hi H.
  - destruct acc as [a|]; cbn [mergeFrom flush laidOut] in *; tauto.
  - assert (Hfresh : forall lo',
      laidOut Q lo' hi (chunk :: rest) ->
      laidOut (fun c => Q c \/ estimateTokenCount (content c) <= minTokens)
        lo' hi
        (if estimateTokenCount (content chunk) <? minTokens
         then mergeFrom minTokens (Some chunk) rest
         else chunk :: mergeFrom minTokens None rest)).
    { intros lo' (H1 & H2 & H3 & H4).
      destruct (estimateTokenCount (content chunk) <? minTokens).
      - apply IH. tauto.
      - cbn [laidOut]. repeat split; auto. }
    cbn [mergeFrom]. destruct acc as [a|]; [|apply Hfresh, H].
    destruct H as (H1 & H2 & H3 & H4).
    destruct (estimateTokenCount (content a)
              + estimateTokenCount (content chunk) <? minTokens) eqn:E.
    + apply IH. cbn [laidOut] in H4. destruct H4 as (H5 & H6 & H7 & H8).
      cbn [fold_into startLine endLine content]. repeat split; auto; [lia|].
      right. apply Z.ltb_lt in E.
      pose proof (ParserFacts.estimateTokenCount_glue (content a)
                    (content chunk)). lia.
    + cbn [laidOut]. repeat split; auto.
Qed.

(** The merge pass keeps the layout of the chunks: merged chunks still
    come in order on line ranges that do not overlap, within the same
    bounds. A chunk of the result keeps the property the chunks came
    with, such as a content that fits its range, unless it was merged,
    and then it is no larger than the threshold. *)
Theorem mergeSmallChunks_keeps_layout (minTokens : Z)
    (Q : ParsedChunk -> Prop) (chunks : list ParsedChunk) (lo hi : Z) :
  laidOut Q lo hi chunks ->
  laidOut (fun c => Q c \/ estimateTokenCount (content c) <= minTokens)
    lo hi (mergeSmallChunks chunks minTokens).
Proof.
  intros H. rewrite ParserFacts.mergeSmallChunks_rec.
  apply (mergeFrom_laidOut minTokens Q chunks None). exact H.
Qed.

(** An instance: the two chunks of the samples, on the lines 0 and 2 of a
    document of three lines, merged under a threshold of 50 tokens. *)
Lemma mergeSmallChunks_keeps_layout_witness :
  laidOut fits 0 3 [Samples.smallChunk; Samples.largeChunk]
  /\ laidOut (fun c => fits c \/ estimateTokenCount (content c) <= 50) 0 3
       (mergeSmallChunks [Samples.smallChunk; Samples.largeChunk] 50).
Proof.
  assert (H : laidOut fits 0 3 [Samples.smallChunk; Samples.largeChunk])
    by (repeat split; vm_compute; discriminate).
  split; [exact H|].
  exact (mergeSmallChunks_keeps_layout 50 fits
           [Samples.smallChunk; Samples.largeChunk] 0 3 H).
Defined.

(** *** The start lines after the split pass *)

Lemma increasing_weaken (l : list Z) :
  forall lo hi lo' hi',
    increasing lo hi l -> lo' <= lo -> hi <= hi' -> increasing lo' hi' l.
Proof.
  induction l as [|x t IH]; intros lo hi lo' hi' H Hlo Hhi;
    cbn [increasing] in *; [exact I|].
  destruct H as (H1 & H2 & H3). repeat split; try lia.
  apply (IH (x + 1) hi); auto; lia.
Qed.

Lemma increasing_app (l1 l2 : list Z) :
  forall lo mid hi,
    increasing lo mid l1 -> increasing (mid + 1) hi l2 ->
    lo <= mid + 1 -> mid <= hi ->
    increasing lo hi (l1 ++ l2).
Proof.
  induction l1 as [|x t IH]; intros lo mid hi H1 H2 Hl Hm;
    cbn [increasing app] in *.
  - eapply increasing_weaken; [exact H2| |]; lia.
  - destruct H1 as (A & B & C). repeat split; try lia.
    apply (IH (x + 1) mid hi); auto; lia.
Qed.

Lemma increasing_lower (l : list Z) :
  forall lo hi x, increasing lo hi l -> In x l -> lo <= x.
Proof.
  induction l as [|y t IH]; intros lo hi x H Hin; [contradiction|].
  cbn [increasing] in H. destruct H as (A & B & C).
  destruct Hin as [->|Hin]; [exact A|].
  specialize (IH _ _ _ C Hin). lia.
Qed.

Lemma increasing_NoDup (l : list Z) :
  forall lo hi, increasing lo hi l -> NoDup l.
Proof.
  induction l as [|x t IH]; intros lo hi H; [constructor|].
  cbn [increasing] in H. destruct H as (A & B & C).
  constructor; [|eapply IH; exact C].
  intros Hin. pose proof (increasing_lower _ _ _ _ C Hin). lia.
Qed.

Lemma splitFrom_starts (maxTokens : Z) (chunk : ParsedChunk)
    (paragraphs : list string) :
  forall cur start off,
    start <= off -> (truthy cur = true -> start < off) ->
    increasing start (Z.max start (off + linesUsed paragraphs - 2))
      (map startLine (splitFrom maxTokens chunk cur start off paragraphs)).
Proof.
  induction paragraphs as [|p rest IH]; intros cur start off Hle Hlt.
  - cbn [splitFrom]. destruct (truthy cur); cbn [map increasing piece startLine];
      [|exact I]. repeat split; lia.
  - pose proof (lineCount_pos p) as Hp.
    pose proof (linesUsed_nonneg rest) as Hr.
    cbn [splitFrom linesUsed].
    destruct ((maxTokens <? estimateTokenCount (testContentOf cur p))
              && truthy cur) eqn:E.
    + apply andb_prop in E. destruct E as [_ T]. specialize (Hlt T).
      cbn [map increasing piece startLine]. repeat split; try lia.
      eapply increasing_weaken;
        [apply (IH p off (off + lineCount p + 1)); lia| |]; lia.
    + eapply increasing_weaken;
        [apply (IH (testContentOf cur p) start (off + lineCount p + 1)); lia
        | |]; lia.
Qed.

Lemma piecesOf_starts (maxTokens : Z) (c : ParsedChunk) :
  startLine c <= endLine c ->
  fits c \/ estimateTokenCount (content c) <= maxTokens ->
  increasing (startLine c) (endLine c)
    (map startLine (piecesOf maxTokens c)).
Proof.
  intros Hse Hq. unfold piecesOf.
  destruct (estimateTokenCount (content c) <=? maxTokens) eqn:E.
  - cbn [map increasing]. repeat split; lia.
  - apply Z.leb_gt in E. destruct Hq as [Hf|Hs]; [|lia].
    eapply increasing_weaken;
      [apply splitFrom_starts; [lia|intros [=]] |lia|].
    unfold fits in Hf.
    pose proof (splitBlankLines_linesUsed (content c)). lia.
Qed.

Lemma pieces_starts (maxTokens : Z) (chunks : list ParsedChunk) :
  forall lo hi,
    laidOut (fun c => fits c \/ estimateTokenCount (content c) <= maxTokens)
      lo hi chunks ->
    increasing lo (hi - 1)
      (map startLine (flat_map (piecesOf maxTokens) chunks)).
Proof.
  induction chunks as [|c rest IH]; intros lo hi H; [exact I|].
  cbn [laidOut] in H. destruct H as (H1 & H2 & H3 & H4).
  cbn [flat_map]. rewrite map_app.
  assert (Hhi : endLine c + 1 <= hi).
  { clear - H4. revert H4. generalize (endLine c + 1).
    induction rest as [|x t IHt]; intros z H; cbn [laidOut] in H; [exact H|].
    destruct H as (A & B & _ & D). specialize (IHt _ D). lia. }
  apply (increasing_app _ _ lo (endLine c) (hi - 1)); [| |lia|lia].
  - eapply increasing_weaken; [apply piecesOf_starts; assumption| |]; lia.
  - apply IH. exact H4.
Qed.

(** The split pass gives chunks that start on strictly increasing lines
    within the bounds of the chunks it is given, when these are laid out
    in order and each of them either has no more lines of content than
    its range or is no larger than the threshold. *)
Theorem splitLargeChunks_starts (maxTokens : Z) (chunks : list ParsedChunk)
    (lo hi : Z) :
  laidOut (fun c => fits c \/ estimateTokenCount (content c) <= maxTokens)
    lo hi chunks ->
  increasing lo (hi - 1) (map startLine (splitLargeChunks chunks maxTokens)).
Proof.
  intros H. rewrite ParserFacts.splitLargeChunks_rec.
  apply pieces_starts. exact H.
Qed.

(** An instance: the chunk of three paragraphs of the samples, on the
    lines 10 to 14, split under a threshold of 2 tokens. *)
Lemma splitLargeChunks_starts_witness :
  laidOut (fun c => fits c \/ estimateTokenCount (content c) <= 2) 10 15
    [Samples.threeParagraphs]
  /\ increasing 10 (15 - 1)
       (map startLine (splitLargeChunks [Samples.threeParagraphs] 2)).
Proof.
  assert (H : laidOut (fun c => fits c \/ estimateTokenCount (content c) <= 2)
                10 15 [Samples.threeParagraphs]).
  { repeat split; try (vm_compute; discriminate).
    left. vm_compute. discriminate. }
  split; [exact H|].
  exact (splitLargeChunks_starts 2 [Samples.threeParagraphs] 10 15 H).
Defined.

End LayoutFacts.

(** ** Identifiers of the chunks of a file *)

Module IdFacts.
Import JS Types Layout IndexShape LayoutFacts.

Lemma append_cancel (a x y : string) : (a ++ x)%string = (a ++ y)%string -> x = y.
Proof. induction a as [|c a IH]; cbn [append]; [auto|]. intros [= H]. auto. Qed.

Lemma to_int_proper (n : Z) :
  Z.to_int n <> Decimal.Pos Decimal.Nil /\ Z.to_int n <> Decimal.Neg Decimal.Nil.
Proof.
  destruct n as [|p|p]; cbn [Z.to_int]; split; try discriminate;
    intros [= H]; exact (DecimalPos.Unsigned.to_uint_nonnil p H).
Qed.

Lemma numberToString_inj (n m : Z) :
  numberToString n = numberToString m -> n = m.
Proof.
  unfold numberToString. intros H. apply DecimalZ.to_int_inj.
  destruct (to_int_proper n) as [Hn1 Hn2]. destruct (to_int_proper m) as [Hm1 Hm2].
  pose proof (NilZero.isi _ Hn1 Hn2) as En.
  pose proof (NilZero.isi _ Hm1 Hm2) as Em.
  rewrite H in En. rewrite En in Em. now injection Em.
Qed.

Lemma toDocChunk_id (file : string) (p : Parser.ParsedChunk) :
  id (Scanner.toDocChunk file p)
  = (file ++ ":" ++ numberToString (Parser.startLine p))%string.
Proof. reflexivity. Qed.

Lemma parseFile_laidOut (ext content file : string) :
  ext <> ".rst" ->
  laidOut fits 0 (lineCount content) (Scanner.parseFile ext content file).
Proof.
  intros Hext. unfold Scanner.parseFile.
  destruct (arrayIncludes [".md"; ".markdown"] ext);
    [apply parseWithMarker_laidOut|].
  destruct (String.eqb ext ".rst") eqn:E;
    [apply String.eqb_eq in E; contradiction|].
  destruct (arrayIncludes [".adoc"; ".asciidoc"] ext);
    [apply parseWithMarker_laidOut | apply parsePlainText_laidOut].
Qed.

Lemma NoDup_map_inj {A B : Type} (f : A -> B) (l : list A) :
  (forall x y, f x = f y -> x = y) -> NoDup l -> NoDup (map f l).
Proof.
  intros Hf H. induction H as [|x l Hx Hl IH]; cbn [map]; constructor; auto.
  intros Hin. apply in_map_iff in Hin. destruct Hin as (y & Hy & Hin).
  apply Hf in Hy. subst. contradiction.
Qed.

Lemma processContent_starts (file content : string) (config : ChunkingConfig) :
  toLowerCase (extname file) <> ".rst" ->
  (splitAtHeadings config = true -> minTokens config <= maxTokens config) ->
  exists parsed,
    Scanner.processContent file content config
    = map (Scanner.toDocChunk file) parsed
    /\ increasing 0 (lineCount content - 1) (map Parser.startLine parsed).
Proof.
  intros Hext Hcfg. unfold Scanner.processContent.
  pose proof (parseFile_laidOut _ content file Hext) as Hp.
  destruct (splitAtHeadings config).
  - eexists. split; [reflexivity|].
    rewrite ParserFacts.splitLargeChunks_rec. apply pieces_starts.
    rewrite ParserFacts.mergeSmallChunks_rec.
    apply (mergeFrom_laidOut (minTokens config) fits _ None) in Hp.
    eapply laidOut_impl; [|exact Hp].
    intros c [H|H]; [now left|right]. specialize (Hcfg eq_refl). lia.
  - eexists. split; [reflexivity|].
    clear Hcfg. revert Hp. generalize (lineCount content). generalize 0.
    induction (Scanner.parseFile _ _ _) as [|c t IH]; intros lo hi H;
      [exact I|].
    cbn [laidOut] in H. destruct H as (H1 & H2 & _ & H4).
    specialize (IH _ _ H4). cbn [map increasing].
    assert (endLine_le : Parser.endLine c + 1 <= hi).
    { clear - H4. revert H4. generalize (Parser.endLine c + 1).
      induction t as [|x t IHt]; intros z H; cbn [laidOut] in H; [exact H|].
      destruct H as (A & B & _ & D). specialize (IHt _ D). lia. }
    repeat split; try lia.
    eapply increasing_weaken; [exact IH| |]; lia.
Qed.

Lemma starts_distinct (file : string) (parsed : list Parser.ParsedChunk)
    (lo hi : Z) :
  increasing lo hi (map Parser.startLine parsed) ->
  NoDup (map id (map (Scanner.toDocChunk file) parsed)).
Proof.
  intros Hinc.
  rewrite map_map.
  rewrite (map_ext _
             (fun p =>
                (file ++ ":" ++ numberToString (Parser.startLine p))%string))
    by (intros p; apply toDocChunk_id).
  rewrite <- (map_map Parser.startLine
                (fun n => (file ++ ":" ++ numberToString n)%string)).
  apply NoDup_map_inj; [|eapply increasing_NoDup; exact Hinc].
  intros x y H. apply append_cancel in H. apply append_cancel in H.
  now apply numberToString_inj.
Qed.

Lemma processContent_NoDup (file content : string) (config : ChunkingConfig) :
  notRST file -> orderedThresholds config ->
  NoDup (map id (Scanner.processContent file content config)).
Proof.
  intros Hext Hcfg.
  destruct (processContent_starts file content config Hext Hcfg)
    as (parsed & -> & Hinc).
  eapply starts_distinct; exact Hinc.
Qed.

(** The chunks of a Markdown, AsciiDoc or plain-text file start on lines
    of the file that increase strictly, and so carry identifiers that
    differ from each other, as long as the merge threshold does not
    exceed the split threshold. *)
Theorem processContent_distinct_ids (file content : string)
    (config : ChunkingConfig) :
  notRST file -> orderedThresholds config ->
  increasing 0 (lineCount content - 1)
    (map startLine (Scanner.processContent file content config))
  /\ NoDup (map id (Scanner.processContent file content config)).
Proof.
  intros Hext Hcfg.
  destruct (processContent_starts file content config Hext Hcfg)
    as (parsed & E & Hinc).
  split.
  - rewrite E, map_map.
    rewrite (map_ext _ Parser.startLine) by reflexivity. exact Hinc.
  - rewrite E. eapply starts_distinct; exact Hinc.
Qed.

(** An instance: the Markdown guide of the samples under the default
    configuration. *)
Lemma processContent_distinct_ids_witness :
  notRST "docs/guide.md"
  /\ orderedThresholds DEFAULT_CHUNKING_CONFIG
  /\ increasing 0 (lineCount MoreSamples.guide - 1)
       (map startLine
          (Scanner.processContent "docs/guide.md" MoreSamples.guide
             DEFAULT_CHUNKING_CONFIG))
  /\ NoDup
       (map id
          (Scanner.processContent "docs/guide.md" MoreSamples.guide
             DEFAULT_CHUNKING_CONFIG)).
Proof.
  assert (H1 : notRST "docs/guide.md") by (vm_compute; discriminate).
  assert (H2 : orderedThresholds DEFAULT_CHUNKING_CONFIG)
    by (intros _; vm_compute; discriminate).
  split; [exact H1 | split; [exact H2|]].
  exact (processContent_distinct_ids "docs/guide.md" MoreSamples.guide
           DEFAULT_CHUNKING_CONFIG H1 H2).
Defined.

End IdFacts.

(** ** Trimmed chunks and the heading stack *)

Module NestingFacts.
Import JS Parser Nesting Layout LayoutFacts.

(** *** Chunks are trimmed and not empty *)

Lemma createChunk_trimmed (lines : list string) (s e : Z)
    (hs : list HeadingEntry) (c : ParsedChunk) :
  createChunk lines s e hs = Some c -> trimmed c.
Proof.
  unfold createChunk. destruct (truthy _) eqn:T; [|discriminate].
  intros [= <-]. unfold trimmed. cbn [content]. split.
  - intros E. rewrite E in T. discriminate.
  - apply trim_idem.
Qed.

Lemma saveChunk_trimmed (st : ParseState) (e : Z) :
  Forall trimmed (chunks st) -> Forall trimmed (saveChunk st e).
Proof.
  intros H. unfold saveChunk. destruct (nonEmpty _); [|exact H].
  destruct (createChunk _ _ _ _) as [c|] eqn:E; cbn [pushChunk]; [|exact H].
  apply Forall_app. split; [exact H|].
  constructor; [eapply createChunk_trimmed; exact E | constructor].
Qed.

Lemma markerLoop_trimmed (marker : ascii) (lines : list string) :
  forall i st,
    Forall trimmed (chunks st) ->
    Forall trimmed (chunks (snd (fold_left (markerStep marker) lines (i, st)))).
Proof.
  induction lines as [|line rest IH]; intros i st H; cbn [fold_left];
    [exact H|].
  remember (markerStep marker (i, st) line) as st1 eqn:E.
  unfold markerStep in E.
  destruct (headingMatch marker line) as [[l title]|]; subst st1; apply IH.
  - cbn [chunks]. apply saveChunk_trimmed, H.
  - exact H.
Qed.

Lemma parseRSTLoop_trimmed (n : nat) :
  forall lines prevLine i st,
    (List.length lines <= n)%nat ->
    Forall trimmed (chunks st) ->
    Forall trimmed (chunks (parseRSTLoop prevLine i lines st)).
Proof.
  induction n as [|n IH]; intros lines prevLine i st Hlen Hst.
  - destruct lines; [exact Hst | cbn [List.length] in Hlen; lia].
  - destruct lines as [|line rest]; [exact Hst|].
    cbn [List.length] in Hlen. cbn [parseRSTLoop].
    destruct (underlineOf line (hd EmptyString rest)) as [c|].
    + assert (Hopen : Forall trimmed
                (chunks (openRSTHeading i prevLine line (hd EmptyString rest)
                           c st))).
      { unfold openRSTHeading.
        destruct (levelOf c (headingCharLevels st)) as [l levels'].
        cbn [chunks]. apply saveChunk_trimmed, Hst. }
      destruct rest as [|next rest']; [exact Hopen|].
      apply IH; [cbn [List.length] in Hlen; lia | exact Hopen].
    + apply IH; [lia | exact Hst].
Qed.

Lemma plainLoop_trimmed (paragraphs : list string) :
  forall chunks off,
    Forall trimmed chunks ->
    Forall trimmed (fst (fold_left plainStep paragraphs (chunks, off))).
Proof.
  induction paragraphs as [|p rest IH]; intros chunks off H; cbn [fold_left];
    [exact H|].
  remember (plainStep (chunks, off) p) as st1 eqn:E.
  unfold plainStep in E. destruct (truthy (trim p)) eqn:T; subst st1;
    apply IH; [|exact H].
  apply Forall_app. split; [exact H|].
  constructor; [|constructor]. split; cbn [content].
  - intros E. rewrite E in T. discriminate.
  - apply trim_idem.
Qed.

(** Whatever the format, a parser emits no empty chunk and no chunk with
    leading or trailing white space. *)
Theorem parsers_emit_trimmed_chunks (content file : string) :
  Forall trimmed (parseMarkdown content file)
  /\ Forall trimmed (parseAsciiDoc content file)
  /\ Forall trimmed (parseRST content file)
  /\ Forall trimmed (parsePlainText content file).
Proof.
  repeat split.
  - apply saveChunk_trimmed, markerLoop_trimmed. constructor.
  - apply saveChunk_trimmed, markerLoop_trimmed. constructor.
  - apply saveChunk_trimmed.
    apply (parseRSTLoop_trimmed (List.length (split LF content)));
      [apply Nat.le_refl | constructor].
  - apply plainLoop_trimmed. constructor.
Qed.

(** *** The heading stack *)

Lemma run_limit (class : ascii -> bool) (s : string) :
  forall l, (Regex.run class (Some l) s <= l)%nat.
Proof.
  induction s as [|c s IH]; intros l; cbn [Regex.run]; [lia|].
  destruct l as [|l]; [lia|]. destruct (class c); [|lia].
  specialize (IH l). lia.
Qed.

(** The first item of a match takes at least [atLeast] characters and at
    most its longest run. *)
Lemma matchItems_first (item : Regex.Item) (rest : list Regex.Item)
    (e : Regex.Ending) (s : string) (count : nat) (counts : list nat) :
  Regex.matchItems (item :: rest) e s = Some (count :: counts) ->
  (Regex.atLeast item <= count
   <= Regex.run (Regex.class item) (Regex.atMost item) s)%nat.
Proof.
  cbn [Regex.matchItems].
  set (longest := Regex.run (Regex.class item) (Regex.atMost item) s).
  destruct (longest <? Regex.atLeast item)%nat eqn:E; [discriminate|].
  apply Nat.ltb_ge in E.
  destruct (Regex.greedy item).
  - assert (G : forall extra,
      (extra <= longest - Regex.atLeast item)%nat ->
      (fix down (extra : nat) : option (list nat) :=
         let count := (Regex.atLeast item + extra)%nat in
         match Regex.matchItems rest e (Regex.skip count s) with
         | Some counts => Some (count :: counts)
         | None =>
             match extra with
             | O => None
             | S extra' => down extra'
             end
         end) extra = Some (count :: counts) ->
      (Regex.atLeast item <= count <= longest)%nat).
    { induction extra as [|extra IH]; intros Hle H.
      - cbv zeta in H. destruct (Regex.matchItems rest e _); [|discriminate].
        injection H as <- _. lia.
      - cbv zeta in H. destruct (Regex.matchItems rest e _).
        + injection H as <- _. lia.
        + apply IH; [lia | exact H]. }
    apply G; lia.
  - assert (G : forall left count0,
      (Regex.atLeast item <= count0)%nat -> (count0 + left <= longest)%nat ->
      (fix up (left : nat) (count : nat) : option (list nat) :=
         match Regex.matchItems rest e (Regex.skip count s) with
         | Some counts => Some (count :: counts)
         | None =>
             match left with
             | O => None
             | S left' => up left' (S count)
             end
         end) left count0 = Some (count :: counts) ->
      (Regex.atLeast item <= count <= longest)%nat).
    { induction left as [|left IH]; intros count0 H1 H2 H.
      - destruct (Regex.matchItems rest e _); [|discriminate].
        injection H as <- _. lia.
      - destruct (Regex.matchItems rest e _).
        + injection H as <- _. lia.
        + apply (IH (S count0)); [lia | lia | exact H]. }
    apply G; lia.
Qed.

Lemma headingMatch_level (marker : ascii) (line : string) (l : Z)
    (title : string) :
  headingMatch marker line = Some (l, title) -> 1 <= l <= 6.
Proof.
  unfold headingMatch, Regex.matchStart, Regex.matchHere.
  cbn [headingPattern Regex.anchor Regex.items Regex.ending Regex.anchored].
  destruct (Regex.matchItems _ _ _) as [[|m [|sp [|t [|x counts]]]]|] eqn:E;
    try discriminate.
  intros [= <- _]. apply matchItems_first in E.
  cbn [Regex.atLeast Regex.atMost Regex.class] in E.
  pose proof (run_limit (Regex.only marker) line 6). lia.
Qed.

Lemma nested_weaken (l : list HeadingEntry) :
  forall lo lo', nested lo l -> lo' <= lo -> nested lo' l.
Proof.
  destruct l as [|h t]; intros lo lo' H Hle; cbn [nested] in *; [exact I|].
  split; [lia | tauto].
Qed.

Lemma nested_snoc (l : list HeadingEntry) :
  forall lo h,
    nested lo l -> lo < level h -> Forall (fun x => level x < level h) l ->
    nested lo (l ++ [h]).
Proof.
  induction l as [|x t IH]; intros lo h H Hlo Hall; cbn [nested app] in *.
  - tauto.
  - inversion Hall; subst. destruct H as [A B]. split; [exact A|].
    apply IH; auto.
Qed.

Lemma nested_app (l1 l2 : list HeadingEntry) :
  forall lo,
    nested lo (l1 ++ l2) ->
    nested lo l1
    /\ forall x y, In x l1 -> In y l2 -> level x < level y.
Proof.
  induction l1 as [|h t IH]; intros lo H; cbn [nested app] in *.
  - split; [exact I | contradiction].
  - destruct H as [A B]. destruct (IH _ B) as [C D]. split; [tauto|].
    intros x y [<-|Hx] Hy; [|auto].
    clear - B Hy. revert B. generalize (level h).
    induction t as [|z t IHt]; intros lo B; cbn [app] in B.
    + destruct l2 as [|w l2]; [contradiction|]. cbn [nested] in B.
      destruct Hy as [<-|Hy]; [tauto|].
      destruct B as [B1 B2].
      assert (forall lo', nested lo' l2 -> In y l2 -> lo' < level y).
      { clear. induction l2 as [|v l2 IH2]; intros lo' N Hy; [contradiction|].
        cbn [nested] in N. destruct Hy as [<-|Hy]; [tauto|].
        destruct N as [N1 N2]. specialize (IH2 _ N2 Hy). lia. }
      specialize (H _ B2 Hy). lia.
    + cbn [nested] in B. destruct B as [B1 B2]. specialize (IHt _ B2). lia.
Qed.

(** The pops and the push of a heading on a stack of increasing levels:
    the entries below the level of the new heading stay, the others go,
    and the levels still increase. *)
Lemma pushHeading_nested (h : HeadingEntry) (stack : list HeadingEntry)
    (lo : Z) :
  nested lo stack -> lo < level h ->
  nested lo (pushHeading h stack)
  /\ exists kept dropped,
       stack = kept ++ dropped
       /\ pushHeading h stack = kept ++ [h]
       /\ Forall (fun x => level x < level h) kept
       /\ Forall (fun x => level h <= level x) dropped.
Proof.
  intros Hn Hlo. unfold pushHeading.
  assert (H : exists kept dropped,
    stack = kept ++ dropped
    /\ rev (popFrom (level h) (rev stack)) = kept
    /\ Forall (fun x => level x < level h) kept
    /\ Forall (fun x => level h <= level x) dropped).
  { revert Hn. induction stack as [|x s' IH] using rev_ind; intros Hn.
    - exists [], []. repeat split; constructor.
    - rewrite rev_app_distr. cbn [rev app popFrom].
      destruct (level h <=? level x) eqn:E.
      + apply Z.leb_le in E. apply nested_app in Hn. destruct Hn as [Hn _].
        destruct (IH Hn) as (kept & dropped & -> & Hk & Hlt & Hge).
        exists kept, (dropped ++ [x]). repeat split; auto.
        * now rewrite app_assoc.
        * apply Forall_app. split; [exact Hge|]. repeat constructor. exact E.
      + apply Z.leb_gt in E. exists (s' ++ [x]), [].
        repeat split.
        * now rewrite app_nil_r.
        * cbn [rev]. rewrite rev_involutive. reflexivity.
        * apply nested_app in Hn. destruct Hn as [_ Hn].
          apply Forall_app. split; [|repeat constructor; exact E].
          apply Forall_forall. intros y Hy.
          specialize (Hn y x Hy (or_introl eq_refl)). lia.
        * constructor. }
  destruct H as (kept & dropped & Hs & Hk & Hlt & Hge).
  split.
  - rewrite Hk. apply nested_snoc; auto.
    rewrite Hs in Hn. apply nested_app in Hn. tauto.
  - exists kept, dropped. rewrite Hk. auto.
Qed.

Lemma nested_length (hi : Z) (l : list HeadingEntry) :
  forall lo,
    nested lo l -> Forall (fun x => level x <= hi) l ->
    Z.of_nat (List.length l) <= Z.max 0 (hi - lo).
Proof.
  induction l as [|h t IH]; intros lo H Hall; cbn [nested List.length] in *;
    [lia|].
  inversion Hall as [|? ? Hh Ht]; subst. destruct H as [A B].
  specialize (IH _ B Ht). lia.
Qed.

(** The stack of a Markdown or AsciiDoc parse: levels from 1 to 6 that
    increase from the bottom. *)
Lemma markerStep_stack (marker : ascii) (i : Z) (st : ParseState)
    (line : string) :
  nested 0 (headingStack st) ->
  Forall (fun x => level x <= 6) (headingStack st) ->
  let st' := snd (markerStep marker (i, st) line) in
  nested 0 (headingStack st')
  /\ Forall (fun x => level x <= 6) (headingStack st').
Proof.
  intros Hn Hall. unfold markerStep.
  destruct (headingMatch marker line) as [[l title]|] eqn:E; cbn [snd];
    [|cbn [pushLine headingStack]; auto].
  apply headingMatch_level in E. cbn [headingStack].
  set (h := {| level := l; text := trim title; line := i |}).
  destruct (pushHeading_nested h (headingStack st) 0 Hn)
    as (Hn' & kept & dropped & Hs & Hp & _); [cbn [level h]; lia|].
  split; [exact Hn'|]. rewrite Hp. rewrite Hs in Hall.
  apply Forall_app in Hall. apply Forall_app. split; [tauto|].
  repeat constructor. cbn [level h]. lia.
Qed.

Lemma markerLoop_depth (marker : ascii) (lines : list string) :
  forall i st,
    nested 0 (headingStack st) ->
    Forall (fun x => level x <= 6) (headingStack st) ->
    Forall (fun c => (List.length (headings c) <= 6)%nat) (chunks st) ->
    let st' := snd (fold_left (markerStep marker) lines (i, st)) in
    nested 0 (headingStack st')
    /\ Forall (fun x => level x <= 6) (headingStack st')
    /\ Forall (fun c => (List.length (headings c) <= 6)%nat) (chunks st').
Proof.
  assert (Hsave : forall st e,
    nested 0 (headingStack st) ->
    Forall (fun x => level x <= 6) (headingStack st) ->
    Forall (fun c => (List.length (headings c) <= 6)%nat) (chunks st) ->
    Forall (fun c => (List.length (headings c) <= 6)%nat) (saveChunk st e)).
  { intros st e Hn Hall Hc. unfold saveChunk.
    destruct (nonEmpty _); [|exact Hc]. unfold createChunk.
    destruct (truthy _); cbn [pushChunk]; [|exact Hc].
    apply Forall_app. split; [exact Hc|]. constructor; [|constructor].
    cbn [headings]. rewrite length_map.
    pose proof (nested_length 6 _ 0 Hn Hall). lia. }
  induction lines as [|line rest IH]; intros i st Hn Hall Hc; cbn [fold_left].
  - cbn [snd]. auto.
  - pose proof (markerStep_stack marker i st line Hn Hall) as Hs.
    cbv zeta in Hs. destruct Hs as [Hn' Hall'].
    assert (Hc' : Forall (fun c => (List.length (headings c) <= 6)%nat)
                    (chunks (snd (markerStep marker (i, st) line)))).
    { unfold markerStep.
      destruct (headingMatch marker line) as [[l title]|]; cbn [snd chunks];
        [apply Hsave; assumption | exact Hc]. }
    destruct (markerStep marker (i, st) line) as [i' st'].
    cbn [snd] in *. apply IH; assumption.
Qed.

(** Every chunk of a Markdown or an AsciiDoc document has a heading path
    of at most six headings. *)
Theorem heading_path_depth (content file : string) :
  Forall (fun c => (List.length (headings c) <= 6)%nat)
    (parseMarkdown content file)
  /\ Forall (fun c => (List.length (headings c) <= 6)%nat)
       (parseAsciiDoc content file).
Proof.
  assert (H : forall marker,
    Forall (fun c => (List.length (headings c) <= 6)%nat)
      (parseWithMarker marker content)).
  { intros marker. unfold parseWithMarker.
    destruct (markerLoop_depth marker (split LF content) 0 initialState)
      as (Hn & Hall & Hc); try constructor.
    unfold saveChunk. destruct (nonEmpty _); [|exact Hc]. unfold createChunk.
    destruct (truthy _); cbn [pushChunk]; [|exact Hc].
    apply Forall_app. split; [exact Hc|]. constructor; [|constructor].
    cbn [headings]. rewrite length_map.
    pose proof (nested_length 6 _ 0 Hn Hall). lia. }
  split; apply H.
Qed.

End NestingFacts.

(** ** The content through the merge pass *)

Module MergeFacts.
Import JS Parser ParserRec StringFacts LayoutFacts.

Lemma mergeFrom_nil (minTokens : Z) (rest : list ParsedChunk) :
  forall acc, mergeFrom minTokens acc rest = [] -> acc = None /\ rest = [].
Proof.
  induction rest as [|chunk rest IH]; intros acc H.
  - destruct acc; [discriminate | auto].
  - exfalso. cbn [mergeFrom] in H. destruct acc as [a|].
    + destruct (_ + _ <? minTokens).
      * apply IH in H. destruct H; discriminate.
      * discriminate.
    + destruct (_ <? minTokens); [|discriminate].
      apply IH in H. destruct H; discriminate.
Qed.

Lemma join_glued (a c : string) (tl : list string) :
  join LFLF ((a ++ LFLF ++ c)%string :: tl) = join LFLF (a :: c :: tl).
Proof.
  rewrite (join_cons LFLF a c tl). destruct tl as [|x tl].
  - reflexivity.
  - rewrite !join_cons, !append_assoc. reflexivity.
Qed.

Lemma join_head (a : string) (l l' : list string) :
  l <> [] -> l' <> [] -> join LFLF l = join LFLF l' ->
  join LFLF (a :: l) = join LFLF (a :: l').
Proof.
  intros Hl Hl' E. destruct l as [|x l]; [contradiction|].
  destruct l' as [|x' l']; [contradiction|].
  rewrite !join_cons, E. reflexivity.
Qed.

Lemma mergeFrom_content (minTokens : Z) (rest : list ParsedChunk) :
  forall acc,
    join LFLF (map content (mergeFrom minTokens acc rest))
    = join LFLF (map content (flush acc ++ rest)).
Proof.
  induction rest as [|chunk rest IH]; intros acc.
  - cbn [mergeFrom]. now rewrite app_nil_r.
  - assert (Hfresh :
      join LFLF (map content
        (if estimateTokenCount (content chunk) <? minTokens
         then mergeFrom minTokens (Some chunk) rest
         else chunk :: mergeFrom minTokens None rest))
      = join LFLF (map content (chunk :: rest))
      /\ (if estimateTokenCount (content chunk) <? minTokens
          then mergeFrom minTokens (Some chunk) rest
          else chunk :: mergeFrom minTokens None rest) <> []).
    { destruct (estimateTokenCount (content chunk) <? minTokens).
      - split; [apply (IH (Some chunk))|].
        intros E. apply mergeFrom_nil in E. destruct E; discriminate.
      - split; [|discriminate]. cbn [map].
        destruct rest as [|c' rest'] eqn:Er; [reflexivity|].
        rewrite <- Er in *. apply join_head.
        + intros E. apply map_eq_nil, mergeFrom_nil in E.
          destruct E as [_ E]. rewrite Er in E. discriminate.
        + rewrite Er. discriminate.
        + apply (IH None). }
    destruct Hfresh as [Hc Hne].
    cbn [mergeFrom]. destruct acc as [a|]; [|exact Hc].
    destruct (_ + _ <? minTokens).
    + rewrite (IH (Some (fold_into a chunk))). cbn [flush app map fold_into content].
      apply join_glued.
    + cbn [flush app map]. apply join_head; [| discriminate | exact Hc].
      intros E. apply map_eq_nil in E. contradiction.
Qed.

(** The merge pass loses no content: the contents of the output chunks,
    glued by blank lines, are the contents of the input chunks glued by
    blank lines. *)
Theorem mergeSmallChunks_keeps_content (chunks : list ParsedChunk)
    (minTokens : Z) :
  join LFLF (map content (mergeSmallChunks chunks minTokens))
  = join LFLF (map content chunks).
Proof.
  rewrite ParserFacts.mergeSmallChunks_rec. apply mergeFrom_content.
Qed.

End MergeFacts.

(** ** The content through the split pass *)

Module SplitContent.
Import JS Parser ParserRec StringFacts LayoutFacts MergeFacts.

Lemma splitFrom_nonempty (maxTokens : Z) (chunk : ParsedChunk)
    (paragraphs : list string) :
  forall cur start off,
    Forall (fun p => p <> EmptyString) paragraphs ->
    cur <> EmptyString \/ paragraphs <> [] ->
    splitFrom maxTokens chunk cur start off paragraphs <> [].
Proof.
  induction paragraphs as [|p rest IH]; intros cur start off Hall Hne;
    cbn [splitFrom].
  - destruct Hne as [Hne|Hne]; [|contradiction].
    destruct cur; [contradiction | discriminate].
  - inversion Hall as [|? ? Hp Hrest]; subst. cbv zeta.
    destruct ((maxTokens <? _) && truthy cur); [discriminate|].
    apply IH; [exact Hrest|]. left. unfold testContentOf.
    destruct cur as [|c cur]; cbn [truthy]; [exact Hp | discriminate].
Qed.

Lemma splitFrom_content (maxTokens : Z) (chunk : ParsedChunk)
    (paragraphs : list string) :
  forall cur start off,
    Forall (fun p => p <> EmptyString) paragraphs ->
    join LFLF (map content (splitFrom maxTokens chunk cur start off paragraphs))
    = join LFLF ((if truthy cur then [cur] else []) ++ paragraphs)%list.
Proof.
  induction paragraphs as [|p rest IH]; intros cur start off Hall;
    cbn [splitFrom].
  - destruct (truthy cur); reflexivity.
  - inversion Hall as [|? ? Hp Hrest]; subst. cbv zeta.
    assert (Tp : truthy p = true) by (destruct p; [contradiction | reflexivity]).
    destruct ((maxTokens <? _) && truthy cur) eqn:E.
    + apply andb_prop in E. destruct E as [_ Tc]. rewrite Tc.
      cbn [map app content piece].
      apply join_head.
      * intros Hnil. apply map_eq_nil in Hnil. revert Hnil.
        apply splitFrom_nonempty; [exact Hrest | left; exact Hp].
      * discriminate.
      * rewrite IH by exact Hrest. rewrite Tp. reflexivity.
    + rewrite IH by exact Hrest. unfold testContentOf.
      destruct (truthy cur) eqn:Tc.
      * assert (Tt : truthy (cur ++ LFLF ++ p) = true)
          by (destruct cur; [discriminate Tc | reflexivity]).
        rewrite Tt. cbn [app]. apply join_glued.
      * rewrite Tp. reflexivity.
Qed.

Lemma splitLargeChunks_app (l1 l2 : list ParsedChunk) (maxTokens : Z) :
  splitLargeChunks (l1 ++ l2)%list maxTokens
  = (splitLargeChunks l1 maxTokens ++ splitLargeChunks l2 maxTokens)%list.
Proof. rewrite !ParserFacts.splitLargeChunks_rec. apply flat_map_app. Qed.

(** The split pass works chunk by chunk, and loses no paragraph: the
    pieces of a chunk that is split hold its paragraphs in their order,
    glued by blank lines, when none of the paragraphs is empty. *)
Theorem splitLargeChunks_keeps_paragraphs (maxTokens : Z) :
  (forall before after,
     splitLargeChunks (before ++ after)%list maxTokens
     = (splitLargeChunks before maxTokens
        ++ splitLargeChunks after maxTokens)%list)
  /\ (forall chunk,
        estimateTokenCount (content chunk) <= maxTokens ->
        splitLargeChunks [chunk] maxTokens = [chunk])
  /\ (forall chunk,
        maxTokens < estimateTokenCount (content chunk) ->
        Forall (fun p => p <> EmptyString) (splitBlankLines (content chunk)) ->
        join LFLF (map content (splitLargeChunks [chunk] maxTokens))
        = join LFLF (splitBlankLines (content chunk))).
Proof.
  split; [|split].
  - intros l1 l2. apply splitLargeChunks_app.
  - intros chunk H. rewrite ParserFacts.splitLargeChunks_single.
    unfold piecesOf. apply Z.leb_le in H. now rewrite H.
  - intros chunk H Hall. rewrite ParserFacts.splitLargeChunks_single.
    unfold piecesOf. apply Z.leb_gt in H. rewrite H.
    rewrite splitFrom_content by exact Hall. reflexivity.
Qed.

End SplitContent.

(** ** The chunks of a plain text *)

Module PlainTextFacts.
Import JS Parser.

Lemma plainLoop_contents (paragraphs : list string) :
  forall chunks off,
    map content (fst (fold_left plainStep paragraphs (chunks, off)))
    = map content chunks ++ filter truthy (map trim paragraphs).
Proof.
  induction paragraphs as [|p rest IH]; intros chunks off; cbn [fold_left].
  - cbn [map filter]. now rewrite app_nil_r.
  - remember (plainStep (chunks, off) p) as st1 eqn:E.
    unfold plainStep in E. cbn [map filter].
    destruct (truthy (trim p)); subst st1; rewrite IH; [|reflexivity].
    rewrite map_app. cbn [map content]. rewrite <- app_assoc. reflexivity.
Qed.

Lemma plainLoop_plain (paragraphs : list string) :
  forall chunks off,
    Forall (fun c => headings c = [] /\ chunkType c = Paragraph
                     /\ firstSentence c = extractFirstSentence (content c))
      chunks ->
    Forall (fun c => headings c = [] /\ chunkType c = Paragraph
                     /\ firstSentence c = extractFirstSentence (content c))
      (fst (fold_left plainStep paragraphs (chunks, off))).
Proof.
  induction paragraphs as [|p rest IH]; intros chunks off H; cbn [fold_left];
    [exact H|].
  remember (plainStep (chunks, off) p) as st1 eqn:E.
  unfold plainStep in E. destruct (truthy (trim p)); subst st1; apply IH;
    [|exact H].
  apply Forall_app. split; [exact H|]. constructor; [|constructor].
  cbn [headings chunkType firstSentence content]. auto.
Qed.

(** The chunks of a plain text are its paragraphs that are not blank,
    trimmed and in their order, without headings and of the type
    paragraph. *)
Theorem parsePlainText_paragraphs (text file : string) :
  map content (parsePlainText text file)
  = filter truthy (map trim (splitBlankLines text))
  /\ Forall (fun c => headings c = [] /\ chunkType c = Paragraph
                      /\ firstSentence c = extractFirstSentence (content c))
       (parsePlainText text file).
Proof.
  unfold parsePlainText. split.
  - apply (plainLoop_contents _ [] 0).
  - apply plainLoop_plain. constructor.
Qed.

End PlainTextFacts.

(** ** More on insertion-ordered maps *)

Module MapFacts.

Section Keyed.
Context {K V : Type} (eqb : K -> K -> bool).
Hypothesis eqb_eq : forall x y, eqb x y = true <-> x = y.

Lemma eqb_refl (k : K) : eqb k k = true.
Proof. now apply eqb_eq. Qed.

Lemma eqb_neq (k k' : K) : k <> k' -> eqb k k' = false.
Proof.
  intros H. destruct (eqb k k') eqn:E; [|reflexivity].
  apply eqb_eq in E. contradiction.
Qed.

Lemma get_set_same (k : K) (v : V) (m : JMap.t K V) :
  JMap.get eqb k (JMap.set eqb k v m) = Some v.
Proof.
  induction m as [|[k' v'] m IH]; cbn [JMap.set JMap.get].
  - now rewrite eqb_refl.
  - destruct (eqb k k') eqn:E; cbn [JMap.get]; rewrite E; auto.
Qed.

Lemma get_set_other (k k' : K) (v : V) (m : JMap.t K V) :
  k' <> k -> JMap.get eqb k' (JMap.set eqb k v m) = JMap.get eqb k' m.
Proof.
  intros Hne. induction m as [|[k0 v0] m IH]; cbn [JMap.set JMap.get].
  - now rewrite eqb_neq.
  - destruct (eqb k k0) eqn:E; cbn [JMap.get].
    + apply eqb_eq in E. subst k0. now rewrite !eqb_neq.
    + destruct (eqb k' k0); auto.
Qed.

Lemma get_delete_other (k k' : K) (m : JMap.t K V) :
  k' <> k -> JMap.get eqb k' (JMap.delete eqb k m) = JMap.get eqb k' m.
Proof.
  intros Hne. induction m as [|[k0 v0] m IH]; cbn [JMap.delete JMap.get];
    [reflexivity|].
  destruct (eqb k k0) eqn:E; cbn [JMap.get].
  - apply eqb_eq in E. subst k0. now rewrite eqb_neq.
  - destruct (eqb k' k0); auto.
Qed.

Lemma keys_delete (k : K) (m : JMap.t K V) :
  forall x, In x (JMap.keys (JMap.delete eqb k m)) -> In x (JMap.keys m).
Proof.
  induction m as [|[k0 v0] m IH]; cbn [JMap.delete JMap.keys map]; [auto|].
  intros x. destruct (eqb k k0); cbn [map In]; [auto|].
  intros [H|H]; [auto | right; apply IH, H].
Qed.

Lemma In_delete (k : K) (m : JMap.t K V) (x : K * V) :
  In x (JMap.delete eqb k m) -> In x m.
Proof.
  induction m as [|[k0 v0] m IH]; cbn [JMap.delete]; [auto|].
  destruct (eqb k k0); cbn [In]; [auto|]. intros [H|H]; auto.
Qed.

Lemma In_delete_other (k k' : K) (v' : V) (m : JMap.t K V) :
  In (k', v') m -> k' <> k -> In (k', v') (JMap.delete eqb k m).
Proof.
  intros H Hne. induction m as [|[k0 v0] m IH]; cbn [JMap.delete];
    [contradiction|].
  destruct (eqb k k0) eqn:E.
  - apply eqb_eq in E. subst k0. destruct H as [[= -> _]|H];
      [contradiction | exact H].
  - destruct H as [H|H]; [now left | right; auto].
Qed.

Lemma wf_delete (k : K) (m : JMap.t K V) :
  JMap.wf m ->
  JMap.wf (JMap.delete eqb k m) /\ ~ In k (JMap.keys (JMap.delete eqb k m)).
Proof.
  unfold JMap.wf. induction m as [|[k0 v0] m IH];
    cbn [JMap.delete JMap.keys map]; intros Hnd.
  - split; [constructor | auto].
  - inversion Hnd as [|? ? Hk Hnd']; subst.
    destruct (IH Hnd') as [IH1 IH2].
    destruct (eqb k k0) eqn:E.
    + apply eqb_eq in E. subst k0. auto.
    + cbn [JMap.keys map]. split.
      * constructor; [|exact IH1]. intros H. apply Hk.
        eapply keys_delete; exact H.
      * cbn [In fst]. intros [->|H]; [|auto].
        rewrite eqb_refl in E. discriminate.
Qed.

Lemma get_delete_same (k : K) (m : JMap.t K V) :
  JMap.wf m -> JMap.get eqb k (JMap.delete eqb k m) = None.
Proof.
  intros Hwf. apply (JMapFacts.get_None eqb eqb_eq).
  apply wf_delete, Hwf.
Qed.

Lemma keys_set (k : K) (v : V) (m : JMap.t K V) :
  JMap.keys (JMap.set eqb k v m) = JMap.keys m
  \/ (~ In k (JMap.keys m)
      /\ JMap.keys (JMap.set eqb k v m) = JMap.keys m ++ [k]).
Proof.
  induction m as [|[k0 v0] m IH]; cbn [JMap.set JMap.keys map].
  - right. split; auto.
  - destruct (eqb k k0) eqn:E; cbn [map]; [now left|].
    destruct IH as [IH|[IH1 IH2]].
    + left. unfold JMap.keys in IH. now rewrite IH.
    + right. split.
      * cbn [In fst]. intros [->|H]; [|auto].
        rewrite eqb_refl in E. discriminate.
      * unfold JMap.keys in IH2. now rewrite IH2.
Qed.

Lemma wf_set (k : K) (v : V) (m : JMap.t K V) :
  JMap.wf m -> JMap.wf (JMap.set eqb k v m).
Proof.
  unfold JMap.wf. intros Hnd.
  destruct (keys_set k v m) as [->|[Hk ->]]; [exact Hnd|].
  apply NoDup_app; auto.
  - repeat constructor. auto.
  - intros a Ha [<-|[]]. contradiction.
Qed.

Lemma In_set (k : K) (v : V) (m : JMap.t K V) (x : K * V) :
  In x (JMap.set eqb k v m) -> x = (k, v) \/ In x m.
Proof.
  induction m as [|[k0 v0] m IH]; cbn [JMap.set In].
  - intros [<-|[]]. now left.
  - destruct (eqb k k0) eqn:E; cbn [In].
    + apply eqb_eq in E. subst k0. intros [<-|H]; auto.
    + intros [<-|H]; auto. destruct (IH H); auto.
Qed.

Lemma In_set_new (k : K) (v : V) (m : JMap.t K V) :
  In (k, v) (JMap.set eqb k v m).
Proof.
  induction m as [|[k0 v0] m IH]; cbn [JMap.set In]; [now left|].
  destruct (eqb k k0) eqn:E; cbn [In]; [|now right].
  apply eqb_eq in E. subst k0. now left.
Qed.

Lemma In_set_other (k k' : K) (v v' : V) (m : JMap.t K V) :
  In (k', v') m -> k' <> k -> In (k', v') (JMap.set eqb k v m).
Proof.
  intros H Hne. induction m as [|[k0 v0] m IH]; cbn [JMap.set];
    [contradiction|].
  destruct (eqb k k0) eqn:E; cbn [In].
  - apply eqb_eq in E. subst k0. destruct H as [[= -> _]|H];
      [contradiction | now right].
  - destruct H as [H|H]; [now left | right; auto].
Qed.

Lemma keys_In (k : K) (m : JMap.t K V) :
  In k (JMap.keys m) <-> exists v, In (k, v) m.
Proof.
  unfold JMap.keys. rewrite in_map_iff. split.
  - intros ([k' v] & E & H). cbn [fst] in E. subst. now exists v.
  - intros (v & H). now exists (k, v).
Qed.

End Keyed.
End MapFacts.

(** ** The shape of the index through scans and updates *)

Module ScannerShape.
Import JS Types Scanner IndexShape MapFacts.

Lemma allChunks_In (index : DocIndex) (c : DocChunk) :
  In c (Search.allChunks index)
  <-> exists f cs, In (f, cs) (chunks index) /\ In c cs.
Proof.
  unfold Search.allChunks, JMap.values. rewrite in_concat. split.
  - intros (cs & Hcs & Hc). apply in_map_iff in Hcs.
    destruct Hcs as ([f cs'] & E & H). cbn [snd] in E. subst. eauto.
  - intros (f & cs & H & Hc). exists cs. split; [|exact Hc].
    apply in_map_iff. now exists (f, cs).
Qed.

Lemma totalChunks_length (index : DocIndex) :
  totalChunks index = Z.of_nat (List.length (Search.allChunks index)).
Proof.
  unfold totalChunks, Search.allChunks.
  generalize (JMap.values (chunks index)). intros l.
  assert (H : forall acc,
    fold_left (fun total cs => total + Z.of_nat (List.length cs)) l acc
    = acc + Z.of_nat (List.length (List.concat l))).
  { induction l as [|cs l IH]; intros acc; cbn [fold_left List.concat].
    - cbn [List.length]. lia.
    - rewrite IH, length_app. lia. }
  rewrite H. lia.
Qed.

Lemma withCounts_counted (now : Z) (index : DocIndex) :
  counted (withCounts now index).
Proof.
  unfold counted, withCounts. cbn [metadata fileCount chunkCount chunks].
  split; [reflexivity|]. rewrite totalChunks_length. reflexivity.
Qed.

Section Pipeline.
Variable readFile : string -> option string.
Variable generateEmbedding : string -> option (list float).

Lemma embedChunks_keys (cs : list DocChunk) :
  forall m k,
    In k (JMap.keys (embedChunks generateEmbedding cs m)) ->
    In k (JMap.keys m) \/ exists c, In c cs /\ id c = k.
Proof.
  unfold embedChunks. induction cs as [|c cs IH]; intros m k H;
    cbn [fold_left] in H; [now left|].
  apply IH in H. destruct H as [H|(c' & Hc' & E)].
  - destruct (generateEmbedding (context c)); [|now left].
    apply keys_In in H. destruct H as (v & H).
    apply In_set in H; [|exact String.eqb_eq].
    destruct H as [[= -> _]|H].
    + right. exists c. split; [now left | reflexivity].
    + left. apply keys_In. now exists v.
  - right. exists c'. split; [now right | exact E].
Qed.

Lemma embedChunks_wf (cs : list DocChunk) :
  forall m, JMap.wf m -> JMap.wf (embedChunks generateEmbedding cs m).
Proof.
  unfold embedChunks. induction cs as [|c cs IH]; intros m H;
    cbn [fold_left]; [exact H|].
  apply IH. destruct (generateEmbedding (context c)); [|exact H].
  apply wf_set; [exact String.eqb_eq | exact H].
Qed.

Lemma processFile_chunks (file : string) (config : ChunkingConfig)
    (cs : list DocChunk) (c : DocChunk) :
  processFile readFile file config = Some cs -> In c cs ->
  Types.file c = file
  /\ id c = (file ++ ":" ++ numberToString (startLine c))%string.
Proof.
  unfold processFile. destruct (readFile file) as [content|];
    [|discriminate].
  intros [= <-] H. unfold processContent in H. apply in_map_iff in H.
  destruct H as (parsed & <- & _). split; reflexivity.
Qed.

(** Storing the chunks of a file keeps the chunks filed. *)
Lemma storeFile_filed (file : string) (cs : list DocChunk) (index : DocIndex) :
  filed index ->
  (forall c, In c cs ->
     Types.file c = file
     /\ id c = (file ++ ":" ++ numberToString (startLine c))%string) ->
  filed (storeFile generateEmbedding file cs index).
Proof.
  intros [Hwf Hf] Hcs. unfold storeFile.
  destruct (0 <? Z.of_nat (List.length cs)) eqn:E; [|split; assumption].
  assert (Hne : cs <> []) by (intros ->; discriminate E).
  split; cbn [chunks].
  - apply wf_set; [exact String.eqb_eq | exact Hwf].
  - intros f cs' H. apply In_set in H; [|exact String.eqb_eq].
    destruct H as [[= -> ->]|H]; [split; assumption | apply Hf, H].
Qed.

(** Storing the chunks of a file keeps every embedding with a chunk, when
    the index holds no other chunks for that file. *)
Lemma storeFile_embedded (file : string) (cs : list DocChunk)
    (index : DocIndex) :
  embedded index ->
  (forall cs', In (file, cs') (chunks index) -> cs' = cs) ->
  embedded (storeFile generateEmbedding file cs index).
Proof.
  intros [Hwe He] Hold. unfold storeFile.
  destruct (0 <? Z.of_nat (List.length cs)) eqn:E; [|split; assumption].
  assert (Hkeep : forall c, In c (Search.allChunks index) ->
            In c (Search.allChunks
                    {| chunks := JMap.set String.eqb file cs (chunks index);
                       embeddings :=
                         embedChunks generateEmbedding cs (embeddings index);
                       metadata := metadata index |})).
  { intros c Hc. apply allChunks_In in Hc. destruct Hc as (f & cs' & H & Hc).
    apply allChunks_In. cbn [chunks].
    destruct (String.eqb_spec f file) as [->|Hne'].
    - apply Hold in H. subst cs'. exists file, cs. split; [|exact Hc].
      apply In_set_new. exact String.eqb_eq.
    - exists f, cs'. split; [|exact Hc].
      apply In_set_other; [exact String.eqb_eq | exact H | exact Hne']. }
  split; cbn [chunks embeddings].
  - apply embedChunks_wf, Hwe.
  - intros k Hk. apply embedChunks_keys in Hk.
    destruct Hk as [Hk|(c & Hc & <-)].
    + destruct (He k Hk) as (c & Hc & <-). exists c. split; [|reflexivity].
      apply Hkeep, Hc.
    + exists c. split; [|reflexivity]. apply allChunks_In. cbn [chunks].
      exists file, cs. split; [|exact Hc].
      apply In_set_new. exact String.eqb_eq.
Qed.

Lemma storeFile_shape (file : string) (cs : list DocChunk) (index : DocIndex) :
  filed index -> embedded index ->
  (forall cs', In (file, cs') (chunks index) -> cs' = cs) ->
  (forall c, In c cs ->
     Types.file c = file
     /\ id c = (file ++ ":" ++ numberToString (startLine c))%string) ->
  filed (storeFile generateEmbedding file cs index)
  /\ embedded (storeFile generateEmbedding file cs index).
Proof.
  intros Hf He Hold Hcs. split;
    [apply storeFile_filed | apply storeFile_embedded]; assumption.
Qed.

Lemma prefix_app (a b : string) : String.prefix a (a ++ b)%string = true.
Proof.
  induction a as [|c a IH]; cbn [append String.prefix].
  - destruct b; reflexivity.
  - destruct (ascii_dec c c); [exact IH | contradiction].
Qed.

Lemma filter_wf {V : Type} (keep : string * V -> bool) (m : JMap.t string V) :
  JMap.wf m -> JMap.wf (filter keep m).
Proof.
  unfold JMap.wf, JMap.keys. intros Hwe.
  induction m as [|[k v] m IH]; cbn [filter map]; [constructor|].
  inversion Hwe as [|? ? Hk Hnd]; subst.
  destruct (keep (k, v)); cbn [map]; [|auto].
  constructor; [|auto]. intros H. apply Hk.
  apply in_map_iff in H. destruct H as (x & E & H).
  apply filter_In in H. apply in_map_iff. exists x. tauto.
Qed.

(** Clearing a file keeps the chunks filed. *)
Lemma cleared_filed (index : DocIndex) (file : string)
    (embeddings' : JMap.t string Float32Array) :
  filed index ->
  filed {| chunks := JMap.delete String.eqb file (chunks index);
           embeddings := embeddings'; metadata := metadata index |}
  /\ ~ In file (JMap.keys (JMap.delete String.eqb file (chunks index))).
Proof.
  intros [Hwf Hf].
  destruct (wf_delete String.eqb String.eqb_eq file (chunks index) Hwf)
    as [Hwd Hnone].
  split; [|exact Hnone]. split; [exact Hwd|]. cbn [chunks]. intros f cs H.
  apply In_delete in H. apply Hf, H.
Qed.

Lemma updateFile_filed (config : ChunkingConfig) (index : DocIndex)
    (file : string) :
  filed index ->
  filed (updateFile readFile generateEmbedding config index file).
Proof.
  intros Hf. unfold updateFile.
  destruct (cleared_filed index file
              (filter (fun entry => negb (startsWith (fst entry) (file ++ ":")))
                 (embeddings index)) Hf) as [Hfc _].
  destruct (processFile readFile file config) as [cs|] eqn:E; [|exact Hfc].
  apply storeFile_filed; [exact Hfc|].
  intros c Hc. eapply processFile_chunks; eassumption.
Qed.

(** Updating a file keeps the shape of the index. *)
Lemma updateFile_shape (config : ChunkingConfig) (index : DocIndex)
    (file : string) :
  filed index -> embedded index ->
  filed (updateFile readFile generateEmbedding config index file)
  /\ embedded (updateFile readFile generateEmbedding config index file).
Proof.
  intros Hf He. split; [apply updateFile_filed, Hf|].
  destruct He as [Hwe He]. unfold updateFile.
  set (cleared := {| chunks := JMap.delete String.eqb file (chunks index);
                     embeddings := _; metadata := metadata index |}).
  destruct (cleared_filed index file (embeddings cleared) Hf) as [_ Hnone].
  assert (Hec : embedded cleared).
  { split; cbn [cleared embeddings].
    - apply filter_wf, Hwe.
    - intros k Hk. apply keys_In in Hk. destruct Hk as (v & Hk).
      apply filter_In in Hk. destruct Hk as [Hk Hpre]. cbn [fst] in Hpre.
      assert (Hk' : In k (JMap.keys (embeddings index)))
        by (apply keys_In; now exists v).
      destruct (He k Hk') as (c & Hc & <-). exists c. split; [|reflexivity].
      apply allChunks_In in Hc. destruct Hc as (f & cs & H & Hc).
      apply allChunks_In. exists f, cs. split; [|exact Hc].
      cbn [cleared chunks].
      apply In_delete_other; [exact String.eqb_eq | exact H |].
      intros ->. destruct Hf as [_ Hf]. destruct (Hf _ _ H) as [_ Hid].
      destruct (Hid c Hc) as [_ E]. rewrite E in Hpre.
      unfold startsWith in Hpre.
      rewrite <- StringFacts.append_assoc, prefix_app in Hpre.
      discriminate. }
  destruct (processFile readFile file config) as [cs|] eqn:E; [|exact Hec].
  apply storeFile_embedded; [exact Hec|].
  intros cs' H. exfalso. apply Hnone. apply keys_In. now exists cs'.
Qed.

Lemma updateLoop_shape (config : ChunkingConfig) (files : list string) :
  forall index,
    filed index -> embedded index ->
    filed (fold_left (updateFile readFile generateEmbedding config) files index)
    /\ embedded
         (fold_left (updateFile readFile generateEmbedding config) files index).
Proof.
  induction files as [|file rest IH]; intros index Hf He; cbn [fold_left];
    [auto|].
  destruct (updateFile_shape config index file Hf He). apply IH; assumption.
Qed.

Lemma withCounts_shape (now : Z) (index : DocIndex) :
  filed index -> embedded index ->
  filed (withCounts now index) /\ embedded (withCounts now index).
Proof. intros H1 H2. split; [exact H1 | exact H2]. Qed.

(** An incremental update keeps the shape of the index: every file of
    the index holds at least one chunk, filed under its path with the
    identifier made of the path and the start line, and every embedding
    belongs to a chunk of the index. It leaves the file and chunk counts
    equal to the numbers of files and chunks, sets the time of the
    index, and keeps its version. *)
Theorem updateIndexForFiles_shape (index : DocIndex) (files : list string)
    (config : ChunkingConfig) (now : Z) :
  filed index -> embedded index ->
  let updated :=
    updateIndexForFiles readFile generateEmbedding index files config now in
  filed updated /\ embedded updated /\ counted updated
  /\ indexedAt (metadata updated) = now
  /\ version (metadata updated) = version (metadata index).
Proof.
  intros Hf He. cbv zeta. unfold updateIndexForFiles.
  destruct (updateLoop_shape config files index Hf He) as [Hf' He'].
  destruct (withCounts_shape now _ Hf' He') as [Hf'' He''].
  split; [exact Hf''|]. split; [exact He''|].
  split; [apply withCounts_counted|]. split; [reflexivity|].
  cbn [withCounts metadata version]. clear.
  revert index. induction files as [|file rest IH]; intros index;
    cbn [fold_left]; [reflexivity|].
  rewrite IH. unfold updateFile.
  destruct (processFile readFile file config) as [cs|]; [|reflexivity].
  unfold storeFile. destruct (0 <? _); reflexivity.
Qed.

(** *** What the index holds for a file *)

Lemma chunks_storeFile (file : string) (cs : list DocChunk) (index : DocIndex) :
  chunks (storeFile generateEmbedding file cs index)
  = match cs with
    | [] => chunks index
    | _ :: _ => JMap.set String.eqb file cs (chunks index)
    end.
Proof. unfold storeFile. destruct cs; reflexivity. Qed.

Lemma chunks_updateFile (config : ChunkingConfig) (index : DocIndex)
    (file : string) :
  chunks (updateFile readFile generateEmbedding config index file)
  = match freshChunks readFile file config with
    | Some cs =>
        JMap.set String.eqb file cs
          (JMap.delete String.eqb file (chunks index))
    | None => JMap.delete String.eqb file (chunks index)
    end.
Proof.
  unfold updateFile, freshChunks.
  destruct (processFile readFile file config) as [[|c cs]|]; reflexivity.
Qed.

Lemma get_updateFile (config : ChunkingConfig) (index : DocIndex)
    (file f : string) :
  JMap.wf (chunks index) ->
  JMap.wf (chunks (updateFile readFile generateEmbedding config index file))
  /\ JMap.get String.eqb f
       (chunks (updateFile readFile generateEmbedding config index file))
     = if String.eqb f file then freshChunks readFile file config
       else JMap.get String.eqb f (chunks index).
Proof.
  intros Hwf. rewrite chunks_updateFile.
  destruct (wf_delete String.eqb String.eqb_eq file (chunks index) Hwf)
    as [Hwd _].
  destruct (String.eqb_spec f file) as [->|Hne].
  - destruct (freshChunks readFile file config) as [cs|].
    + split; [apply wf_set; [exact String.eqb_eq | exact Hwd]|].
      apply get_set_same. exact String.eqb_eq.
    + split; [exact Hwd|]. apply get_delete_same;
        [exact String.eqb_eq | exact Hwf].
  - destruct (freshChunks readFile file config) as [cs|].
    + split; [apply wf_set; [exact String.eqb_eq | exact Hwd]|].
      rewrite get_set_other by (exact String.eqb_eq || exact Hne).
      apply get_delete_other; [exact String.eqb_eq | exact Hne].
    + split; [exact Hwd|].
      apply get_delete_other; [exact String.eqb_eq | exact Hne].
Qed.

Lemma updateLoop_chunks (config : ChunkingConfig) (files : list string)
    (f : string) :
  forall index,
    JMap.wf (chunks index) ->
    let updated :=
      fold_left (updateFile readFile generateEmbedding config) files index in
    (In f files ->
     JMap.get String.eqb f (chunks updated) = freshChunks readFile f config)
    /\ (~ In f files ->
        JMap.get String.eqb f (chunks updated)
        = JMap.get String.eqb f (chunks index)).
Proof.
  cbv zeta.
  induction files as [|file rest IH]; intros index Hwf; cbn [fold_left].
  - split; [contradiction | reflexivity].
  - destruct (get_updateFile config index file f Hwf) as [Hwf' Hget].
    destruct (IH _ Hwf') as [IH1 IH2]. split.
    + intros Hin. destruct (in_dec string_dec f rest) as [Hr|Hr];
        [apply IH1, Hr|].
      rewrite (IH2 Hr), Hget. destruct Hin as [->|Hin]; [|contradiction].
      now rewrite String.eqb_refl.
    + intros Hn. rewrite IH2, Hget by (intros H; apply Hn; now right).
      destruct (String.eqb_spec f file) as [->|_]; [|reflexivity].
      exfalso. apply Hn. now left.
Qed.

(** After an incremental update the index holds, for every file of the
    update, the chunks a fresh processing of the file gives, and nothing
    when the file is gone or has no chunk; the other files keep their
    chunks. *)
Theorem updateIndexForFiles_chunks (index : DocIndex) (files : list string)
    (config : ChunkingConfig) (now : Z) (f : string) :
  JMap.wf (chunks index) ->
  let updated :=
    updateIndexForFiles readFile generateEmbedding index files config now in
  (In f files ->
   JMap.get String.eqb f (chunks updated) = freshChunks readFile f config)
  /\ (~ In f files ->
      JMap.get String.eqb f (chunks updated)
      = JMap.get String.eqb f (chunks index)).
Proof.
  intros Hwf. cbv zeta. unfold updateIndexForFiles.
  cbn [withCounts chunks]. apply updateLoop_chunks, Hwf.
Qed.

(** *** The full scan *)

Lemma scanLoop_chunks (config : ChunkingConfig) (files : list string)
    (f : string) :
  forall index,
    let scanned :=
      fold_left
        (fun index file =>
           match processFile readFile file config with
           | Some chunks => storeFile generateEmbedding file chunks index
           | None => index
           end) files index in
    (JMap.get String.eqb f (chunks index) = None
     \/ JMap.get String.eqb f (chunks index) = freshChunks readFile f config) ->
    (In f files ->
     JMap.get String.eqb f (chunks scanned) = freshChunks readFile f config)
    /\ (~ In f files ->
        JMap.get String.eqb f (chunks scanned)
        = JMap.get String.eqb f (chunks index)).
Proof.
  induction files as [|file rest IH]; intros index; cbn [fold_left].
  - cbv zeta. intros _. split; [contradiction | reflexivity].
  - cbv zeta. intros Hold.
    set (index1 := match processFile readFile file config with
                   | Some chunks => storeFile generateEmbedding file chunks index
                   | None => index
                   end).
    assert (Hget : JMap.get String.eqb f (chunks index1)
                   = if String.eqb f file
                     then match freshChunks readFile file config with
                          | Some cs => Some cs
                          | None => JMap.get String.eqb f (chunks index)
                          end
                     else JMap.get String.eqb f (chunks index)).
    { unfold index1, freshChunks.
      destruct (processFile readFile file config) as [[|c cs]|];
        rewrite ?chunks_storeFile;
        destruct (String.eqb_spec f file) as [->|Hne]; try reflexivity.
      - apply get_set_same. exact String.eqb_eq.
      - apply get_set_other; [exact String.eqb_eq | exact Hne]. }
    assert (Hold1 : JMap.get String.eqb f (chunks index1) = None
                    \/ JMap.get String.eqb f (chunks index1)
                       = freshChunks readFile f config).
    { rewrite Hget. destruct (String.eqb_spec f file) as [->|_]; [|exact Hold].
      destruct (freshChunks readFile file config); [now right | exact Hold]. }
    destruct (IH index1 Hold1) as [IH1 IH2]. split.
    + intros Hin. destruct (in_dec string_dec f rest) as [Hr|Hr];
        [apply IH1, Hr|].
      rewrite (IH2 Hr), Hget. destruct Hin as [->|Hin]; [|contradiction].
      rewrite String.eqb_refl.
      destruct (freshChunks readFile f config) eqn:E; [reflexivity|].
      destruct Hold as [H|H]; [exact H | now rewrite H].
    + intros Hn. rewrite IH2, Hget by (intros H; apply Hn; now right).
      destruct (String.eqb_spec f file) as [->|_]; [|reflexivity].
      exfalso. apply Hn. now left.
Qed.

(** After a full scan the index holds, for every file of the scan, the
    chunks the processing of the file gives, and nothing for a file that
    cannot be read or has no chunk, nor for any other file. *)
Theorem scanAndIndexDocumentation_chunks (files : list string) (now : Z)
    (config : ChunkingConfig) (f : string) :
  JMap.get String.eqb f
    (chunks (scanAndIndexDocumentation readFile generateEmbedding files now
               config))
  = if in_dec string_dec f files then freshChunks readFile f config
    else None.
Proof.
  unfold scanAndIndexDocumentation. cbn [withCounts chunks].
  destruct (scanLoop_chunks config files f (Storage.createEmptyIndex now))
    as [H1 H2]; [now left|].
  destruct (in_dec string_dec f files) as [Hin|Hn]; [apply H1, Hin|].
  rewrite (H2 Hn). reflexivity.
Qed.

Lemma scanLoop_shape (config : ChunkingConfig) (files : list string) :
  forall index,
    filed index -> embedded index ->
    (forall f cs, In (f, cs) (chunks index) ->
       processFile readFile f config = Some cs) ->
    let scanned :=
      fold_left
        (fun index file =>
           match processFile readFile file config with
           | Some chunks => storeFile generateEmbedding file chunks index
           | None => index
           end) files index in
    filed scanned /\ embedded scanned
    /\ version (metadata scanned) = version (metadata index).
Proof.
  induction files as [|file rest IH]; intros index Hf He Hfresh;
    cbn [fold_left]; cbv zeta; [auto|].
  destruct (processFile readFile file config) as [cs|] eqn:E;
    [|apply IH; assumption].
  destruct (storeFile_shape file cs index Hf He) as [Hf' He'].
  - intros cs' H. apply Hfresh in H. congruence.
  - intros c Hc. eapply processFile_chunks; eassumption.
  - assert (Hv : version (metadata (storeFile generateEmbedding file cs index))
                 = version (metadata index))
      by (unfold storeFile; destruct (0 <? _); reflexivity).
    rewrite <- Hv. apply IH; auto.
    intros f cs' H. rewrite chunks_storeFile in H.
    destruct cs as [|c cs0]; [apply Hfresh, H|].
    apply In_set in H; [|exact String.eqb_eq].
    destruct H as [[= -> ->]|H]; [exact E | apply Hfresh, H].
Qed.

Lemma scan_filed (files : list string) (now : Z) (config : ChunkingConfig) :
  filed (scanAndIndexDocumentation readFile generateEmbedding files now config).
Proof.
  unfold scanAndIndexDocumentation.
  destruct (scanLoop_shape config files (Storage.createEmptyIndex now))
    as (Hf & _ & _).
  - split; [constructor | intros f cs []].
  - split; [constructor | intros k []].
  - intros f cs [].
  - exact Hf.
Qed.

(** A full scan gives an index in which every file holds at least one
    chunk, filed under its path with the identifier made of the path and
    the start line, and every embedding belongs to a chunk of the index;
    the file and chunk counts are the numbers of its files and chunks,
    and its version is the current one. *)
Theorem scanAndIndexDocumentation_shape (files : list string) (now : Z)
    (config : ChunkingConfig) :
  let index :=
    scanAndIndexDocumentation readFile generateEmbedding files now config in
  filed index /\ embedded index /\ counted index
  /\ indexedAt (metadata index) = now
  /\ version (metadata index) = Storage.INDEX_VERSION.
Proof.
  cbv zeta. unfold scanAndIndexDocumentation.
  destruct (scanLoop_shape config files (Storage.createEmptyIndex now))
    as (Hf & He & Hv).
  - split; [constructor | intros f cs []].
  - split; [constructor | intros k []].
  - intros f cs [].
  - destruct (withCounts_shape now _ Hf He) as [Hf' He'].
    split; [exact Hf'|]. split; [exact He'|].
    split; [apply withCounts_counted|]. split; [reflexivity|].
    cbn [withCounts metadata version]. cbv zeta in Hv. rewrite Hv. reflexivity.
Qed.

End Pipeline.

(** *** The sample index *)

Lemma sampleIndex_filed : filed Samples.sampleIndex.
Proof.
  split; [repeat constructor; simpl; intuition discriminate|].
  intros f cs [[= <- <-]|[[= <- <-]|[]]];
    (split; [discriminate|]); intros c [<-|[]]; split; reflexivity.
Qed.

Lemma sampleIndex_embedded : embedded Samples.sampleIndex.
Proof.
  split; [repeat constructor; simpl; intuition discriminate|].
  intros k [<-|[<-|[]]].
  - exists Samples.authChunk. split; [left; reflexivity | reflexivity].
  - exists Samples.setupChunk. split; [right; left; reflexivity | reflexivity].
Qed.

(** An instance: the sample index updated for the guide, a new file,
    and for a file that is gone. *)
Lemma updateIndexForFiles_shape_witness :
  filed Samples.sampleIndex /\ embedded Samples.sampleIndex
  /\ counted
       (updateIndexForFiles MoreSamples.guideFiles MoreSamples.noEmbedding
          Samples.sampleIndex ["docs/guide.md"; "docs/guides/setup.md"]
          DEFAULT_CHUNKING_CONFIG 1700000000500)
  /\ embedded
       (updateIndexForFiles MoreSamples.guideFiles MoreSamples.noEmbedding
          Samples.sampleIndex ["docs/guide.md"; "docs/guides/setup.md"]
          DEFAULT_CHUNKING_CONFIG 1700000000500).
Proof.
  split; [exact sampleIndex_filed | split; [exact sampleIndex_embedded|]].
  destruct (updateIndexForFiles_shape MoreSamples.guideFiles
              MoreSamples.noEmbedding Samples.sampleIndex
              ["docs/guide.md"; "docs/guides/setup.md"]
              DEFAULT_CHUNKING_CONFIG 1700000000500
              sampleIndex_filed sampleIndex_embedded)
    as (_ & He & Hc & _).
  split; [exact Hc | exact He].
Defined.

(** An instance: after that update the file that is gone has no chunks
    left. *)
Lemma updateIndexForFiles_chunks_witness :
  JMap.wf (chunks Samples.sampleIndex)
  /\ JMap.get String.eqb "docs/guides/setup.md"
       (chunks
          (updateIndexForFiles MoreSamples.guideFiles MoreSamples.noEmbedding
             Samples.sampleIndex ["docs/guide.md"; "docs/guides/setup.md"]
             DEFAULT_CHUNKING_CONFIG 1700000000500))
     = freshChunks MoreSamples.guideFiles "docs/guides/setup.md"
         DEFAULT_CHUNKING_CONFIG.
Proof.
  assert (H : JMap.wf (chunks Samples.sampleIndex))
    by (repeat constructor; simpl; intuition discriminate).
  split; [exact H|].
  destruct (updateIndexForFiles_chunks MoreSamples.guideFiles
              MoreSamples.noEmbedding Samples.sampleIndex
              ["docs/guide.md"; "docs/guides/setup.md"]
              DEFAULT_CHUNKING_CONFIG 1700000000500 "docs/guides/setup.md" H)
    as [Hin _].
  apply Hin. right. left. reflexivity.
Defined.

End ScannerShape.

(** ** Identifiers across the index *)

Module UniqueIds.
Import JS Types Scanner IndexShape MapFacts ScannerShape Vocabulary IdFacts.

Lemma digits_no_colon (d : Decimal.uint) :
  includes (NilEmpty.string_of_uint d) ":" = false.
Proof.
  induction d; cbn [NilEmpty.string_of_uint includes]; [reflexivity|..];
    rewrite IHd; reflexivity.
Qed.

Lemma numberToString_no_colon (n : Z) : includes (numberToString n) ":" = false.
Proof.
  unfold numberToString, NilZero.string_of_int, NilZero.string_of_uint.
  destruct (Z.to_int n) as [d|d]; destruct d; try reflexivity;
    try apply digits_no_colon.
  all: cbn [includes]; rewrite digits_no_colon; reflexivity.
Qed.

(** An identifier tells its file: the path is what precedes the last
    colon. *)
Lemma id_file_inj (a b x y : string) :
  (a ++ ":" ++ x)%string = (b ++ ":" ++ y)%string ->
  includes x ":" = false -> includes y ":" = false -> a = b.
Proof.
  revert b. induction a as [|c a IH]; intros b E Hx Hy.
  - destruct b as [|c' b]; [reflexivity|]. exfalso.
    cbn [append] in E. injection E as E1 E. subst c'.
    assert (H : includes x ":" = true)
      by (apply SearchFacts.includes_spec; exists b, y; exact E).
    congruence.
  - destruct b as [|c' b].
    + exfalso. cbn [append] in E. injection E as E1 E. subst c.
      assert (H : includes y ":" = true)
        by (apply SearchFacts.includes_spec; exists a, x; symmetry; exact E).
      congruence.
    + cbn [append] in E. injection E as -> E. f_equal. eapply IH; eauto.
Qed.

(** In an index whose chunks are filed, the identifiers are distinct as
    soon as they are distinct within each file. *)
Lemma filed_uniqueIds (index : DocIndex) :
  filed index ->
  (forall f cs, In (f, cs) (chunks index) -> NoDup (map id cs)) ->
  uniqueIds index.
Proof.
  intros [Hwf Hf] Hnd. unfold uniqueIds, Search.allChunks, JMap.values.
  unfold JMap.wf, JMap.keys in Hwf.
  induction (chunks index) as [|[f cs] m IH]; cbn [map List.concat];
    [constructor|].
  inversion Hwf as [|? ? Hk Hwf']; subst. rewrite map_app.
  apply NoDup_app.
  - apply (Hnd f). now left.
  - apply IH; [exact Hwf' | |]; intros f' cs' H;
      [apply Hf | apply (Hnd f')]; now right.
  - intros i Hi Hi'. apply in_map_iff in Hi. destruct Hi as (c & <- & Hc).
    apply in_map_iff in Hi'. destruct Hi' as (c' & E & Hc').
    apply in_concat in Hc'. destruct Hc' as (cs' & Hcs' & Hc').
    apply in_map_iff in Hcs'. destruct Hcs' as ([f' cs''] & E' & Hm).
    cbn [snd] in E'. subst cs''.
    destruct (Hf f cs (or_introl eq_refl)) as [_ H1].
    destruct (H1 c Hc) as [_ Ec].
    destruct (Hf f' cs' (or_intror Hm)) as [_ H2].
    destruct (H2 c' Hc') as [_ Ec'].
    rewrite Ec, Ec' in E. apply id_file_inj in E;
      try apply numberToString_no_colon.
    subst f'. apply Hk. cbn [fst]. apply in_map_iff. now exists (f, cs').
Qed.

Lemma uniqueIds_per_file (index : DocIndex) (f : string) (cs : list DocChunk) :
  uniqueIds index -> In (f, cs) (chunks index) -> NoDup (map id cs).
Proof.
  unfold uniqueIds, Search.allChunks, JMap.values.
  induction (chunks index) as [|[f' cs'] m IH]; cbn [map List.concat];
    [contradiction|].
  rewrite map_app. intros Hnd [[= -> ->]|H].
  - apply NoDup_app_remove_r in Hnd. exact Hnd.
  - apply IH; [|exact H]. apply NoDup_app_remove_l in Hnd. exact Hnd.
Qed.

Section Pipeline.
Variable readFile : string -> option string.
Variable generateEmbedding : string -> option (list float).

Lemma processFile_distinct (file : string) (config : ChunkingConfig)
    (cs : list DocChunk) :
  notRST file -> orderedThresholds config ->
  processFile readFile file config = Some cs -> NoDup (map id cs).
Proof.
  intros Hrst Hcfg. unfold processFile.
  destruct (readFile file) as [content|]; [|discriminate].
  intros [= <-]. apply processContent_NoDup; assumption.
Qed.

Lemma storeFile_distinct (file : string) (cs : list DocChunk)
    (index : DocIndex) :
  (forall f cs', In (f, cs') (chunks index) -> NoDup (map id cs')) ->
  NoDup (map id cs) ->
  forall f cs',
    In (f, cs') (chunks (storeFile generateEmbedding file cs index)) ->
    NoDup (map id cs').
Proof.
  intros Hold Hcs f cs' H. rewrite chunks_storeFile in H.
  destruct cs as [|c cs0]; [eapply Hold; exact H|].
  apply In_set in H; [|exact String.eqb_eq].
  destruct H as [[= -> ->]|H]; [exact Hcs | eapply Hold; exact H].
Qed.

Lemma updateFile_distinct (config : ChunkingConfig) (index : DocIndex)
    (file : string) :
  notRST file -> orderedThresholds config ->
  (forall f cs, In (f, cs) (chunks index) -> NoDup (map id cs)) ->
  forall f cs,
    In (f, cs) (chunks (updateFile readFile generateEmbedding config index
                          file)) ->
    NoDup (map id cs).
Proof.
  intros Hrst Hcfg Hold. unfold updateFile.
  set (cleared := {| chunks := JMap.delete String.eqb file (chunks index);
                     embeddings := _; metadata := metadata index |}).
  assert (Hc : forall f cs, In (f, cs) (chunks cleared) -> NoDup (map id cs)).
  { cbn [cleared chunks]. intros f cs H. apply In_delete in H.
    eapply Hold; exact H. }
  destruct (processFile readFile file config) as [cs|] eqn:E; [|exact Hc].
  apply storeFile_distinct; [exact Hc|].
  eapply processFile_distinct; eassumption.
Qed.

Lemma scanLoop_distinct (config : ChunkingConfig) (files : list string) :
  (forall f, In f files -> notRST f) -> orderedThresholds config ->
  forall index,
    (forall f cs, In (f, cs) (chunks index) -> NoDup (map id cs)) ->
    forall f cs,
      In (f, cs)
        (chunks
           (fold_left
              (fun index file =>
                 match processFile readFile file config with
                 | Some chunks => storeFile generateEmbedding file chunks index
                 | None => index
                 end) files index)) ->
      NoDup (map id cs).
Proof.
  intros Hrst Hcfg.
  induction files as [|file rest IH]; intros index H0; cbn [fold_left];
    [exact H0|].
  apply (IH (fun f H => Hrst f (or_intror H))).
  destruct (processFile readFile file config) as [cs|] eqn:E; [|exact H0].
  apply storeFile_distinct; [exact H0|].
  eapply processFile_distinct; try eassumption. apply Hrst. now left.
Qed.

(** Without RST files, and with thresholds in order, the identifiers of
    the chunks are distinct after a full scan, and an incremental update
    keeps them distinct. *)
Theorem chunk_ids_distinct_without_RST (files : list string)
    (config : ChunkingConfig) (now : Z) :
  (forall f, In f files -> notRST f) -> orderedThresholds config ->
  uniqueIds
    (scanAndIndexDocumentation readFile generateEmbedding files now config)
  /\ forall index,
       filed index -> uniqueIds index ->
       uniqueIds
         (updateIndexForFiles readFile generateEmbedding index files config
            now).
Proof.
  intros Hrst Hcfg. split.
  - apply filed_uniqueIds;
      [apply (scan_filed readFile generateEmbedding)|].
    unfold scanAndIndexDocumentation. cbn [withCounts chunks].
    apply scanLoop_distinct; [exact Hrst | exact Hcfg|].
    intros f cs [].
  - intros index Hf Hu. unfold updateIndexForFiles.
    assert (H : filed (fold_left (updateFile readFile generateEmbedding config)
                         files index)
                /\ forall f cs,
                     In (f, cs)
                       (chunks (fold_left
                                  (updateFile readFile generateEmbedding config)
                                  files index)) ->
                     NoDup (map id cs)).
    { assert (H0 : forall f cs, In (f, cs) (chunks index) -> NoDup (map id cs))
        by (intros f cs H; eapply uniqueIds_per_file; eassumption).
      clear Hu. revert index Hf H0.
      induction files as [|file rest IH]; intros index Hf H0; cbn [fold_left];
        [auto|].
      apply (IH (fun f H => Hrst f (or_intror H))).
      - apply updateFile_filed, Hf.
      - apply updateFile_distinct; auto. apply Hrst. now left. }
    destruct H as [Hf' Hd]. apply filed_uniqueIds; [exact Hf' | exact Hd].
Qed.

End Pipeline.

(** An instance: a scan of the guide of the samples, and an update of
    the sample index for it. *)
Lemma chunk_ids_distinct_without_RST_witness :
  (forall f, In f ["docs/guide.md"] -> notRST f)
  /\ orderedThresholds DEFAULT_CHUNKING_CONFIG
  /\ uniqueIds
       (scanAndIndexDocumentation MoreSamples.guideFiles MoreSamples.noEmbedding
          ["docs/guide.md"] 1700000000000 DEFAULT_CHUNKING_CONFIG)
  /\ uniqueIds
       (updateIndexForFiles MoreSamples.guideFiles MoreSamples.noEmbedding
          Samples.sampleIndex ["docs/guide.md"] DEFAULT_CHUNKING_CONFIG
          1700000000000).
Proof.
  assert (H1 : forall f, In f ["docs/guide.md"] -> notRST f)
    by (intros f [<-|[]]; vm_compute; discriminate).
  assert (H2 : orderedThresholds DEFAULT_CHUNKING_CONFIG)
    by (intros _; vm_compute; discriminate).
  assert (H3 : uniqueIds Samples.sampleIndex)
    by (repeat constructor; simpl; intuition discriminate).
  split; [exact H1 | split; [exact H2|]].
  destruct (chunk_ids_distinct_without_RST MoreSamples.guideFiles
              MoreSamples.noEmbedding ["docs/guide.md"]
              DEFAULT_CHUNKING_CONFIG 1700000000000 H1 H2) as [Hscan Hupdate].
  split; [exact Hscan|].
  exact (Hupdate Samples.sampleIndex sampleIndex_filed H3).
Defined.

End UniqueIds.

(** ** Incremental updates against full scans *)

Module Incremental.
Import JS Types Scanner IndexShape MapFacts ScannerShape.

Lemma freshChunks_ext (readFile readFile' : string -> option string)
    (file : string) (config : ChunkingConfig) :
  readFile' file = readFile file ->
  freshChunks readFile' file config = freshChunks readFile file config.
Proof. intros E. unfold freshChunks, processFile. now rewrite E. Qed.

(** An incremental update agrees with a full scan: when every file whose
    content changed since the scan is in the update, the updated index
    holds for every file the chunks a full scan of all the files on the
    new content would hold. *)
Theorem update_agrees_with_rescan
    (before after : string -> option string)
    (generateEmbedding generateEmbedding' generateEmbedding''
       : string -> option (list float))
    (files updated : list string) (config : ChunkingConfig)
    (scanned now now' : Z) :
  (forall f, ~ In f updated -> after f = before f) ->
  forall f,
    JMap.get String.eqb f
      (chunks
         (updateIndexForFiles after generateEmbedding'
            (scanAndIndexDocumentation before generateEmbedding files scanned
               config)
            updated config now))
    = JMap.get String.eqb f
        (chunks
           (scanAndIndexDocumentation after generateEmbedding''
              (files ++ updated) now' config)).
Proof.
  intros Hsame f.
  assert (Hscan : forall readFile embed l t,
    JMap.get String.eqb f
      (chunks (scanAndIndexDocumentation readFile embed l t config))
    = if in_dec string_dec f l then freshChunks readFile f config else None).
  { intros readFile embed l t. unfold scanAndIndexDocumentation.
    cbn [withCounts chunks].
    destruct (scanLoop_chunks readFile embed config l f
                (Storage.createEmptyIndex t)) as [H1 H2]; [now left|].
    destruct (in_dec string_dec f l) as [Hin|Hn]; [apply H1, Hin|].
    rewrite (H2 Hn). reflexivity. }
  rewrite (Hscan after).
  unfold updateIndexForFiles. cbn [withCounts chunks].
  destruct (updateLoop_chunks after generateEmbedding' config updated f
              (scanAndIndexDocumentation before generateEmbedding files
                 scanned config)) as [H1 H2].
  { apply (scan_filed before generateEmbedding). }
  destruct (in_dec string_dec f updated) as [Hu|Hu].
  - rewrite (H1 Hu).
    destruct (in_dec string_dec f (files ++ updated)) as [_|Hn];
      [reflexivity|].
    exfalso. apply Hn, in_or_app. now right.
  - rewrite (H2 Hu), (Hscan before).
    destruct (in_dec string_dec f files) as [Hf|Hf];
      destruct (in_dec string_dec f (files ++ updated)) as [Hin|Hn].
    + symmetry. apply freshChunks_ext, Hsame, Hu.
    + exfalso. apply Hn, in_or_app. now left.
    + exfalso. apply in_app_or in Hin. tauto.
    + reflexivity.
Qed.

(** An instance: the guide of the samples appears after a scan of an
    empty project, and is brought in by an update. *)
Lemma update_agrees_with_rescan_witness :
  (forall f, ~ In f ["docs/guide.md"] ->
     MoreSamples.guideFiles f = MoreSamples.nothingToRead f)
  /\ JMap.get String.eqb "docs/guide.md"
       (chunks
          (updateIndexForFiles MoreSamples.guideFiles MoreSamples.noEmbedding
             (scanAndIndexDocumentation MoreSamples.nothingToRead
                MoreSamples.noEmbedding [] 1700000000000
                DEFAULT_CHUNKING_CONFIG)
             ["docs/guide.md"] DEFAULT_CHUNKING_CONFIG 1700000000500))
     = JMap.get String.eqb "docs/guide.md"
         (chunks
            (scanAndIndexDocumentation MoreSamples.guideFiles
               MoreSamples.noEmbedding ([] ++ ["docs/guide.md"])
               1700000000500 DEFAULT_CHUNKING_CONFIG)).
Proof.
  assert (H : forall f, ~ In f ["docs/guide.md"] ->
                MoreSamples.guideFiles f = MoreSamples.nothingToRead f).
  { intros f Hn. unfold MoreSamples.guideFiles, MoreSamples.nothingToRead.
    destruct (String.eqb_spec f "docs/guide.md") as [->|_]; [|reflexivity].
    exfalso. apply Hn. left. reflexivity. }
  split; [exact H|].
  exact (update_agrees_with_rescan MoreSamples.nothingToRead
           MoreSamples.guideFiles MoreSamples.noEmbedding
           MoreSamples.noEmbedding MoreSamples.noEmbedding []
           ["docs/guide.md"] DEFAULT_CHUNKING_CONFIG 1700000000000
           1700000000500 1700000000500 H "docs/guide.md").
Defined.

End Incremental.

(** ** The reconciliation *)

Module SyncFacts.
Import JS Types Sync IndexShape MapFacts ScannerShape.

Section Reconcile.
Variable readFile : string -> option string.
Variable generateEmbedding : string -> option (list float).
Variable existsSync : string -> bool.
Variable mtimeMs : string -> option float.

(** After the reconciliation an indexed file that is gone has left the
    index; a file found on disk that was not indexed, or that was
    modified after the index was built, holds the chunks of a fresh
    processing; every file that is not queued keeps its chunks; and with
    nothing queued the index is left as it is. *)
Theorem validateAndSyncIndex_reconciles (index : DocIndex)
    (currentFiles : list string) (now : Z) :
  JMap.wf (chunks index) ->
  (forall f, existsSync f = false -> readFile f = None) ->
  let synced :=
    validateAndSyncIndex readFile generateEmbedding existsSync mtimeMs index
      currentFiles now in
  (forall f,
     In f (JMap.keys (chunks index)) -> existsSync f = false ->
     JMap.get String.eqb f (chunks synced) = None)
  /\ (forall f,
        In f currentFiles -> ~ In f (JMap.keys (chunks index)) ->
        JMap.get String.eqb f (chunks synced)
        = freshChunks readFile f DEFAULT_CHUNKING_CONFIG)
  /\ (forall f modified,
        In f currentFiles -> mtimeMs f = Some modified ->
        (JSMath.ofInteger (indexedAt (metadata index)) <? modified)%float = true ->
        JMap.get String.eqb f (chunks synced)
        = freshChunks readFile f DEFAULT_CHUNKING_CONFIG)
  /\ (forall f,
        ~ In f (filesToUpdate existsSync mtimeMs index currentFiles) ->
        JMap.get String.eqb f (chunks synced)
        = JMap.get String.eqb f (chunks index))
  /\ (filesToUpdate existsSync mtimeMs index currentFiles = [] ->
      synced = index).
Proof.
  intros Hwf Hgone. cbv zeta.
  set (files := filesToUpdate existsSync mtimeMs index currentFiles).
  assert (Hqueued : forall f, In f files ->
    JMap.get String.eqb f
      (chunks (validateAndSyncIndex readFile generateEmbedding existsSync
                 mtimeMs index currentFiles now))
    = freshChunks readFile f DEFAULT_CHUNKING_CONFIG).
  { intros f Hf. unfold validateAndSyncIndex. fold files.
    destruct files as [|f0 fs] eqn:E; [contradiction|].
    cbn [List.length Nat.ltb].
    replace (0 <? Z.of_nat (S (List.length fs))) with true
      by (symmetry; apply Z.ltb_lt; lia).
    unfold Scanner.updateIndexForFiles. cbn [Scanner.withCounts chunks].
    apply (updateLoop_chunks readFile generateEmbedding
             DEFAULT_CHUNKING_CONFIG (f0 :: fs) f index Hwf).
    exact Hf. }
  assert (Hdeleted : forall f,
    In f (JMap.keys (chunks index)) -> existsSync f = false -> In f files).
  { intros f Hk He. unfold files, filesToUpdate. apply in_or_app. left.
    apply filter_In. split; [exact Hk|]. now rewrite He. }
  assert (Hchanged : forall f,
    In f currentFiles ->
    (if negb (arrayIncludes (JMap.keys (chunks index)) f) then true
     else match mtimeMs f with
          | Some modified =>
              (JSMath.ofInteger (indexedAt (metadata index)) <? modified)%float
          | None => false
          end) = true ->
    In f files).
  { intros f Hc Hq. unfold files, filesToUpdate. apply in_or_app. right.
    apply filter_In. split; [exact Hc | exact Hq]. }
  split; [|split; [|split; [|split]]].
  - intros f Hk He. rewrite (Hqueued f (Hdeleted f Hk He)).
    unfold freshChunks, Scanner.processFile. now rewrite (Hgone f He).
  - intros f Hc Hn. apply Hqueued, Hchanged; [exact Hc|].
    destruct (arrayIncludes (JMap.keys (chunks index)) f) eqn:A;
      [|reflexivity].
    apply ContextGeneratorFacts.arrayIncludes_In in A. contradiction.
  - intros f modified Hc Hm Hlt. apply Hqueued, Hchanged; [exact Hc|].
    rewrite Hm, Hlt. destruct (negb _); reflexivity.
  - intros f Hn. unfold validateAndSyncIndex. fold files.
    destruct (0 <? Z.of_nat (List.length files)); [|reflexivity].
    unfold Scanner.updateIndexForFiles. cbn [Scanner.withCounts chunks].
    apply (updateLoop_chunks readFile generateEmbedding
             DEFAULT_CHUNKING_CONFIG files f index Hwf).
    exact Hn.
  - intros E. unfold validateAndSyncIndex. fold files. rewrite E. reflexivity.
Qed.

End Reconcile.

(** An instance: the sample index reconciled with a disk that holds the
    guide alone: a file of the index that is gone leaves it, and the
    guide comes in. *)
Lemma validateAndSyncIndex_reconciles_witness :
  JMap.wf (chunks Samples.sampleIndex)
  /\ (forall f, String.eqb f "docs/guide.md" = false ->
        MoreSamples.guideFiles f = None)
  /\ JMap.get String.eqb "docs/guides/setup.md"
       (chunks
          (validateAndSyncIndex MoreSamples.guideFiles MoreSamples.noEmbedding
             (fun f => String.eqb f "docs/guide.md") (fun _ => None)
             Samples.sampleIndex ["docs/guide.md"] 1700000000500))
     = None
  /\ JMap.get String.eqb "docs/guide.md"
       (chunks
          (validateAndSyncIndex MoreSamples.guideFiles MoreSamples.noEmbedding
             (fun f => String.eqb f "docs/guide.md") (fun _ => None)
             Samples.sampleIndex ["docs/guide.md"] 1700000000500))
     = freshChunks MoreSamples.guideFiles "docs/guide.md"
         DEFAULT_CHUNKING_CONFIG.
Proof.
  assert (H1 : JMap.wf (chunks Samples.sampleIndex))
    by (repeat constructor; simpl; intuition discriminate).
  assert (H2 : forall f, String.eqb f "docs/guide.md" = false ->
                 MoreSamples.guideFiles f = None)
    by (intros f H; unfold MoreSamples.guideFiles; rewrite H; reflexivity).
  split; [exact H1 | split; [exact H2|]].
  destruct (validateAndSyncIndex_reconciles MoreSamples.guideFiles
              MoreSamples.noEmbedding (fun f => String.eqb f "docs/guide.md")
              (fun _ => None) Samples.sampleIndex ["docs/guide.md"]
              1700000000500 H1 H2) as (Hgone & Hnew & _).
  split.
  - apply Hgone; [right; left; reflexivity | reflexivity].
  - apply Hnew; [left; reflexivity|].
    simpl. intros [H|[H|[]]]; discriminate H.
Defined.

End SyncFacts.

(** ** More on the search *)

Module SearchMore.
Import JS Types Search SearchShape MapFacts Vocabulary.

(** *** The hybrid merge *)

Lemma mergeSemantic_keyed (m : JMap.t string SearchResult) (s : SearchResult) :
  keyedById m -> keyedById (mergeSemantic m s).
Proof.
  intros [Hwf Hk]. unfold mergeSemantic.
  destruct (JMap.get String.eqb (resultId s) m) as [e|] eqn:G.
  - split; [apply wf_set; [exact String.eqb_eq | exact Hwf]|].
    intros k v H. apply In_set in H; [|exact String.eqb_eq].
    destruct H as [[= -> ->]|H]; [|apply Hk, H].
    apply JMapFacts.get_Some_In in G; [|exact String.eqb_eq].
    apply Hk in G. exact G.
  - split; [apply wf_set; [exact String.eqb_eq | exact Hwf]|].
    intros k v H. apply In_set in H; [|exact String.eqb_eq].
    destruct H as [[= -> ->]|H]; [reflexivity | apply Hk, H].
Qed.

Lemma mergedMap_keyed (kr sr : list SearchResult) :
  keyedById
    (fold_left mergeSemantic sr
       (fold_left (fun m r => JMap.set String.eqb (resultId r) r m) kr [])).
Proof.
  assert (H0 : keyedById (@nil (string * SearchResult)))
    by (split; [constructor | intros k v []]).
  assert (H1 : forall m, keyedById m ->
    keyedById (fold_left (fun m r => JMap.set String.eqb (resultId r) r m) kr m)).
  { induction kr as [|r kr IH]; intros m Hm; cbn [fold_left]; [exact Hm|].
    apply IH. destruct Hm as [Hwf Hk].
    split; [apply wf_set; [exact String.eqb_eq | exact Hwf]|].
    intros k v H. apply In_set in H; [|exact String.eqb_eq].
    destruct H as [[= -> ->]|H]; [reflexivity | apply Hk, H]. }
  specialize (H1 _ H0). revert H1.
  generalize (fold_left (fun m r => JMap.set String.eqb (resultId r) r m) kr []).
  induction sr as [|s sr IH]; intros m Hm; cbn [fold_left]; [exact Hm|].
  apply IH, mergeSemantic_keyed, Hm.
Qed.

Lemma keyed_values (m : JMap.t string SearchResult) :
  keyedById m -> NoDup (map resultId (JMap.values m)).
Proof.
  intros [Hwf Hk]. unfold JMap.values. rewrite map_map.
  unfold JMap.wf, JMap.keys in Hwf.
  rewrite (map_ext_in _ fst); [exact Hwf|].
  intros [k v] H. cbn [fst snd]. apply Hk, H.
Qed.

(** The hybrid merge gives every chunk identifier at most once, whatever
    the two lists of results are. *)
Lemma mergeResults_distinct (kr sr : list SearchResult) :
  NoDup (map resultId (mergeResults kr sr)).
Proof. unfold mergeResults. apply keyed_values, mergedMap_keyed. Qed.

Lemma mergeResults_Forall (P : SearchResult -> Prop)
    (kr sr : list SearchResult) :
  (forall e s, P e -> P (boosted e s)) ->
  Forall P kr -> Forall P sr -> Forall P (mergeResults kr sr).
Proof.
  intros Hb Hkr Hsr. unfold mergeResults.
  assert (H1 : forall m, Forall (fun kv => P (snd kv)) m ->
    Forall (fun kv => P (snd kv))
      (fold_left (fun m r => JMap.set String.eqb (resultId r) r m) kr m)).
  { induction Hkr as [|r kr Hr Hkr IH]; intros m Hm; cbn [fold_left];
      [exact Hm|].
    apply IH. apply Forall_forall. intros [k v] H.
    apply In_set in H; [|exact String.eqb_eq].
    destruct H as [[= -> ->]|H]; [exact Hr|].
    apply (proj1 (Forall_forall _ _) Hm _ H). }
  specialize (H1 [] (Forall_nil _)). revert H1.
  generalize (fold_left (fun m r => JMap.set String.eqb (resultId r) r m) kr []).
  induction Hsr as [|s sr Hs Hsr IH]; intros m Hm; cbn [fold_left].
  - unfold JMap.values. apply Forall_map. exact Hm.
  - apply IH. unfold mergeSemantic.
    destruct (JMap.get String.eqb (resultId s) m) as [e|] eqn:G;
      apply Forall_forall; intros [k v] H;
      (apply In_set in H; [|exact String.eqb_eq]);
      destruct H as [[= -> ->]|H];
      try apply (proj1 (Forall_forall _ _) Hm _ H).
    + apply Hb. apply JMapFacts.get_Some_In in G; [|exact String.eqb_eq].
      apply (proj1 (Forall_forall _ _) Hm _ G).
    + exact Hs.
Qed.

(** *** Sorting and slicing *)

Lemma firstn_In {A : Type} (n : nat) (l : list A) (x : A) :
  In x (firstn n l) -> In x l.
Proof.
  intros H. rewrite <- (firstn_skipn n l). apply in_or_app. now left.
Qed.

Lemma slice0_incl {A : Type} (limit : Z) (l : list A) :
  incl (slice0 limit l) l.
Proof. unfold slice0. intros x H. eapply firstn_In; exact H. Qed.

Lemma slice0_NoDup {A B : Type} (f : A -> B) (limit : Z) (l : list A) :
  NoDup (map f l) -> NoDup (map f (slice0 limit l)).
Proof.
  unfold slice0. generalize (Z.to_nat
    (if limit <? 0 then Z.max (Z.of_nat (List.length l) + limit) 0
     else Z.min limit (Z.of_nat (List.length l)))).
  intros n. revert l. induction n as [|n IH]; intros l H; [constructor|].
  destruct l as [|x l]; [constructor|]. cbn [firstn map] in *.
  inversion H as [|? ? Hx Hl]; subst. constructor; [|auto].
  intros Hin. apply Hx. apply in_map_iff in Hin.
  destruct Hin as (y & E & Hy). apply in_map_iff. exists y. split; [exact E|].
  eapply firstn_In; exact Hy.
Qed.

Lemma slice0_length {A : Type} (limit : Z) (l : list A) :
  Z.of_nat (List.length (slice0 limit l))
  = if limit <? 0 then Z.max (Z.of_nat (List.length l) + limit) 0
    else Z.min limit (Z.of_nat (List.length l)).
Proof.
  unfold slice0. rewrite length_firstn.
  destruct (Z.ltb_spec limit 0); lia.
Qed.

Lemma lowerChar_idem (c : ascii) : lowerChar (lowerChar c) = lowerChar c.
Proof. destruct c as [[] [] [] [] [] [] [] []]; reflexivity. Qed.

Lemma toLowerCase_idem (s : string) : toLowerCase (toLowerCase s) = toLowerCase s.
Proof.
  induction s as [|c s IH]; cbn [toLowerCase]; [reflexivity|].
  now rewrite lowerChar_idem, IH.
Qed.

Section Strategies.
Variable minimatch : string -> string -> bool.
Variable generateEmbedding : string -> option (list float).
Variable cosineSimilarity : list float -> list float -> float.

(** What the strategy of a mode returns, before the sort and the slice. *)
Lemma strategy_sound (index : DocIndex) (query : string) (mode : SearchMode)
    (filters : option SearchFilters) :
  Forall
    (fun r => In (chunk r) (allChunks index)
              /\ matchesFilters minimatch (chunk r) filters = true)
    (match mode with
     | Exact => keywordSearch minimatch index query filters
     | Fuzzy => fuzzySearch minimatch index query filters
     | Semantic =>
         semanticSearchWithKeyword minimatch generateEmbedding
           cosineSimilarity index query filters
     end).
Proof.
  assert (Hk : Forall
    (fun r => In (chunk r) (allChunks index)
              /\ matchesFilters minimatch (chunk r) filters = true)
    (keywordSearch minimatch index query filters)).
  { apply Forall_forall. intros r Hr.
    apply SearchFacts.keywordSearch_In in Hr.
    destruct Hr as (c & Hc & Hm & -> & _). auto. }
  destruct mode.
  - unfold semanticSearchWithKeyword. apply mergeResults_Forall;
      [intros e s H; exact H | exact Hk |].
    unfold semanticSearch. destruct (generateEmbedding query) as [q|];
      [|constructor].
    apply Forall_forall. intros r Hr. apply in_flat_map in Hr.
    destruct Hr as ([k e] & _ & Hr). unfold semanticResult in Hr.
    destruct (findChunk index k) as [c|] eqn:F; [|contradiction].
    destruct (matchesFilters minimatch c filters) eqn:M; [|contradiction].
    destruct (0.3 <? cosineSimilarity q e)%float; [|contradiction].
    destruct Hr as [<-|[]]. cbn [chunk]. split; [|exact M].
    unfold findChunk in F. apply find_some in F. tauto.
  - exact Hk.
  - unfold fuzzySearch. apply Forall_forall. intros r Hr.
    apply in_flat_map in Hr. destruct Hr as (c & Hc & Hr).
    destruct (matchesFilters minimatch c filters) eqn:M; [|contradiction].
    destruct (0.6 <? fuzzyBest c (toLowerCase query))%float; [|contradiction].
    destruct Hr as [<-|[]]. cbn [chunk]. auto.
Qed.

(** In every mode, each result of a search is for a chunk of the index
    that passes the filters. *)
Theorem searchDocumentation_sound (index : DocIndex) (query : string)
    (mode : SearchMode) (filters : option SearchFilters) (limit : Z) :
  Forall
    (fun r => In (chunk r) (allChunks index)
              /\ matchesFilters minimatch (chunk r) filters = true)
    (searchDocumentation minimatch generateEmbedding cosineSimilarity
       index query mode filters limit).
Proof.
  apply Forall_forall. intros r H.
  unfold searchDocumentation in H. apply slice0_incl in H.
  apply (Permutation_in _ (SearchFacts.sortResults_perm _)) in H.
  exact (proj1 (Forall_forall _ _)
           (strategy_sound index query mode filters) r H).
Qed.

(** A search returns as many results as the limit says, or all the
    results of the strategy of its mode when they are fewer; a negative
    limit leaves that many results out, counted from the end. *)
Theorem searchDocumentation_limit (index : DocIndex) (query : string)
    (mode : SearchMode) (filters : option SearchFilters) (limit : Z) :
  let found :=
    Z.of_nat
      (List.length
         (match mode with
          | Exact => keywordSearch minimatch index query filters
          | Fuzzy => fuzzySearch minimatch index query filters
          | Semantic =>
              semanticSearchWithKeyword minimatch generateEmbedding
                cosineSimilarity index query filters
          end)) in
  Z.of_nat
    (List.length
       (searchDocumentation minimatch generateEmbedding cosineSimilarity
          index query mode filters limit))
  = if limit <? 0 then Z.max (found + limit) 0 else Z.min limit found.
Proof.
  cbv zeta. unfold searchDocumentation. rewrite slice0_length.
  now rewrite (Permutation_length (SearchFacts.sortResults_perm _)).
Qed.

(** The semantic mode returns no chunk identifier twice, whatever the
    index holds. *)
Theorem semantic_results_distinct (index : DocIndex) (query : string)
    (filters : option SearchFilters) (limit : Z) :
  NoDup
    (map resultId
       (searchDocumentation minimatch generateEmbedding cosineSimilarity
          index query Semantic filters limit)).
Proof.
  unfold searchDocumentation, semanticSearchWithKeyword.
  apply slice0_NoDup.
  eapply Permutation_NoDup;
    [apply Permutation_map; symmetry; apply SearchFacts.sortResults_perm|].
  apply mergeResults_distinct.
Qed.

(** The minimum score of the filters has no effect on a search. *)
Theorem minScore_is_ignored (index : DocIndex) (query : string)
    (mode : SearchMode) (f : SearchFilters) (s : option float) (limit : Z) :
  searchDocumentation minimatch generateEmbedding cosineSimilarity
    index query mode (Some (withMinScore s f)) limit
  = searchDocumentation minimatch generateEmbedding cosineSimilarity
      index query mode (Some f) limit.
Proof.
  unfold searchDocumentation, semanticSearchWithKeyword, keywordSearch,
    semanticSearch, fuzzySearch, keywordResult, semanticResult,
    matchesFilters, withMinScore.
  reflexivity.
Qed.

(** In the exact mode the results come in descending order of their
    scores. *)
Theorem exact_results_descending (index : DocIndex) (query : string)
    (filters : option SearchFilters) (limit : Z) :
  descending
    (searchDocumentation minimatch generateEmbedding cosineSimilarity
       index query Exact filters limit).
Proof.
  unfold searchDocumentation, slice0, descending.
  apply SearchFacts.neighbours_firstn.
  apply SearchFacts.sortResults_descending, SearchFacts.keywordSearch_scores.
Qed.

(** The exact and the fuzzy mode ignore the case of the query: two
    queries with the same lower-case form, such as a query and its
    lower-case form, give the same results. *)
Theorem query_case_is_ignored (index : DocIndex) (query other : string)
    (filters : option SearchFilters) (limit : Z) :
  toLowerCase query = toLowerCase other ->
  searchDocumentation minimatch generateEmbedding cosineSimilarity
    index query Exact filters limit
  = searchDocumentation minimatch generateEmbedding cosineSimilarity
      index other Exact filters limit
  /\ searchDocumentation minimatch generateEmbedding cosineSimilarity
       index query Fuzzy filters limit
     = searchDocumentation minimatch generateEmbedding cosineSimilarity
         index other Fuzzy filters limit.
Proof.
  intros E. unfold searchDocumentation, keywordSearch, fuzzySearch.
  rewrite E. split; reflexivity.
Qed.

End Strategies.

(** An instance: a query and its lower-case form on the sample index. *)
Lemma query_case_is_ignored_witness :
  toLowerCase "JWT Tokens" = toLowerCase (toLowerCase "JWT Tokens")
  /\ searchDocumentation (fun _ _ => true) (fun _ => None)
       (fun _ _ => 0%float) Samples.sampleIndex "JWT Tokens" Exact None 10
     = searchDocumentation (fun _ _ => true) (fun _ => None)
         (fun _ _ => 0%float) Samples.sampleIndex (toLowerCase "JWT Tokens")
         Exact None 10.
Proof.
  assert (H : toLowerCase "JWT Tokens" = toLowerCase (toLowerCase "JWT Tokens"))
    by (symmetry; apply toLowerCase_idem).
  split; [exact H|].
  exact (proj1 (query_case_is_ignored (fun _ _ => true) (fun _ => None)
                  (fun _ _ => 0%float) Samples.sampleIndex "JWT Tokens"
                  (toLowerCase "JWT Tokens") None 10 H)).
Defined.

End SearchMore.

(** ** The edit distance *)

Module LevenshteinFacts.
Import JS Search SearchShape EditShape.

Lemma levenshteinRow_within (bChar : ascii) (i : Z) (a : string) :
  forall rowAbove left j,
    List.length rowAbove = S (String.length a) ->
    cellsWithin (i - 1) j rowAbove ->
    Z.abs (i - j) <= left <= Z.max i j ->
    0 <= j -> 1 <= i ->
    cellsWithin i (j + 1) (levenshteinRow bChar a rowAbove left)
    /\ List.length (levenshteinRow bChar a rowAbove left) = String.length a.
Proof.
  induction a as [|aChar a IH]; intros rowAbove left j Hlen Hrow Hleft Hj Hi.
  - destruct rowAbove; cbn; auto.
  - destruct rowAbove as [|diagonal [|above rest]];
      try (cbn [List.length String.length] in Hlen; lia).
    cbn [levenshteinRow].
    set (cell := if Ascii.eqb bChar aChar then diagonal
                 else Z.min (Z.min (diagonal + 1) (left + 1)) (above + 1)).
    cbn [cellsWithin] in Hrow. destruct Hrow as (Hd & Ha & Hrest).
    assert (Hcell : Z.abs (i - (j + 1)) <= cell <= Z.max i (j + 1)).
    { unfold cell. clear - Hd Ha Hleft. destruct (Ascii.eqb bChar aChar); lia. }
    assert (Hlen' : List.length (above :: rest) = S (String.length a))
      by (cbn [List.length String.length] in *; lia).
    assert (Hrow' : cellsWithin (i - 1) (j + 1) (above :: rest))
      by (cbn [cellsWithin]; auto).
    destruct (IH (above :: rest) cell (j + 1) Hlen' Hrow' Hcell) as [IH1 IH2];
      try lia.
    cbn [cellsWithin List.length String.length]. auto.
Qed.

Lemma levenshteinRows_within (a b : string) :
  forall i rowAbove,
    1 <= i ->
    List.length rowAbove = S (String.length a) ->
    cellsWithin (i - 1) 0 rowAbove ->
    let final := levenshteinRows a b i rowAbove in
    List.length final = S (String.length a)
    /\ cellsWithin (i - 1 + lengthZ b) 0 final.
Proof.
  induction b as [|bChar b IH]; intros i rowAbove Hi Hlen Hrow;
    cbn [levenshteinRows]; cbv zeta.
  - unfold lengthZ. cbn [String.length]. rewrite Z.add_0_r. auto.
  - destruct (levenshteinRow_within bChar i a rowAbove i 0 Hlen Hrow)
      as [H1 H2]; try lia.
    destruct (IH (i + 1) (i :: levenshteinRow bChar a rowAbove i)) as [I1 I2];
      try lia.
    + cbn [List.length]. now rewrite H2.
    + replace (i + 1 - 1) with i by lia. cbn [cellsWithin].
      split; [lia | exact H1].
    + split; [exact I1|]. unfold lengthZ in *. cbn [String.length].
      replace (i - 1 + Z.of_nat (S (String.length b)))
        with (i + 1 - 1 + Z.of_nat (String.length b)) by lia.
      exact I2.
Qed.

Lemma cellsWithin_last (i : Z) (row : list Z) :
  forall j,
    row <> [] -> cellsWithin i j row ->
    let k := j + Z.of_nat (List.length row) - 1 in
    Z.abs (i - k) <= last row 0 <= Z.max i k.
Proof.
  induction row as [|x t IH]; intros j Hne H; [contradiction|].
  cbn [cellsWithin] in H. destruct H as [Hx Ht].
  destruct t as [|y t'].
  - cbn [last List.length]. cbv zeta. replace (j + Z.of_nat 1 - 1) with j by lia.
    exact Hx.
  - specialize (IH (j + 1) ltac:(discriminate) Ht). cbv zeta in *.
    change (last (x :: y :: t') 0) with (last (y :: t') 0).
    cbn [List.length] in *.
    replace (j + Z.of_nat (S (S (List.length t'))) - 1)
      with (j + 1 + Z.of_nat (S (List.length t')) - 1) by lia.
    exact IH.
Qed.

Lemma firstRow_within (n : nat) :
  forall j, cellsWithin 0 (Z.of_nat j) (map Z.of_nat (seq j n)).
Proof.
  induction n as [|n IH]; intros j; cbn [seq map cellsWithin]; [exact I|].
  split; [lia|]. replace (Z.of_nat j + 1) with (Z.of_nat (S j)) by lia.
  apply IH.
Qed.

(** The distance is at least the difference of the two lengths and at
    most the larger of them. *)
Lemma lastRow_within (a b : string) :
  Z.abs (lengthZ a - lengthZ b)
  <= last (levenshteinRows a b 1
             (map Z.of_nat (seq 0 (S (String.length a))))) 0
  <= Z.max (lengthZ a) (lengthZ b).
Proof.
  set (firstRow := map Z.of_nat (seq 0 (S (String.length a)))).
  destruct (levenshteinRows_within a b 1 firstRow) as [H1 H2]; try lia.
  - unfold firstRow. now rewrite length_map, length_seq.
  - apply (firstRow_within _ 0%nat).
  - cbv zeta in *.
    pose proof (cellsWithin_last _ _ 0
                  ltac:(intros E; rewrite E in H1; discriminate) H2) as H.
    cbv zeta in H. rewrite H1 in H. unfold lengthZ in *. lia.
Qed.

(** The edit distance of two strings is at least the difference of their
    lengths and at most the larger length; against the empty string it
    is the length of the other string. *)
Theorem levenshteinDistance_bounds (a b : string) :
  Z.abs (lengthZ a - lengthZ b) <= levenshteinDistance a b
  <= Z.max (lengthZ a) (lengthZ b)
  /\ levenshteinDistance a EmptyString = lengthZ a
  /\ levenshteinDistance EmptyString b = lengthZ b.
Proof.
  split; [apply lastRow_within|].
  pose proof (lastRow_within a EmptyString) as H1.
  pose proof (lastRow_within EmptyString b) as H2.
  unfold levenshteinDistance, lengthZ in *.
  cbn [String.length] in H1, H2. cbn [String.length]. lia.
Qed.

(** *** The matrix and its recurrence *)

Lemma cell_nil_r (x : list ascii) : cell x [] = Z.of_nat (List.length x).
Proof. destruct x; reflexivity. Qed.

Lemma cell_nil_l (y : list ascii) : cell [] y = Z.of_nat (List.length y).
Proof. destruct y; reflexivity. Qed.

Lemma cell_cons (c d : ascii) (x y : list ascii) :
  cell (c :: x) (d :: y)
  = if Ascii.eqb c d then cell x y
    else Z.min (Z.min (cell x y + 1) (cell (c :: x) y + 1)) (cell x (d :: y) + 1).
Proof. reflexivity. Qed.

Lemma levenshteinRow_cells (c : ascii) (x : list ascii) (rest : string) :
  forall p,
    levenshteinRow c rest (cell x p :: cells x p rest) (cell (c :: x) p)
    = cells (c :: x) p rest.
Proof.
  induction rest as [|d rest IH]; intros p; [reflexivity|].
  cbn [cells levenshteinRow].
  destruct rest as [|e rest'].
  - cbn [cells levenshteinRow]. rewrite cell_cons. reflexivity.
  - rewrite cell_cons. f_equal. rewrite <- cell_cons. apply (IH (d :: p)).
Qed.

Lemma levenshteinRows_cells (a b : string) :
  forall x i,
    i = Z.of_nat (List.length x) + 1 ->
    levenshteinRows a b i (cell x [] :: cells x [] a)
    = cell (reversed b x) [] :: cells (reversed b x) [] a.
Proof.
  induction b as [|c b IH]; intros x i Hi; cbn [levenshteinRows reversed];
    [reflexivity|].
  replace i with (cell (c :: x) []) at 2 3
    by (rewrite cell_nil_r; cbn [List.length]; lia).
  rewrite levenshteinRow_cells. apply IH. cbn [List.length]. lia.
Qed.

Lemma cells_first (rest : string) :
  forall p,
    cells [] p rest
    = map Z.of_nat (seq (S (List.length p)) (String.length rest)).
Proof.
  induction rest as [|d rest IH]; intros p; [reflexivity|].
  cbn [cells String.length seq map]. f_equal. apply (IH (d :: p)).
Qed.

Lemma cells_last (x : list ascii) (rest : string) :
  forall p, last (cell x p :: cells x p rest) 0 = cell x (reversed rest p).
Proof.
  induction rest as [|d rest IH]; intros p; [reflexivity|].
  cbn [cells reversed]. rewrite <- (IH (d :: p)). reflexivity.
Qed.

(** The matrix of the source holds the recurrence. *)
Lemma levenshteinDistance_cell (a b : string) :
  levenshteinDistance a b = cell (reversed b []) (reversed a []).
Proof.
  unfold levenshteinDistance. cbn [seq map].
  change (Z.of_nat 0) with (cell [] []).
  pose proof (cells_first a []) as E. cbn [List.length] in E. rewrite <- E.
  rewrite (levenshteinRows_cells a b [] 1) by reflexivity.
  apply cells_last.
Qed.

Lemma cell_sym (x : list ascii) : forall y, cell x y = cell y x.
Proof.
  induction x as [|c x IHx]; intros y; [now rewrite cell_nil_r, cell_nil_l|].
  induction y as [|d y IHy]; [reflexivity|].
  rewrite !cell_cons, (Ascii.eqb_sym d c), (IHx y), IHy, (IHx (d :: y)).
  destruct (Ascii.eqb c d); [reflexivity | lia].
Qed.

Lemma cell_nonneg (x : list ascii) : forall y, 0 <= cell x y.
Proof.
  induction x as [|c x IHx]; intros y; [rewrite cell_nil_l; lia|].
  induction y as [|d y IHy]; [cbn [cell]; lia|].
  rewrite cell_cons. pose proof (IHx y). pose proof (IHx (d :: y)).
  destruct (Ascii.eqb c d); lia.
Qed.

Lemma cell_zero (x : list ascii) : forall y, cell x y = 0 <-> x = y.
Proof.
  induction x as [|c x IHx]; intros y.
  - destruct y; cbn [cell List.length]; split; intros H;
      try reflexivity; try discriminate; lia.
  - destruct y as [|d y]; [split; [cbn [cell List.length]; lia | discriminate]|].
    rewrite cell_cons.
    pose proof (cell_nonneg x y). pose proof (cell_nonneg (c :: x) y).
    pose proof (cell_nonneg x (d :: y)).
    destruct (Ascii.eqb_spec c d) as [->|Hne].
    + rewrite IHx. split; [now intros -> | now intros [= ->]].
    + split; [lia | intros [= -> ->]; contradiction].
Qed.

Lemma reversed_inj (a : string) :
  forall b p q,
    List.length p = List.length q ->
    reversed a p = reversed b q -> a = b /\ p = q.
Proof.
  assert (Hlen : forall s p, List.length (reversed s p)
                             = (String.length s + List.length p)%nat).
  { induction s as [|c s IH]; intros p; cbn [reversed String.length];
      [reflexivity|]. rewrite IH. cbn [List.length]. lia. }
  induction a as [|c a IH]; intros b p q Hpq H.
  - destruct b as [|d b]; [auto|]. exfalso.
    apply (f_equal (@List.length ascii)) in H. rewrite !Hlen in H.
    cbn [String.length] in H. lia.
  - destruct b as [|d b].
    + exfalso. apply (f_equal (@List.length ascii)) in H. rewrite !Hlen in H.
      cbn [String.length] in H. lia.
    + cbn [reversed] in H. apply IH in H; [|cbn [List.length]; lia].
      destruct H as [-> [= -> ->]]. auto.
Qed.

(** The edit distance does not depend on the order of its arguments. *)
Theorem levenshteinDistance_sym (a b : string) :
  levenshteinDistance a b = levenshteinDistance b a.
Proof. rewrite !levenshteinDistance_cell. apply cell_sym. Qed.

(** The edit distance of two strings is 0 exactly when they are equal. *)
Theorem levenshteinDistance_zero (a b : string) :
  levenshteinDistance a b = 0 <-> a = b.
Proof.
  rewrite levenshteinDistance_cell, cell_zero. split.
  - intros H. symmetry. now apply (reversed_inj b a [] []).
  - now intros ->.
Qed.

End LevenshteinFacts.

(** ** More on the context *)

Module ContextMore.
Import JS Types ContextGenerator Vocabulary StringFacts.

Lemma findCategory_name (parts : list string) (next : string) :
  findCategory parts = Some next -> isCategoryName next.
Proof.
  induction parts as [|p rest IH]; cbn [findCategory]; [discriminate|].
  destruct (truthy (toLowerCase p) && arrayIncludes docsDirNames (toLowerCase p));
    [|exact IH].
  destruct rest as [|nextPart rest']; [exact IH|].
  destruct (truthy nextPart && negb (includes nextPart ".")) eqn:E; [|exact IH].
  intros [= <-]. apply ContextGeneratorFacts.isCategoryName_dec, E.
Qed.

(** The category of a path is never empty and never holds a dot; the
    context of a chunk starts with it, so that no context is empty. *)
Theorem category_is_a_name (filePath : string) (chunk : DocChunk) :
  isCategoryName (extractCategory filePath)
  /\ beginsWith (extractCategory (file chunk)) (generateContext chunk)
  /\ generateContext chunk <> EmptyString.
Proof.
  assert (Hname : forall p, isCategoryName (extractCategory p)).
  { intros p. unfold extractCategory.
    destruct (findCategory (split "/" p)) as [c|] eqn:E;
      [eapply findCategory_name; exact E|].
    destruct (2 <=? List.length (split "/" p))%nat;
      [|split; [discriminate | reflexivity]].
    destruct (truthy _ && negb (includes _ ".")) eqn:T;
      [apply ContextGeneratorFacts.isCategoryName_dec, T|].
    split; [discriminate | reflexivity]. }
  assert (Hbegins : beginsWith (extractCategory (file chunk))
                      (generateContext chunk)).
  { unfold generateContext.
    destruct (truthy (join " > " (hierarchy chunk))
              && truthy (Parser.extractFirstSentence (content chunk)));
      [eexists; reflexivity|].
    destruct (truthy (join " > " (hierarchy chunk))); [eexists; reflexivity|].
    destruct (truthy (Parser.extractFirstSentence (content chunk)));
      [eexists; reflexivity | apply beginsWith_refl]. }
  split; [apply Hname|]. split; [exact Hbegins|].
  destruct Hbegins as [tail E]. rewrite E.
  destruct (Hname (file chunk)) as [Hne _].
  destruct (extractCategory (file chunk)); [contradiction | discriminate].
Qed.

Lemma length_substring (s : string) :
  forall n, (String.length (String.substring 0 n s) <= n)%nat.
Proof.
  induction s as [|c s IH]; intros [|n]; cbn; try lia.
  specialize (IH n). lia.
Qed.

(** The context of a chunk is the category, the heading path and at most
    80 characters of the first sentence: it is never longer than these
    and their separators. *)
Theorem generateContext_length (chunk : DocChunk) :
  (String.length (generateContext chunk)
   <= String.length (extractCategory (file chunk)) + 3
      + String.length (join " > " (hierarchy chunk)) + 2 + 80)%nat.
Proof.
  unfold generateContext.
  pose proof (length_substring (Parser.extractFirstSentence (content chunk)) 80)
    as H.
  unfold sliceTo.
  destruct (truthy (join " > " (hierarchy chunk))
            && truthy (Parser.extractFirstSentence (content chunk)));
    [rewrite !length_append; cbn [String.length]; lia|].
  destruct (truthy (join " > " (hierarchy chunk)));
    [rewrite !length_append; cbn [String.length]; lia|].
  destruct (truthy (Parser.extractFirstSentence (content chunk)));
    [rewrite !length_append; cbn [String.length]; lia | lia].
Qed.

End ContextMore.

(** ** The search tool *)

Module ToolsFacts.
Import JS Types Tools.

Section Handler.
Variable minimatch : string -> string -> bool.
Variable generateEmbedding : string -> option (list float).
Variable cosineSimilarity : list float -> list float -> float.
Variable numberToText : float -> string.

(** The tool fails in exactly four cases, tested in this order: while
    the index is being built (the error prints the rounded percentage
    and the two counters), without an index, without a query, and in the
    semantic mode (the default) without embeddings (the error prints the
    minutes until the next attempt, rounded up). A successful answer
    comes from an index that is not being built, for a query that is not
    empty, counts the results it holds, holds no more than the limit (10
    by default) when the limit is not negative, and every result is a
    chunk of the index that passes the filters. One file of eight is
    13 percent, one of three 33, none of none 0; 200 seconds before the
    next attempt are 4 minutes. *)
Theorem handleSearchDocs_contract (index : option DocIndex)
    (progress : IndexingProgress) (state : EmbeddingsState)
    (params : SearchDocsParams) (now : float) :
  let response :=
    handleSearchDocs minimatch generateEmbedding cosineSimilarity
      numberToText index progress state params now in
  let modeOf := match mode params with Some m => m | None => Semantic end in
  let limitOf := match limit params with Some l => l | None => 10 end in
  (forall error,
     response = Failure error <->
     (isIndexing progress = true
      /\ error
         = ("Indexing in progress: " ++ numberToText (percent progress)
            ++ "% (" ++ numberToText (filesProcessed progress) ++ "/"
            ++ numberToText (totalFiles progress)
            ++ " files), try again in a few seconds")%string)
     \/ (isIndexing progress = false /\ index = None
         /\ error = "Index not initialized")
     \/ (isIndexing progress = false /\ index <> None
         /\ query params = EmptyString
         /\ error = "Query parameter is required")
     \/ (isIndexing progress = false /\ index <> None
         /\ query params <> EmptyString
         /\ modeOf = Semantic /\ available state = false
         /\ error
            = ("Semantic search unavailable - embeddings model failed to load. Retrying in "
               ++ numberToText (nextRetryMinutes state now)
               ++ " minutes. Use mode='exact' or mode='fuzzy' instead.")%string))
  /\ (forall results q m total,
        response = Success results q m total ->
        exists idx,
          index = Some idx /\ isIndexing progress = false
          /\ q = query params /\ q <> EmptyString /\ m = modeOf
          /\ (m = Semantic -> available state = true)
          /\ total = Z.of_nat (List.length results)
          /\ (0 <= limitOf -> total <= limitOf)
          /\ Forall
               (fun r =>
                  exists c,
                    In c (Search.allChunks idx)
                    /\ Search.matchesFilters minimatch c (filters params) = true
                    /\ Tools.file r = Types.file c /\ line r = startLine c
                    /\ Tools.context r = Types.context c
                    /\ Tools.hierarchy r = Types.hierarchy c
                    /\ Tools.chunkType r = Types.chunkType c)
               results)
  /\ percent {| isIndexing := true; filesProcessed := 1; totalFiles := 8 |}
     = 13%float
  /\ percent {| isIndexing := true; filesProcessed := 1; totalFiles := 3 |}
     = 33%float
  /\ percent {| isIndexing := true; filesProcessed := 0; totalFiles := 0 |}
     = 0%float
  /\ nextRetryMinutes
       {| available := false; lastAttempt := 1000; retryIntervalMs := 300000 |}
       101000
     = 4%float.
Proof.
  cbv zeta. unfold handleSearchDocs.
  split; [|split; [|repeat split; vm_compute; reflexivity]].
  - intros error. unfold indexingMessage, unavailableMessage.
    destruct (isIndexing progress).
    { split.
      - intros [= <-]. left. split; reflexivity.
      - intros [[_ ->]|[[H _]|[[H _]|[H _]]]];
          [reflexivity | discriminate H..]. }
    destruct index as [idx|].
    2:{ split.
        - intros [= <-]. right. left. repeat split.
        - intros [[H _]|[(_ & _ & ->)|[(_ & H & _)|(_ & H & _)]]];
            [discriminate H | reflexivity | now contradiction H..]. }
    destruct (query params) as [|c q] eqn:Hq; cbn [truthy negb].
    { split.
      - intros [= <-]. right. right. left.
        repeat split. discriminate.
      - intros [[H _]|[(_ & H & _)|[(_ & _ & _ & ->)|(_ & _ & H & _)]]];
          [discriminate H | discriminate H | reflexivity
          | now contradiction H]. }
    destruct (match mode params with Some m => m | None => Semantic end)
      eqn:Hm; cbn [isSemantic andb].
    + destruct (available state) eqn:Ha; cbn [negb].
      * split; [discriminate|].
        intros [[H _]|[(_ & H & _)|[(_ & _ & H & _)|(_ & _ & _ & _ & H & _)]]];
          discriminate H.
      * split.
        -- intros [= <-]. right. right. right.
           repeat split; discriminate.
        -- intros [[H _]|[(_ & H & _)|[(_ & _ & H & _)|(_ & _ & _ & _ & _ & ->)]]];
             [discriminate H | discriminate H | discriminate H | reflexivity].
    + split; [discriminate|].
      intros [[H _]|[(_ & H & _)|[(_ & _ & H & _)|(_ & _ & _ & H & _)]]];
        discriminate H.
    + split; [discriminate|].
      intros [[H _]|[(_ & H & _)|[(_ & _ & H & _)|(_ & _ & _ & H & _)]]];
        discriminate H.
  - intros results q m total H.
    destruct (isIndexing progress); [discriminate|].
    destruct index as [idx|]; [|discriminate].
    destruct (truthy (query params)) eqn:Hq; cbn [negb] in H; [|discriminate].
    destruct (isSemantic _ && negb (available state)) eqn:Hs;
      [discriminate|].
    injection H as <- <- <- <-.
    exists idx. split; [reflexivity|]. split; [reflexivity|].
    split; [reflexivity|].
    split; [intros E; rewrite E in Hq; discriminate|].
    split; [reflexivity|].
    split.
    { intros Hm. rewrite Hm in Hs. cbn [isSemantic andb] in Hs.
      destruct (available state); [reflexivity | discriminate]. }
    split; [reflexivity|]. split.
    { intros Hl. rewrite length_map. unfold Search.searchDocumentation.
      rewrite SearchMore.slice0_length.
      destruct (Z.ltb_spec
                  (match limit params with Some l => l | None => 10 end) 0);
        lia. }
    apply Forall_map. apply Forall_forall. intros r Hr.
    unfold Search.searchDocumentation in Hr.
    apply SearchMore.slice0_incl in Hr.
    apply (Permutation_in _ (SearchFacts.sortResults_perm _)) in Hr.
    destruct (proj1 (Forall_forall _ _)
                (SearchMore.strategy_sound minimatch generateEmbedding
                   cosineSimilarity idx (query params) _ (filters params))
                r Hr) as [Hc Hm].
    exists (chunk r). repeat split; assumption.
Qed.

End Handler.
End ToolsFacts.

(** ** The file watcher *)

Module WatcherFacts.
Import JS Watcher.

Lemma add_tidy (filePath : string) (pending : list string) :
  isDocumentationPath filePath = true -> tidy pending ->
  tidy (add filePath pending).
Proof.
  intros Hd [Hn Hf]. unfold add.
  destruct (arrayIncludes pending filePath) eqn:E; [split; assumption|].
  split.
  - apply NoDup_app; auto.
    + repeat constructor. auto.
    + intros a Ha [<-|[]].
      apply ContextGeneratorFacts.arrayIncludes_In in Ha. congruence.
  - apply Forall_app. split; [exact Hf|]. repeat constructor. exact Hd.
Qed.

Lemma add_In (filePath : string) (pending : list string) (f : string) :
  In f (add filePath pending) <-> In f pending \/ f = filePath.
Proof.
  unfold add. destruct (arrayIncludes pending filePath) eqn:E.
  - apply ContextGeneratorFacts.arrayIncludes_In in E. split; [auto|].
    intros [H | ->]; assumption.
  - rewrite in_app_iff. cbn [In]. split; intros [H|H]; auto.
    + destruct H as [<-|[]]. now right.
Qed.

Lemma add_nonempty (filePath : string) (pending : list string) :
  add filePath pending <> [].
Proof.
  unfold add. destruct (arrayIncludes pending filePath) eqn:E.
  - destruct pending; [discriminate E | discriminate].
  - destruct pending; discriminate.
Qed.

(** One event keeps the pending changes tidy, hands over nothing or all
    of them, and loses no path. *)
Lemma step_tidy (st : State) (e : Event) :
  tidy (pendingChanges st) ->
  tidy (pendingChanges (fst (step st e)))
  /\ match snd (step st e) with
     | Some files => files <> [] /\ tidy files
     | None => True
     end
  /\ (forall f,
        In f (match snd (step st e) with Some files => files | None => [] end
              ++ pendingChanges (fst (step st e)))
        <-> In f (pendingChanges st) \/ In f (reported st [e])).
Proof.
  intros Ht.
  assert (Hsame : forall f : string,
    In f (pendingChanges st) <-> In f (pendingChanges st) \/ In f [])
    by (intros f; cbn [In]; tauto).
  destruct e; cbn [step reported fst snd app].
  - cbn [pendingChanges]. split; [exact Ht|]. split; [exact I | exact Hsame].
  - cbn [pendingChanges]. split; [exact Ht|]. split; [exact I | exact Hsame].
  - destruct (watcher st) eqn:W; cbn [fst snd andb app];
      [|split; [exact Ht|]; split; [exact I | exact Hsame]].
    unfold queueChange. fold (isDocumentationPath filePath).
    destruct (isDocumentationPath filePath) eqn:D;
      cbn [negb pendingChanges app].
    + split; [apply add_tidy; assumption|]. split; [exact I|].
      intros f. rewrite add_In. cbn [In]. intuition.
    + split; [exact Ht|]. split; [exact I | exact Hsame].
  - destruct (batchTimer st) eqn:B; cbn [fst snd];
      [|split; [exact Ht|]; split; [exact I | exact Hsame]].
    unfold processBatch. destruct (pendingChanges st) as [|f0 fs] eqn:P;
      cbn [fst snd pendingChanges app].
    + rewrite P. split; [split; constructor|]. split; [exact I|].
      intros f. cbn [In]. tauto.
    + split; [split; constructor|]. split; [split; [discriminate | exact Ht]|].
      intros f. rewrite app_nil_r. cbn [In]. tauto.
Qed.

Lemma run_cons (st : State) (e : Event) (rest : list Event) :
  run st (e :: rest)
  = (fst (run (fst (step st e)) rest),
     match snd (step st e) with
     | Some b => b :: snd (run (fst (step st e)) rest)
     | None => snd (run (fst (step st e)) rest)
     end).
Proof.
  cbn [run]. destruct (step st e) as [st' batch]. cbn [fst snd].
  destruct (run st' rest) as [final batches]. reflexivity.
Qed.

Lemma run_tidy (events : list Event) :
  forall st,
    tidy (pendingChanges st) ->
    Forall (fun files => files <> [] /\ tidy files) (snd (run st events))
    /\ tidy (pendingChanges (fst (run st events)))
    /\ (forall f,
          In f (List.concat (snd (run st events))
                ++ pendingChanges (fst (run st events)))
          <-> In f (pendingChanges st) \/ In f (reported st events)).
Proof.
  induction events as [|e rest IH]; intros st Ht.
  - cbn [run fst snd List.concat app reported].
    split; [constructor|]. split; [exact Ht|]. intros f. cbn [In]. tauto.
  - rewrite run_cons. cbn [fst snd].
    destruct (step_tidy st e Ht) as (Ht' & Hb & Hin).
    destruct (IH _ Ht') as (IH1 & IH2 & IH3).
    split; [|split; [exact IH2|]].
    + destruct (snd (step st e)); [constructor; assumption | exact IH1].
    + intros f.
      assert (E : reported st (e :: rest)
                  = reported st [e] ++ reported (fst (step st e)) rest).
      { cbn [reported]. now rewrite app_nil_r. }
      rewrite E, in_app_iff.
      specialize (Hin f). specialize (IH3 f).
      rewrite in_app_iff in Hin, IH3.
      destruct (snd (step st e)) as [b|]; cbn [List.concat];
        rewrite ?in_app_iff; cbn [In] in *; tauto.
Qed.

Lemma run_armed (events : list Event) :
  forall st,
    ~ In Stop events ->
    (pendingChanges st <> [] -> batchTimer st = true) ->
    pendingChanges (fst (run st events)) <> [] ->
    batchTimer (fst (run st events)) = true.
Proof.
  induction events as [|e rest IH]; intros st Hs Ha; [exact Ha|].
  rewrite run_cons. cbn [fst]. apply IH; [intros H; apply Hs; now right|].
  destruct e; cbn [step fst].
  - exact Ha.
  - exfalso. apply Hs. now left.
  - destruct (watcher st); cbn [fst]; [|exact Ha].
    unfold queueChange. destruct (negb _); [exact Ha | reflexivity].
  - destruct (batchTimer st) eqn:B; cbn [fst];
      [|rewrite B; exact Ha].
    unfold processBatch. destruct (pendingChanges st) as [|f fs] eqn:P;
      cbn [pendingChanges]; [|contradiction].
    rewrite P. contradiction.
Qed.

(** Whatever happens to a watcher, a batch handed to [onChange] is not
    empty and holds paths of documentation files, each once; the batches
    and the pending changes together hold exactly the paths the open
    watcher reported; and, as long as [stop] is not called, changes are
    pending only while the timer is set. *)
Theorem watcher_batches (events : list Event) :
  Forall (fun files => files <> [] /\ tidy files) (snd (run initial events))
  /\ tidy (pendingChanges (fst (run initial events)))
  /\ (forall f,
        In f (List.concat (snd (run initial events))
              ++ pendingChanges (fst (run initial events)))
        <-> In f (reported initial events))
  /\ (~ In Stop events ->
      pendingChanges (fst (run initial events)) <> [] ->
      batchTimer (fst (run initial events)) = true).
Proof.
  assert (H0 : tidy (pendingChanges initial))
    by (split; constructor).
  destruct (run_tidy events initial H0) as (H1 & H2 & H3).
  split; [exact H1|]. split; [exact H2|]. split.
  - intros f. rewrite H3. cbn [initial pendingChanges In]. tauto.
  - intros Hs. apply run_armed; [exact Hs|]. intros H. now contradiction H.
Qed.

End WatcherFacts.
